(** * rmbg: pixel-level post-processing around a segmentation model

    A shallow embedding of the Go package [rmbg] (scratch-buffer pool,
    object-bounds detection and crop geometry, background-distance mask,
    Otsu binarisation over the sigmoid lookup table, parallel compositor)
    and the properties of its specification checked against it.

    Conventions.
    - Go's [int] and [int64] are 64-bit two's complement: they are [Z]
      with the wrap-around [wrap64] written at every arithmetic operation.
    - [float32] and [float64] are IEEE 754 binary32 and binary64 values
      of [spec_float], computed with the round-to-nearest-even operations
      of the Standard Library's [SpecFloat] at precision 24 and 53.
    - A Go panic (index or slice bound out of range, division by zero)
      is [None], or [Panic] for a call that can also return an error.
    - An image enters the crop geometry through its bounds only, and
      [math.Exp], which belongs to Go's library, is a parameter of the
      sigmoid table. *)

From Stdlib Require Import ZArith List Lia Bool SpecFloat.
From Stdlib Require String.
Import ListNotations String.StringSyntax.
Local Open Scope string_scope.
Local Open Scope Z_scope.

(* ================================================================== *)
(** * Definitions *)
(* ================================================================== *)

(** ** Machine integers *)

Module GoInt.

Definition min_int : Z := - 2 ^ 63.
Definition max_int : Z := 2 ^ 63 - 1.

(** Two's-complement reduction of an exact result to 64 bits. *)
Definition wrap64 (z : Z) : Z := (z + 2 ^ 63) mod 2 ^ 64 - 2 ^ 63.

Definition add (a b : Z) : Z := wrap64 (a + b).
Definition sub (a b : Z) : Z := wrap64 (a - b).
Definition mul (a b : Z) : Z := wrap64 (a * b).
(** Go's [/] truncates toward zero; a zero divisor panics. *)
Definition div (a b : Z) : option Z :=
  if b =? 0 then None else Some (wrap64 (Z.quot a b)).
(** Division by the literal 2, which cannot panic. *)
Definition half (a : Z) : Z := wrap64 (Z.quot a 2).

End GoInt.

(** ** Slices, arrays and counting loops *)

Module GoSlice.

(** The integers [lo, lo+1, ..., hi-1] a [for v := lo; v < hi; v++]
    loop (or [for v := range hi], with [lo = 0]) runs through. *)
Definition range (lo hi : Z) : list Z :=
  map (fun i => lo + Z.of_nat i) (seq 0 (Z.to_nat (hi - lo))).

(** [l[i]]: out of range panics. *)
Definition index {A : Type} (l : list A) (i : Z) : option A :=
  if i <? 0 then None else nth_error l (Z.to_nat i).

Fixpoint set_nth {A : Type} (l : list A) (n : nat) (v : A) : option (list A) :=
  match l, n with
  | [], _ => None
  | _ :: t, O => Some (v :: t)
  | h :: t, S n' => option_map (cons h) (set_nth t n' v)
  end.

(** [l[i] = v]: out of range panics. *)
Definition store {A : Type} (l : list A) (i : Z) (v : A) : option (list A) :=
  if i <? 0 then None else set_nth l (Z.to_nat i) v.

(** The bounds check of the slice expression [l[lo:hi]], for a slice
    whose length is its capacity. *)
Definition slice_ok {A : Type} (l : list A) (lo hi : Z) : bool :=
  (0 <=? lo) && (lo <=? hi) && (hi <=? Z.of_nat (length l)).

(** Element [i] of a fixed-size array, for an index that the
    surrounding code keeps inside the array. *)
Definition at_ (l : list Z) (i : Z) : Z := nth (Z.to_nat i) l 0.

(** The same for an array of floating-point values. *)
Definition at32 (l : list spec_float) (i : Z) : spec_float :=
  nth (Z.to_nat i) l (S754_zero false).

(** Assignment to element [i] of a fixed-size array, same proviso. *)
Fixpoint upd_nat {A : Type} (l : list A) (n : nat) (v : A) : list A :=
  match l, n with
  | [], _ => []
  | _ :: t, O => v :: t
  | h :: t, S n' => h :: upd_nat t n' v
  end.

Definition upd {A : Type} (l : list A) (i : Z) (v : A) : list A :=
  if i <? 0 then l else upd_nat l (Z.to_nat i) v.

End GoSlice.

(** ** Scratch-buffer pool (buffer.go) *)

Module Buffer.

(** A [[]uint8]: the backing array from the slice's first element on
    (its length is the capacity) and the slice length. *)
Record slice : Type := mkSlice { backing : list Z ; len : Z }.

Definition cap (s : slice) : Z := Z.of_nat (length (backing s)).

(** The zero value of a slice field. *)
Definition nil_slice : slice := mkSlice [] 0.

(** [make([]uint8, n)]: length and capacity [n]; panics for [n < 0]. *)
Definition make (n : Z) : option slice :=
  if n <? 0 then None else Some (mkSlice (repeat 0 (Z.to_nat n)) n).

(** [s[:n]]: same backing array; panics unless [0 <= n <= cap(s)]. *)
Definition reslice (s : slice) (n : Z) : option slice :=
  if (0 <=? n) && (n <=? cap s) then Some (mkSlice (backing s) n) else None.

Record blurBuffer : Type := mkBuf { tmp : slice ; hPass : slice }.

(** What the pool's [New] returns: [&blurBuffer{}]. *)
Definition newBuffer : blurBuffer := mkBuf nil_slice nil_slice.

(** The body of [blurBufferPool.get] applied to the buffer [buf] that
    [p.pool.Get()] handed out. *)
Definition get (buf : blurBuffer) (size : Z) : option blurBuffer :=
  if cap (tmp buf) <? size then
    match make size, make size with
    | Some t, Some h => Some (mkBuf t h)
    | _, _ => None
    end
  else
    match reslice (tmp buf) size, reslice (hPass buf) size with
    | Some t, Some h => Some (mkBuf t h)
    | _, _ => None
    end.

(** The pool: the buffers resting in the [sync.Pool] and the buffers
    currently borrowed. *)
Record blurBufferPool : Type :=
  mkPool { free : list blurBuffer ; held : list blurBuffer }.

Definition newBlurBufferPool : blurBufferPool := mkPool [] [].

(** The borrower fills a slice: the visible bytes change, the length
    and the backing array's size do not. *)
Definition same_shape (s s' : slice) : Prop :=
  len s' = len s /\ length (backing s') = length (backing s).

(** One pool operation.  [sync.Pool.Get] returns any resting buffer or
    a fresh one, and the runtime may drop resting buffers at any time. *)
Inductive step : blurBufferPool -> blurBufferPool -> Prop :=
| step_get_fresh : forall p size b,
    get newBuffer size = Some b ->
    step p (mkPool (free p) (b :: held p))
| step_get_reuse : forall l1 old l2 hs size b,
    get old size = Some b ->
    step (mkPool (l1 ++ old :: l2) hs) (mkPool (l1 ++ l2) (b :: hs))
| step_write : forall fs h1 b h2 t' h',
    same_shape (tmp b) t' -> same_shape (hPass b) h' ->
    step (mkPool fs (h1 ++ b :: h2)) (mkPool fs (h1 ++ mkBuf t' h' :: h2))
| step_put : forall fs h1 b h2,
    step (mkPool fs (h1 ++ b :: h2)) (mkPool (b :: fs) (h1 ++ h2))
| step_drop : forall l1 b l2 hs,
    step (mkPool (l1 ++ b :: l2) hs) (mkPool (l1 ++ l2) hs).

Inductive reachable : blurBufferPool -> Prop :=
| reach_new : reachable newBlurBufferPool
| reach_step : forall p q, reachable p -> step p q -> reachable q.

(** Buffers a call of [get] can receive from the pool in state [p]. *)
Definition obtainable (p : blurBufferPool) (b : blurBuffer) : Prop :=
  b = newBuffer \/ In b (free p).

(** The two slices of a pooled buffer always share one capacity, which
    is what lets [get] test [cap(buf.tmp)] alone. *)
Definition balanced (b : blurBuffer) : Prop :=
  cap (tmp b) = cap (hPass b).

Definition pool_ok (p : blurBufferPool) : Prop :=
  Forall balanced (free p) /\ Forall balanced (held p).

End Buffer.

(** ** Floating point *)

(** [float64]: binary64. *)
Module F64.

Definition prec : Z := 53.
Definition emax : Z := 1024.

Definition zero : spec_float := S754_zero false.

(** [float64(z)] for an integer [z], rounded to nearest even. *)
Definition of_Z (z : Z) : spec_float := binary_normalize prec emax z 0 false.

Definition add : spec_float -> spec_float -> spec_float := SFadd prec emax.
Definition sub : spec_float -> spec_float -> spec_float := SFsub prec emax.
Definition mul : spec_float -> spec_float -> spec_float := SFmul prec emax.
Definition div : spec_float -> spec_float -> spec_float := SFdiv prec emax.
Definition neg : spec_float -> spec_float := SFopp.

(** [x < y] and [x > y]; false as soon as one side is NaN. *)
Definition ltb (x y : spec_float) : bool := SFltb x y.
Definition gtb (x y : spec_float) : bool := SFltb y x.

(** The decimal literal [n / 10^k], for [|n|] and [10^k] below 2^53:
    the nearest binary64 value. *)
Definition dec (n : Z) (k : Z) : spec_float := div (of_Z n) (of_Z (10 ^ k)).

(** The exact integer part (toward zero) of a finite value. *)
Definition trunc (f : spec_float) : option Z :=
  match f with
  | S754_zero _ => Some 0
  | S754_finite s m e => Some (cond_Zopp s (Z.shiftl (Zpos m) e))
  | _ => None
  end.

(** [int(f)]: truncation toward zero.  For NaN, an infinity or a value
    outside the 64-bit range Go leaves the result to the
    implementation; amd64 yields the smallest integer. *)
Definition to_int (f : spec_float) : Z :=
  match trunc f with
  | Some z =>
      if (GoInt.min_int <=? z) && (z <=? GoInt.max_int) then z
      else GoInt.min_int
  | None => GoInt.min_int
  end.

End F64.

(** [float32]: binary32. *)
Module F32.

Definition prec : Z := 24.
Definition emax : Z := 128.

Definition zero : spec_float := S754_zero false.

(** [float32(z)] for an integer [z]. *)
Definition of_Z (z : Z) : spec_float := binary_normalize prec emax z 0 false.

Definition add : spec_float -> spec_float -> spec_float := SFadd prec emax.
Definition sub : spec_float -> spec_float -> spec_float := SFsub prec emax.
Definition mul : spec_float -> spec_float -> spec_float := SFmul prec emax.
Definition div : spec_float -> spec_float -> spec_float := SFdiv prec emax.
Definition neg : spec_float -> spec_float := SFopp.

Definition ltb (x y : spec_float) : bool := SFltb x y.
Definition leb (x y : spec_float) : bool := SFleb x y.

(** The decimal literal [n / 10^k] as a [float32]. *)
Definition dec (n : Z) (k : Z) : spec_float := div (of_Z n) (of_Z (10 ^ k)).

(** [float32(x)] for a [float64] [x]: rounded to nearest even. *)
Definition of_f64 (x : spec_float) : spec_float :=
  match x with
  | S754_finite s m e => binary_normalize prec emax (cond_Zopp s (Zpos m)) e s
  | _ => x
  end.

(** [float64(x)] for a [float32] [x]: exact. *)
Definition to_f64 (x : spec_float) : spec_float :=
  match x with
  | S754_finite s m e =>
      binary_normalize F64.prec F64.emax (cond_Zopp s (Zpos m)) e s
  | _ => x
  end.

(** [int(x)]. *)
Definition to_int (x : spec_float) : Z := F64.to_int x.

End F32.

(** ** [math.Exp]

    The function belongs to Go's standard library, not to the package.
    The package's definitions below take it as a parameter; [Exp] is the
    library's portable implementation (argument reduction by multiples
    of ln 2 and a rational approximation on the remainder), used where a
    concrete table is computed. *)

Module GoMath.
Import F64.

Definition fin (s : bool) (m : positive) (e : Z) : spec_float := S754_finite s m e.

Definition Ln2Hi : spec_float := fin false 6243314766446592 (-53).
Definition Ln2Lo : spec_float := fin false 7382048951581814 (-85).
Definition Log2e : spec_float := fin false 6497320848556798 (-52).
Definition Overflow : spec_float := fin false 6243314768165359 (-43).
Definition Underflow : spec_float := fin true 6554261109157969 (-43).
Definition NearZero : spec_float := div (of_Z 1) (of_Z (2 ^ 28)).
Definition P1 : spec_float := fin false 6004799503160661 (-55).
Definition P2 : spec_float := fin true 6405119469862291 (-61).
Definition P3 : spec_float := fin false 4880090809097772 (-66).
Definition P4 : spec_float := fin true 7807914560613361 (-72).
Definition P5 : spec_float := fin false 6253375523824848 (-77).

Definition Ldexp (y : spec_float) (k : Z) : spec_float := SFldexp prec emax y k.

Definition expmulti (hi lo : spec_float) (k : Z) : spec_float :=
  let r := sub hi lo in
  let t := mul r r in
  let c := sub r (mul t (add P1 (mul t (add P2 (mul t (add P3
               (mul t (add P4 (mul t P5))))))))) in
  let y := sub (of_Z 1) (sub (sub lo (div (mul r c) (sub (of_Z 2) c))) hi) in
  Ldexp y k.

Definition Exp (x : spec_float) : spec_float :=
  match x with
  | S754_nan => x
  | S754_infinity false => x
  | S754_infinity true => zero
  | _ =>
      if gtb x Overflow then S754_infinity false
      else if ltb x Underflow then zero
      else if ltb (neg NearZero) x && ltb x NearZero then add (of_Z 1) x
      else
        let half := div (of_Z 1) (of_Z 2) in
        let k :=
          if ltb x zero then to_int (sub (mul Log2e x) half)
          else if gtb x zero then to_int (add (mul Log2e x) half)
          else 0 in
        let hi := sub x (mul (of_Z k) Ln2Hi) in
        let lo := mul (of_Z k) Ln2Lo in
        expmulti hi lo k
  end.

End GoMath.

(** ** Images (Go's image package, as far as the code uses it) *)

Module Image.
Export GoSlice.

Record Point : Type := Pt { X : Z ; Y : Z }.
Record Rectangle : Type := mkRect { Min : Point ; Max : Point }.

Definition Dx (r : Rectangle) : Z := GoInt.sub (X (Max r)) (X (Min r)).
Definition Dy (r : Rectangle) : Z := GoInt.sub (Y (Max r)) (Y (Min r)).

(** [image.Rect(x0, y0, x1, y1)] orders the corners. *)
Definition Rect (x0 y0 x1 y1 : Z) : Rectangle :=
  let '(x0, x1) := if x1 <? x0 then (x1, x0) else (x0, x1) in
  let '(y0, y1) := if y1 <? y0 then (y1, y0) else (y0, y1) in
  mkRect (Pt x0 y0) (Pt x1 y1).

Definition ZR : Rectangle := mkRect (Pt 0 0) (Pt 0 0).

Definition Empty (r : Rectangle) : bool :=
  (X (Max r) <=? X (Min r)) || (Y (Max r) <=? Y (Min r)).

(** [Point{x, y}.In(r)]. *)
Definition PtIn (x y : Z) (r : Rectangle) : bool :=
  (X (Min r) <=? x) && (x <? X (Max r)) && (Y (Min r) <=? y) && (y <? Y (Max r)).

Definition Intersect (r s : Rectangle) : Rectangle :=
  let r' := mkRect (Pt (Z.max (X (Min r)) (X (Min s))) (Z.max (Y (Min r)) (Y (Min s))))
                   (Pt (Z.min (X (Max r)) (X (Max s))) (Z.min (Y (Max r)) (Y (Max s)))) in
  if Empty r' then ZR else r'.

(** [r.Sub(p)]. *)
Definition Sub (r : Rectangle) (p : Point) : Rectangle :=
  mkRect (Pt (GoInt.sub (X (Min r)) (X p)) (GoInt.sub (Y (Min r)) (Y p)))
         (Pt (GoInt.sub (X (Max r)) (X p)) (GoInt.sub (Y (Max r)) (Y p))).

(** The points of a rectangle in row-major order, as the nested
    [for y ... { for x ... }] loops visit them. *)
Definition coords (r : Rectangle) : list (Z * Z) :=
  flat_map (fun y => map (fun x => (x, y)) (range (X (Min r)) (X (Max r))))
           (range (Y (Min r)) (Y (Max r))).

(** [*image.Gray]. *)
Record Gray : Type := mkGray { Pix : list Z ; Stride : Z ; Bounds : Rectangle }.

(** [image.NewGray(r)]: a zeroed buffer of [Dx * Dy] bytes. *)
Definition NewGray (r : Rectangle) : Gray :=
  mkGray (repeat 0 (Z.to_nat (GoInt.mul (Dx r) (Dy r)))) (Dx r) r.

Definition PixOffset (p : Gray) (x y : Z) : Z :=
  GoInt.add (GoInt.mul (GoInt.sub y (Y (Min (Bounds p)))) (Stride p))
            (GoInt.sub x (X (Min (Bounds p)))).

(** [p.GrayAt(x, y).Y]: 0 outside the bounds. *)
Definition GrayAt (p : Gray) (x y : Z) : option Z :=
  if PtIn x y (Bounds p) then index (Pix p) (PixOffset p x y) else Some 0.

(** [p.SetGray(x, y, color.Gray{Y: v})]: nothing outside the bounds. *)
Definition SetGray (p : Gray) (x y : Z) (v : Z) : option Gray :=
  if PtIn x y (Bounds p) then
    option_map (fun pix => mkGray pix (Stride p) (Bounds p))
               (store (Pix p) (PixOffset p x y) v)
  else Some p.

(** Every point of the bounds has its byte in [Pix], as in any image
    made by [NewGray]; reading such a mask never panics. *)
Definition Gray_ok (p : Gray) : Prop :=
  forallb (fun '(x, y) => match GrayAt p x y with Some _ => true | None => false end)
          (coords (Bounds p)) = true.

(** Several [SetGray] calls with one value, for building masks. *)
Fixpoint paint (p : Gray) (pts : list (Z * Z)) (v : Z) : option Gray :=
  match pts with
  | [] => Some p
  | (x, y) :: rest =>
      match SetGray p x y v with
      | Some p' => paint p' rest v
      | None => None
      end
  end.

End Image.

(** ** Background-distance mask (mask.go) *)

Module Mask.
Import Image.

(** The fields [Pix], [Stride], [Rect] of an [*image.RGBA] or an
    [*image.NRGBA]: four bytes per pixel. *)
Record Packed : Type := mkPacked {
  pPix : list Z ; pStride : Z ; pBounds : Rectangle
}.

(** An [image.Image]: one of the two packed types, or any other
    implementation, seen through [Bounds()] and [At(x, y).RGBA()]. *)
Inductive image : Type :=
| ImgRGBA : Packed -> image
| ImgNRGBA : Packed -> image
| ImgOther : Rectangle -> (Z -> Z -> option (Z * Z * Z * Z)) -> image.

(** [(p *RGBA).PixOffset]. *)
Definition PixOffset4 (p : Packed) (x y : Z) : Z :=
  GoInt.add (GoInt.mul (GoInt.sub y (Y (Min (pBounds p)))) (pStride p))
            (GoInt.mul (GoInt.sub x (X (Min (pBounds p)))) 4).

(** The four bytes of a pixel; the zero colour outside the bounds. *)
Definition bytesAt (p : Packed) (x y : Z) : option (Z * Z * Z * Z) :=
  if PtIn x y (pBounds p) then
    let i := PixOffset4 p x y in
    match index (pPix p) i, index (pPix p) (i + 1),
          index (pPix p) (i + 2), index (pPix p) (i + 3) with
    | Some r, Some g, Some b, Some a => Some (r, g, b, a)
    | _, _, _, _ => None
    end
  else Some (0, 0, 0, 0).

(** [color.RGBA.RGBA()]: each byte [c] becomes [c | c<<8]. *)
Definition widen (c : Z) : Z := Z.lor c (Z.shiftl c 8).

Definition RGBA_At (p : Packed) (x y : Z) : option (Z * Z * Z * Z) :=
  match bytesAt p x y with
  | Some (r, g, b, a) => Some (widen r, widen g, widen b, widen a)
  | None => None
  end.

(** [color.NRGBA.RGBA()]: widened, then multiplied by alpha over 0xff
    in [uint32]. *)
Definition premul (c a : Z) : Z := ((widen c * a) mod 2 ^ 32) / 255.

Definition NRGBA_At (p : Packed) (x y : Z) : option (Z * Z * Z * Z) :=
  match bytesAt p x y with
  | Some (r, g, b, a) => Some (premul r a, premul g a, premul b a, widen a)
  | None => None
  end.

Definition Bounds_of (img : image) : Rectangle :=
  match img with
  | ImgRGBA p | ImgNRGBA p => pBounds p
  | ImgOther r _ => r
  end.

(** [img.At(x, y).RGBA()]. *)
Definition At (img : image) : Z -> Z -> option (Z * Z * Z * Z) :=
  match img with
  | ImgRGBA p => RGBA_At p
  | ImgNRGBA p => NRGBA_At p
  | ImgOther _ f => f
  end.

(** [float64(dr*dr + dg*dg + db*db)] on [int64]. *)
Definition distSq (dr dg db : Z) : spec_float :=
  F64.of_Z (GoInt.add (GoInt.add (GoInt.mul dr dr) (GoInt.mul dg dg))
                      (GoInt.mul db db)).

(** [tolerance * tolerance * 257.0 * 257.0]. *)
Definition toleranceSq (tolerance : spec_float) : spec_float :=
  F64.mul (F64.mul (F64.mul tolerance tolerance) (F64.of_Z 257)) (F64.of_Z 257).

(** The packed fast path [maskFromBackground]. *)
Definition maskFromBackground (srcPix : list Z) (srcStride : Z)
    (bounds : Rectangle) (bgR bgG bgB : Z) (tolSq : spec_float)
    : option Gray :=
  let w := Dx bounds in
  let h := Dy bounds in
  let mask := NewGray bounds in
  let dstStride := Stride mask in
  let pixel (y : Z) (acc : option (list Z)) (x : Z) : option (list Z) :=
    match acc with
    | None => None
    | Some dstPix =>
        let i := GoInt.mul x 4 in
        let src k := if k <? GoInt.mul w 4
                     then index srcPix (GoInt.add (GoInt.mul y srcStride) k)
                     else None in
        match src i, src (GoInt.add i 1), src (GoInt.add i 2) with
        | Some r8, Some g8, Some b8 =>
            let r := Z.shiftl r8 8 in
            let g := Z.shiftl g8 8 in
            let b := Z.shiftl b8 8 in
            let dr := GoInt.sub r bgR in
            let dg := GoInt.sub g bgG in
            let db := GoInt.sub b bgB in
            if F64.gtb (distSq dr dg db) tolSq
            then store dstPix (GoInt.add (GoInt.mul y dstStride) x) 255
            else Some dstPix
        | _, _, _ => None
        end
    end in
  let row (acc : option (list Z)) (y : Z) : option (list Z) :=
    match acc with
    | None => None
    | Some dstPix =>
        if slice_ok srcPix (GoInt.mul y srcStride)
                    (GoInt.add (GoInt.mul y srcStride) (GoInt.mul w 4))
           && slice_ok dstPix (GoInt.mul y dstStride)
                       (GoInt.add (GoInt.mul y dstStride) w)
        then fold_left (pixel y) (range 0 w) (Some dstPix)
        else None
    end in
  option_map (fun pix => mkGray pix (Stride mask) bounds)
             (fold_left row (range 0 h) (Some (Pix mask))).

(** The generic per-pixel loop of [MaskFromBackground], over
    [img.At(x, y).RGBA()]. *)
Definition genericFromBackground (bounds : Rectangle)
    (at_rgba : Z -> Z -> option (Z * Z * Z * Z))
    (bgR bgG bgB : Z) (tolSq : spec_float) : option Gray :=
  let pixel (acc : option Gray) (p : Z * Z) : option Gray :=
    match acc with
    | None => None
    | Some mask =>
        match at_rgba (fst p) (snd p) with
        | None => None
        | Some (r, g, b, _) =>
            let dr := GoInt.sub r bgR in
            let dg := GoInt.sub g bgG in
            let db := GoInt.sub b bgB in
            if F64.gtb (distSq dr dg db) tolSq
            then SetGray mask (fst p) (snd p) 255
            else Some mask
        end
    end in
  fold_left pixel (coords bounds) (Some (NewGray bounds)).

(** [MaskFromBackground(img, bg, tolerance)], with [bg.RGBA()] given
    as [(bgR, bgG, bgB)]. *)
Definition MaskFromBackground (img : image) (bgR bgG bgB : Z)
    (tolerance : spec_float) : option Gray :=
  let bounds := Bounds_of img in
  let tolSq := toleranceSq tolerance in
  match img with
  | ImgRGBA src | ImgNRGBA src =>
      maskFromBackground (pPix src) (pStride src) bounds bgR bgG bgB tolSq
  | ImgOther _ _ =>
      genericFromBackground bounds (At img) bgR bgG bgB tolSq
  end.

End Mask.

(** ** Sigmoid table, Otsu threshold and compositor (rmbg.go) *)

Module Rmbg.
Import GoSlice.

Definition c1 : spec_float := F32.of_Z 1.
Definition c6 : spec_float := F32.of_Z 6.
Definition c12 : spec_float := F32.of_Z 12.
Definition c255 : spec_float := F32.of_Z 255.

Section WithExp.
(** Go's [math.Exp]. *)
Variable math_Exp : spec_float -> spec_float.

(** The value [init] stores at index [i]. *)
Definition sigmoidAt (i : Z) : spec_float :=
  let v := F32.sub (F32.mul (F32.div (F32.of_Z i) c255) c12) c6 in
  F32.div c1 (F32.add c1 (F32.of_f64 (math_Exp (F32.to_f64 (F32.neg v))))).

(** The loop [for i := range 255] of [init], run on the zeroed
    array [var sigmoidLUT [256]float32]. *)
Definition init (lut : list spec_float) : list spec_float :=
  fold_left (fun l i => upd l i (sigmoidAt i)) (range 0 255) lut.

Definition sigmoidLUT : list spec_float := init (repeat F32.zero 256).

(** [int((v+6.0)/12.0*255.0)]. *)
Definition lutIndex (v : spec_float) : Z :=
  F32.to_int (F32.mul (F32.div (F32.add v c6) c12) c255).

(** The histogram bin of a table value: [int(s*255.0)] clamped. *)
Definition binOf (s : spec_float) : Z :=
  let val := F32.to_int (F32.mul s c255) in
  let val := Z.max val 0 in
  Z.min val 255.

(** One iteration of the histogram loop. *)
Definition count (lut : list spec_float) (acc : option (list Z))
    (v : spec_float) : option (list Z) :=
  match acc with
  | None => None
  | Some hist =>
      match index lut (lutIndex v) with
      | None => None
      | Some s =>
          let val := binOf s in
          Some (upd hist val (GoInt.add (at_ hist val) 1))
      end
  end.

Definition histogram (lut : list spec_float) (data : list spec_float)
    : option (list Z) :=
  fold_left (count lut) data (Some (repeat 0 256)).

(** The variables of the search loop; [stopped] records the [break]. *)
Record search : Type := mkSearch {
  sumB : Z ; wB : Z ; wF : Z ;
  varMax : spec_float ; threshold : Z ; stopped : bool
}.

Definition search_init : search := mkSearch 0 0 0 F64.zero 0 false.

(** One iteration of [for t := range 255] of the search. *)
Definition try_split (hist : list Z) (total sum : Z)
    (st : search) (t : Z) : search :=
  if stopped st then st
  else
    let wB' := GoInt.add (wB st) (at_ hist t) in
    if wB' =? 0 then
      mkSearch (sumB st) wB' (wF st) (varMax st) (threshold st) false
    else
      let wF' := GoInt.sub total wB' in
      if wF' =? 0 then
        mkSearch (sumB st) wB' wF' (varMax st) (threshold st) true
      else
        let sumB' := GoInt.add (sumB st) (GoInt.mul t (at_ hist t)) in
        let mB := F64.div (F64.of_Z sumB') (F64.of_Z wB') in
        let mF := F64.div (F64.of_Z (GoInt.sub sum sumB')) (F64.of_Z wF') in
        let d := F64.sub mB mF in
        let varBetween :=
          F64.mul (F64.mul (F64.mul (F64.of_Z wB') (F64.of_Z wF')) d) d in
        if F64.gtb varBetween (varMax st)
        then mkSearch sumB' wB' wF' varBetween t false
        else mkSearch sumB' wB' wF' (varMax st) (threshold st) false.

(** The selected split of a histogram. *)
Definition selectSplit (hist : list Z) (total : Z) : Z :=
  let sum := fold_left (fun s t => GoInt.add s (GoInt.mul t (at_ hist t)))
                       (range 0 255) 0 in
  threshold (fold_left (try_split hist total sum) (range 0 255) search_init).

Definition otsuThreshold (data : list spec_float) : option spec_float :=
  match histogram sigmoidLUT data with
  | None => None
  | Some hist =>
      let total := Z.of_nat (length data) in
      Some (F32.div (F32.of_Z (selectSplit hist total)) c255)
  end.

End WithExp.

(** [clamp]. *)
Definition clamp (v lo hi : Z) : Z :=
  if v <? lo then lo else if hi <? v then hi else v.

(** One iteration of the loop [for i := range runtime.NumCPU()] of
    [blendParallel]: the units of work it starts, each given by the rows
    [startY, endY) it composites.  The body calls [wg.Go] twice. *)
Definition spawned (chunk dy i : Z) : list (Z * Z) :=
  let startY := GoInt.mul i chunk in
  let endY := Z.min (GoInt.add startY chunk) dy in
  if endY <=? startY then [] else [(startY, endY); (startY, endY)].

(** The units of work [blendParallel] starts, in order.  [numCPU] is
    [runtime.NumCPU()], [dy] is [src.Bounds().Dy()]. *)
Definition blendParallel (numCPU dy : Z) : option (list (Z * Z)) :=
  match GoInt.div (GoInt.sub (GoInt.add dy numCPU) 1) numCPU with
  | None => None
  | Some chunk => Some (flat_map (spawned chunk dy) (range 0 numCPU))
  end.

(** How many of the started units write destination row [y]. *)
Definition writers (units : list (Z * Z)) (y : Z) : nat :=
  length (filter (fun u => (fst u <=? y) && (y <? snd u)) units).

End Rmbg.

(** What a call returns: a panic, an error value, or a result. *)
Inductive outcome (A : Type) : Type :=
| Panic : outcome A
| Error : String.string -> outcome A
| Return : A -> outcome A.
Arguments Panic {A}.
Arguments Error {A} _.
Arguments Return {A} _.

(** ** Object bounds and crop geometry (crop.go) *)

Module Crop.
Import Image.

Record CropConfig : Type := mkConfig {
  Margin : Z ;
  MarginPercent : spec_float ;
  MinThreshold : Z ;
  SquareCrop : bool
}.

Record objectBounds : Type := mkBounds {
  MinX : Z ; MinY : Z ; MaxX : Z ; MaxY : Z ;
  Width : Z ; Height : Z ;
  CenterX : Z ; CenterY : Z
}.

(** The zero value [objectBounds{}]. *)
Definition noBounds : objectBounds := mkBounds 0 0 0 0 0 0 0 0.

(** The running values of the scan in [detectObjectBounds]. *)
Record scan : Type := mkScan {
  minX : Z ; minY : Z ; maxX : Z ; maxY : Z ; foundPixel : bool
}.

Definition scan_init (bounds : Rectangle) : scan :=
  mkScan (X (Max bounds)) (Y (Max bounds)) 0 0 false.

(** The body of the [if] for a pixel at or above the threshold. *)
Definition mark (s : scan) (p : Z * Z) : scan :=
  let '(x, y) := p in
  mkScan (Z.min (minX s) x) (Z.min (minY s) y)
         (Z.max (maxX s) x) (Z.max (maxY s) y) true.

(** One iteration of the inner loop. *)
Definition visit (mask : Gray) (minThreshold : Z)
    (acc : option scan) (p : Z * Z) : option scan :=
  match acc with
  | None => None
  | Some s =>
      match GrayAt mask (fst p) (snd p) with
      | None => None
      | Some v => Some (if minThreshold <=? v then mark s p else s)
      end
  end.

Definition detectObjectBounds (mask : Gray) (minThreshold : Z)
    : option (objectBounds * bool) :=
  let bounds := Bounds mask in
  match fold_left (visit mask minThreshold) (coords bounds)
                  (Some (scan_init bounds)) with
  | None => None
  | Some s =>
      if negb (foundPixel s) then Some (noBounds, false)
      else
        Some (mkBounds (minX s) (minY s) (maxX s) (maxY s)
                (GoInt.sub (maxX s) (minX s))
                (GoInt.sub (maxY s) (minY s))
                (GoInt.add (minX s) (GoInt.half (GoInt.sub (maxX s) (minX s))))
                (GoInt.add (minY s) (GoInt.half (GoInt.sub (maxY s) (minY s)))),
              true)
  end.

(** [int(float64(v) * scale)]. *)
Definition scaleCoord (v : Z) (scale : spec_float) : Z :=
  F64.to_int (F64.mul (F64.of_Z v) scale).

(** The margin computed by [crop] from the scaled width and height. *)
Definition cropMargin (config : CropConfig) (width height : Z) : Z :=
  let margin := Margin config in
  if F64.gtb (MarginPercent config) F64.zero then
    let marginX := F64.to_int (F64.mul (F64.of_Z width) (MarginPercent config)) in
    let marginY := F64.to_int (F64.mul (F64.of_Z height) (MarginPercent config)) in
    Z.max margin (Z.max marginX marginY)
  else margin.

(** The block [if config.SquareCrop { ... }] of [crop]: the shorter axis
    grows by [diff/2] on each side and is clipped again. *)
Definition squareCrop (origW origH : Z) (r : Z * Z * Z * Z) : Z * Z * Z * Z :=
  let '(cropMinX, cropMinY, cropMaxX, cropMaxY) := r in
  let cropW := GoInt.sub cropMaxX cropMinX in
  let cropH := GoInt.sub cropMaxY cropMinY in
  if cropH <? cropW then
    let diff := GoInt.sub cropW cropH in
    (cropMinX, Z.max 0 (GoInt.sub cropMinY (GoInt.half diff)),
     cropMaxX, Z.min origH (GoInt.add cropMaxY (GoInt.half diff)))
  else if cropW <? cropH then
    let diff := GoInt.sub cropH cropW in
    (Z.max 0 (GoInt.sub cropMinX (GoInt.half diff)), cropMinY,
     Z.min origW (GoInt.add cropMaxX (GoInt.half diff)), cropMaxY)
  else (cropMinX, cropMinY, cropMaxX, cropMaxY).

(** The rectangle [crop] hands to [imaging.Crop], from the detected
    bounds on: scaling, margin, clipping and the square adjustment. *)
Definition cropRect (bounds : Rectangle) (objBounds : objectBounds)
    (config : CropConfig) (scaleX scaleY : spec_float) : Rectangle :=
  let origW := Dx bounds in
  let origH := Dy bounds in
  let sMinX := scaleCoord (MinX objBounds) scaleX in
  let sMinY := scaleCoord (MinY objBounds) scaleY in
  let sMaxX := scaleCoord (MaxX objBounds) scaleX in
  let sMaxY := scaleCoord (MaxY objBounds) scaleY in
  let sWidth := GoInt.sub sMaxX sMinX in
  let sHeight := GoInt.sub sMaxY sMinY in
  let margin := cropMargin config sWidth sHeight in
  let cropMinX := Z.max 0 (GoInt.sub sMinX margin) in
  let cropMinY := Z.max 0 (GoInt.sub sMinY margin) in
  let cropMaxX := Z.min origW (GoInt.add sMaxX margin) in
  let cropMaxY := Z.min origH (GoInt.add sMaxY margin) in
  let '(cropMinX, cropMinY, cropMaxX, cropMaxY) :=
    if SquareCrop config
    then squareCrop origW origH (cropMinX, cropMinY, cropMaxX, cropMaxY)
    else (cropMinX, cropMinY, cropMaxX, cropMaxY) in
  Rect cropMinX cropMinY cropMaxX cropMaxY.

(** The bounds of the image that [imaging.Crop(img, rect)] of the
    imaging library returns: the part of [rect] inside the image, moved
    to the origin, or the empty image when nothing is left. *)
Definition imaging_Crop (bounds rect : Rectangle) : Rectangle :=
  let r := Sub (Intersect rect bounds) (Min bounds) in
  if Empty r then ZR else Rect 0 0 (Dx r) (Dy r).

(** [crop]: the image is represented by its bounds, the result by the
    bounds of the cropped image; [maskImg = None] is the nil mask. *)
Definition crop (bounds : Rectangle) (maskImg : option Gray)
    (config : CropConfig) (scaleX scaleY : spec_float) : outcome Rectangle :=
  match maskImg with
  | None => Error "mask image is nil"
  | Some mask =>
      match detectObjectBounds mask (MinThreshold config) with
      | None => Panic
      | Some (_, false) => Error "no object detected in image"
      | Some (objBounds, true) =>
          Return (imaging_Crop bounds
                    (cropRect bounds objBounds config scaleX scaleY))
      end
  end.

(** The mask pixels at or above the threshold, in scan order. *)
Definition qualifying (mask : Gray) (minThreshold : Z) : list (Z * Z) :=
  filter (fun p => match GrayAt mask (fst p) (snd p) with
                   | Some v => minThreshold <=? v
                   | None => false
                   end)
         (coords (Bounds mask)).

(** The scan values while only points of a rectangle in the
    non-negative quadrant are marked. *)
Definition scan_inv (r : Rectangle) (s : scan) : Prop :=
  if foundPixel s
  then 0 <= minX s <= maxX s /\ maxX s < X (Max r)
       /\ 0 <= minY s <= maxY s /\ maxY s < Y (Max r)
  else s = scan_init r.

End Crop.

(** ** Concrete inputs, taken from the package's tests where they exist *)

Module Fixture.
Import Image Crop.

Definition mask_of (o : option Gray) : Gray :=
  match o with Some m => m | None => NewGray ZR end.

(** The 100x100 source image of [TestCrop]. *)
Definition img100 : Rectangle := Rect 0 0 100 100.

Definition emptyMask : Gray := NewGray (Rect 0 0 10 10).

(** [TestDetectObjectBounds/SinglePixel]. *)
Definition singlePixel : Gray := mask_of (SetGray emptyMask 5 5 255).

(** [TestCrop]: the 10x10 mask with the pixels 4..6 x 4..6 set. *)
Definition testMask : Gray :=
  mask_of (paint emptyMask
             (flat_map (fun y => map (fun x => (x, y)) (range 4 7)) (range 4 7))
             255).

(** [TestCrop/SquareCrop]. *)
Definition rectMask : Gray := mask_of (paint emptyMask [(4, 4); (5, 4)] 255).

(** An object three columns wide and two rows high. *)
Definition oddMask : Gray :=
  mask_of (paint emptyMask [(4, 4); (7, 4); (4, 6)] 255).

(** A mask whose bounds start left of and above the origin, with one
    pixel set at (-3, -3). *)
Definition shiftedMask : Gray :=
  mask_of (SetGray (NewGray (Rect (-5) (-5) 5 5)) (-3) (-3) 255).

Definition one : spec_float := F64.of_Z 1.
Definition ten : spec_float := F64.of_Z 10.

(** [TestBlurBufferPool/Resizing]: the buffer after the borrows of
    size 100 and of size 200. *)
Definition buf100 : Buffer.blurBuffer :=
  Buffer.mkBuf (Buffer.mkSlice (repeat 0 100%nat) 100)
               (Buffer.mkSlice (repeat 0 100%nat) 100).
Definition buf200 : Buffer.blurBuffer :=
  Buffer.mkBuf (Buffer.mkSlice (repeat 0 200%nat) 200)
               (Buffer.mkSlice (repeat 0 200%nat) 200).

(** A 1x1 [*image.RGBA] holding one opaque white pixel. *)
Definition white1 : Mask.Packed := Mask.mkPacked [255; 255; 255; 255] 4 (Rect 0 0 1 1).

(** Logit values. *)
Definition logit (n k : Z) : spec_float := F32.dec n k.

End Fixture.

(** ** The specification's sentences that the code does not satisfy,
       stated as written *)

Module Spec.
Import Image Crop.

(** "For every mask in which exactly one pixel is >= minThreshold,
    detectObjectBounds reports the object as found with MinX = MaxX,
    MinY = MaxY, Width = 0 and Height = 0." *)
Definition single_pixel_claim : Prop :=
  forall (mask : Gray) (thr x0 y0 v0 : Z),
    Gray_ok mask ->
    PtIn x0 y0 (Bounds mask) = true ->
    GrayAt mask x0 y0 = Some v0 -> thr <= v0 ->
    (forall x y v, PtIn x y (Bounds mask) = true ->
                   GrayAt mask x y = Some v -> thr <= v ->
                   (x, y) = (x0, y0)) ->
    exists b, detectObjectBounds mask thr = Some (b, true)
      /\ MinX b = MaxX b /\ MinY b = MaxY b
      /\ Width b = 0 /\ Height b = 0.


(** [int(math.Round(f))]: the nearest integer, halves away from zero. *)
Definition round (f : spec_float) : Z :=
  match f with
  | S754_zero _ => 0
  | S754_finite s m e =>
      cond_Zopp s (if 0 <=? e then Z.shiftl (Zpos m) e
                   else (Zpos m + 2 ^ (- e - 1)) / 2 ^ (- e))
  | _ => GoInt.min_int
  end.

(** "a margin equal to the fixed Margin when MarginPercent is 0, and
    otherwise the maximum of the fixed Margin and the larger of
    round(MarginPercent x scaled width) and
    round(MarginPercent x scaled height)". *)
Definition stated_margin (config : CropConfig) (width height : Z) : Z :=
  if SFeqb (MarginPercent config) F64.zero then Margin config
  else Z.max (Margin config)
             (Z.max (round (F64.mul (MarginPercent config) (F64.of_Z width)))
                    (round (F64.mul (MarginPercent config) (F64.of_Z height)))).

(** "expands the scaled object bounds on all four sides by a margin,
    then clips to the image". *)
Definition expanded (bounds : Rectangle) (sMinX sMinY sMaxX sMaxY m : Z)
    : Rectangle :=
  Rect (Z.max 0 (GoInt.sub sMinX m)) (Z.max 0 (GoInt.sub sMinY m))
       (Z.min (Dx bounds) (GoInt.add sMaxX m))
       (Z.min (Dy bounds) (GoInt.add sMaxY m)).

Definition margin_claim : Prop :=
  forall (bounds : Rectangle) (mask : Gray) (config : CropConfig)
         (scaleX scaleY : spec_float),
    Gray_ok mask -> SquareCrop config = false ->
    (exists x y v, PtIn x y (Bounds mask) = true
                   /\ GrayAt mask x y = Some v /\ MinThreshold config <= v) ->
    exists ob, detectObjectBounds mask (MinThreshold config) = Some (ob, true)
      /\ let sMinX := scaleCoord (MinX ob) scaleX in
         let sMinY := scaleCoord (MinY ob) scaleY in
         let sMaxX := scaleCoord (MaxX ob) scaleX in
         let sMaxY := scaleCoord (MaxY ob) scaleY in
         let m := stated_margin config (GoInt.sub sMaxX sMinX)
                                (GoInt.sub sMaxY sMinY) in
         crop bounds (Some mask) config scaleX scaleY
         = Return (imaging_Crop bounds
                     (expanded bounds sMinX sMinY sMaxX sMaxY m)).

End Spec.

(** ** Uniform-background detection (mask.go) *)

Module Background.
Import Image.

(** The six sample points of [detectUniformBackground]: the four
    corners, the middle of the top edge and the middle of the right
    edge. *)
Definition samples (bounds : Rectangle) : list (Z * Z) :=
  let minX := X (Min bounds) in
  let minY := Y (Min bounds) in
  let maxX := X (Max bounds) in
  let maxY := Y (Max bounds) in
  [ (minX, minY);
    (GoInt.sub maxX 1, minY);
    (minX, GoInt.sub maxY 1);
    (GoInt.sub maxX 1, GoInt.sub maxY 1);
    (GoInt.add minX (GoInt.half (Dx bounds)), minY);
    (GoInt.sub maxX 1, GoInt.add minY (GoInt.half (Dy bounds))) ].

(** [a / b] on [int64] for a non-zero constant [b]. *)
Definition quot64 (a b : Z) : Z := GoInt.wrap64 (Z.quot a b).

(** [uint8(v)] for an integer [v]: the low eight bits. *)
Definition uint8 (v : Z) : Z := v mod 256.

(** The first loop: the sampled colours, in order. *)
Fixpoint sampled (at_rgba : Z -> Z -> option (Z * Z * Z * Z))
    (pts : list (Z * Z)) : option (list (Z * Z * Z)) :=
  match pts with
  | [] => Some []
  | (x, y) :: rest =>
      match at_rgba x y with
      | None => None
      | Some (r, g, b, _) =>
          option_map (cons (r, g, b)) (sampled at_rgba rest)
      end
  end.

Definition sum64 (l : list Z) : Z := fold_left GoInt.add l 0.

(** The second loop: the summed squared deviations. *)
Definition variance (pixels : list (Z * Z * Z)) (rAvg gAvg bAvg : Z) : Z :=
  fold_left
    (fun acc p =>
       let '(r, g, b) := p in
       let dr := GoInt.sub r rAvg in
       let dg := GoInt.sub g gAvg in
       let db := GoInt.sub b bAvg in
       GoInt.add acc (GoInt.add (GoInt.add (GoInt.mul dr dr) (GoInt.mul dg dg))
                                (GoInt.mul db db)))
    pixels 0.

(** [detectUniformBackground]: the colour [color.RGBA{R, G, B, 255}]
    as its four bytes, and the verdict. *)
Definition detectUniformBackground (bounds : Rectangle)
    (at_rgba : Z -> Z -> option (Z * Z * Z * Z))
    : option ((Z * Z * Z * Z) * bool) :=
  match sampled at_rgba (samples bounds) with
  | None => None
  | Some pixels =>
      let n := Z.of_nat (length (samples bounds)) in
      let rAvg := quot64 (sum64 (map (fun p => fst (fst p)) pixels)) n in
      let gAvg := quot64 (sum64 (map (fun p => snd (fst p)) pixels)) n in
      let bAvg := quot64 (sum64 (map (fun p => snd p) pixels)) n in
      let isUniform := variance pixels rAvg gAvg bAvg <? GoInt.mul 200000000 n in
      Some ((uint8 (quot64 rAvg 257), uint8 (quot64 gAvg 257),
             uint8 (quot64 bAvg 257), 255), isUniform)
  end.

End Background.

(** ** One channel of the compositor (rmbg.go) *)

Module Blend.

(** [alpha*float64(c>>8) + (1-alpha)*255] with
    [alpha = float64(m) / 255.0], for the mask byte [m] and the 16-bit
    channel [c] of the source pixel; the multiplication and the addition
    are rounded separately. *)
Definition blendValue (m c : Z) : spec_float :=
  let alpha := F64.div (F64.of_Z m) (F64.of_Z 255) in
  F64.add (F64.mul alpha (F64.of_Z (Z.shiftr c 8)))
          (F64.mul (F64.sub (F64.of_Z 1) alpha) (F64.of_Z 255)).

(** [rOut], [gOut], [bOut]: the value converted by [uint8(...)]. *)
Definition blendChannel (m c : Z) : Z :=
  Background.uint8 (F64.to_int (blendValue m c)).

End Blend.

(** ** Alpha-channel mask (mask.go) *)

Module Alpha.
Import Image Mask.

(** The values [v = lo, lo + step, ...] below [hi] that a loop
    [for v := lo; v < hi; v += step] runs through.  With [step >= 1]
    and [hi + step] within the range of [int] the loop ends after at
    most [hi - lo] rounds, which is the number of rounds unfolded. *)
Fixpoint stride_from (rounds : nat) (v hi step : Z) : list Z :=
  match rounds with
  | O => []
  | S n => if v <? hi then v :: stride_from n (GoInt.add v step) hi step
           else []
  end.

Definition strided (lo hi step : Z) : list Z :=
  stride_from (Z.to_nat (hi - lo)) lo hi step.

(** The body of the two loops of [hasAlpha] over the points visited:
    [true] at the first point whose alpha is below [0xffff]. *)
Fixpoint firstTransparent (at_rgba : Z -> Z -> option (Z * Z * Z * Z))
    (pts : list (Z * Z)) : option bool :=
  match pts with
  | [] => Some false
  | (x, y) :: rest =>
      match at_rgba x y with
      | None => None
      | Some (_, _, _, a) =>
          if a <? 65535 then Some true else firstTransparent at_rgba rest
      end
  end.

(** The points [hasAlpha] visits, row by row. *)
Definition grid (bounds : Rectangle) : list (Z * Z) :=
  let dy := Dy bounds in
  let dx := Dx bounds in
  let stepY := Background.quot64 dy 5 in
  let stepX := Background.quot64 dx 5 in
  let stepY := if stepY <? 1 then 1 else stepY in
  let stepX := if stepX <? 1 then 1 else stepX in
  flat_map (fun y => map (fun x => (x, y))
                         (strided (X (Min bounds)) (X (Max bounds)) stepX))
           (strided (Y (Min bounds)) (Y (Max bounds)) stepY).

Definition hasAlpha (bounds : Rectangle)
    (at_rgba : Z -> Z -> option (Z * Z * Z * Z)) : option bool :=
  firstTransparent at_rgba (grid bounds).

(** The packed path [maskFromImage]. *)
Definition maskFromImage (srcPix : list Z) (srcStride : Z)
    (bounds : Rectangle) : option Gray :=
  let w := Dx bounds in
  let h := Dy bounds in
  let mask := NewGray bounds in
  let dstStride := Stride mask in
  let pixel (y : Z) (acc : option (list Z)) (x : Z) : option (list Z) :=
    match acc with
    | None => None
    | Some dstPix =>
        let k := GoInt.add (GoInt.mul x 4) 3 in
        let src := if k <? GoInt.mul w 4
                   then index srcPix (GoInt.add (GoInt.mul y srcStride) k)
                   else None in
        match src with
        | Some a => store dstPix (GoInt.add (GoInt.mul y dstStride) x) a
        | None => None
        end
    end in
  let row (acc : option (list Z)) (y : Z) : option (list Z) :=
    match acc with
    | None => None
    | Some dstPix =>
        if slice_ok srcPix (GoInt.mul y srcStride)
                    (GoInt.add (GoInt.mul y srcStride) (GoInt.mul w 4))
           && slice_ok dstPix (GoInt.mul y dstStride)
                       (GoInt.add (GoInt.mul y dstStride) w)
        then fold_left (pixel y) (range 0 w) (Some dstPix)
        else None
    end in
  option_map (fun pix => mkGray pix (Stride mask) bounds)
             (fold_left row (range 0 h) (Some (Pix mask))).

(** The generic per-pixel loop of [MaskFromAlpha]:
    [mask.SetGray(x, y, color.Gray{Y: uint8(a >> 8)})]. *)
Definition alphaGeneric (bounds : Rectangle)
    (at_rgba : Z -> Z -> option (Z * Z * Z * Z)) : option Gray :=
  let pixel (acc : option Gray) (p : Z * Z) : option Gray :=
    match acc with
    | None => None
    | Some mask =>
        match at_rgba (fst p) (snd p) with
        | None => None
        | Some (_, _, _, a) =>
            SetGray mask (fst p) (snd p) (Background.uint8 (Z.shiftr a 8))
        end
    end in
  fold_left pixel (coords bounds) (Some (NewGray bounds)).

(** [MaskFromAlpha(img)].  Here [ImgOther] stands for an image that is
    none of [*image.RGBA], [*image.NRGBA], [*image.Gray]. *)
Definition MaskFromAlpha (img : image) : option Gray :=
  let bounds := Bounds_of img in
  match img with
  | ImgRGBA src | ImgNRGBA src => maskFromImage (pPix src) (pStride src) bounds
  | ImgOther _ _ => alphaGeneric bounds (At img)
  end.

End Alpha.

(** ** Grayscale conversion (mask.go) *)

Module Grayscale.
Import Image Mask.

(** [(299*r + 587*g + 114*b) / 1000] on [uint32]. *)
Definition luma (r g b : Z) : Z :=
  ((299 * r + 587 * g + 114 * b) mod 2 ^ 32) / 1000.

(** The packed path [convertToGray]. *)
Definition convertToGray (srcPix : list Z) (srcStride : Z)
    (bounds : Rectangle) : option Gray :=
  let w := Dx bounds in
  let h := Dy bounds in
  let gray := NewGray bounds in
  let dstStride := Stride gray in
  let pixel (y : Z) (acc : option (list Z)) (x : Z) : option (list Z) :=
    match acc with
    | None => None
    | Some dstPix =>
        let i := GoInt.mul x 4 in
        let src k := if k <? GoInt.mul w 4
                     then index srcPix (GoInt.add (GoInt.mul y srcStride) k)
                     else None in
        match src i, src (GoInt.add i 1), src (GoInt.add i 2) with
        | Some r, Some g, Some b =>
            store dstPix (GoInt.add (GoInt.mul y dstStride) x)
                  (Background.uint8 (luma r g b))
        | _, _, _ => None
        end
    end in
  let row (acc : option (list Z)) (y : Z) : option (list Z) :=
    match acc with
    | None => None
    | Some dstPix =>
        if slice_ok srcPix (GoInt.mul y srcStride)
                    (GoInt.add (GoInt.mul y srcStride) (GoInt.mul w 4))
           && slice_ok dstPix (GoInt.mul y dstStride)
                       (GoInt.add (GoInt.mul y dstStride) w)
        then fold_left (pixel y) (range 0 w) (Some dstPix)
        else None
    end in
  option_map (fun pix => mkGray pix (Stride gray) bounds)
             (fold_left row (range 0 h) (Some (Pix gray))).

(** The generic loop of [convertToGrayscale], over
    [img.At(bounds.Min.X+x, bounds.Min.Y+y).RGBA()]. *)
Definition grayGeneric (bounds : Rectangle)
    (at_rgba : Z -> Z -> option (Z * Z * Z * Z)) : option Gray :=
  let w := Dx bounds in
  let h := Dy bounds in
  let pixel (y : Z) (acc : option Gray) (x : Z) : option Gray :=
    match acc with
    | None => None
    | Some gray =>
        let px := GoInt.add (X (Min bounds)) x in
        let py := GoInt.add (Y (Min bounds)) y in
        match at_rgba px py with
        | None => None
        | Some (r, g, b, _) =>
            let yVal := luma (Z.shiftr r 8) (Z.shiftr g 8) (Z.shiftr b 8) in
            SetGray gray px py (Background.uint8 yVal)
        end
    end in
  fold_left (fun acc y => fold_left (pixel y) (range 0 w) acc)
            (range 0 h) (Some (NewGray bounds)).

(** [convertToGrayscale(img)], [ImgOther] as for [MaskFromAlpha]. *)
Definition convertToGrayscale (img : image) : option Gray :=
  let bounds := Bounds_of img in
  match img with
  | ImgRGBA src | ImgNRGBA src => convertToGray (pPix src) (pStride src) bounds
  | ImgOther _ _ => grayGeneric bounds (At img)
  end.

End Grayscale.

(** ** Edge mask (mask.go) *)

Module Edges.
Import Image Mask.

(** The squared Sobel magnitude [magSq] at index [idx] of [grayPix]. *)
Definition magSq (grayPix : list Z) (stride idx : Z) : option spec_float :=
  let px (i : Z) := option_map F64.of_Z (index grayPix i) in
  match px (GoInt.sub (GoInt.sub idx stride) 1),
        px (GoInt.sub idx stride),
        px (GoInt.add (GoInt.sub idx stride) 1),
        px (GoInt.sub idx 1),
        px (GoInt.add idx 1),
        px (GoInt.sub (GoInt.add idx stride) 1),
        px (GoInt.add idx stride),
        px (GoInt.add (GoInt.add idx stride) 1) with
  | Some p0, Some p1, Some p2, Some p3, Some p5, Some p6, Some p7, Some p8 =>
      let two := F64.of_Z 2 in
      let sumX :=
        F64.add (F64.sub (F64.add (F64.sub (F64.add (F64.neg p0) p2)
                                           (F64.mul two p3))
                                  (F64.mul two p5))
                         p6)
                p8 in
      let sumY :=
        F64.add (F64.add (F64.add (F64.sub (F64.sub (F64.neg p0)
                                                    (F64.mul two p1))
                                           p2)
                                  p6)
                         (F64.mul two p7))
                p8 in
      Some (F64.add (F64.mul sumX sumX) (F64.mul sumY sumY))
  | _, _, _, _, _, _, _, _ => None
  end.

(** The loops of [MaskFromEdges] over the grayscale image [gray]. *)
Definition edgesOf (gray : Gray) (bounds : Rectangle)
    (threshold : spec_float) : option Gray :=
  let w := Dx bounds in
  let h := Dy bounds in
  let thresholdSq := F64.mul threshold threshold in
  let mask := NewGray bounds in
  let grayPix := Pix gray in
  let stride := Stride gray in
  let pixel (y : Z) (acc : option (list Z)) (x : Z) : option (list Z) :=
    match acc with
    | None => None
    | Some maskPix =>
        let idx := GoInt.add (GoInt.mul y stride) x in
        match magSq grayPix stride idx with
        | None => None
        | Some m =>
            if F64.gtb m thresholdSq then store maskPix idx 255
            else Some maskPix
        end
    end in
  option_map (fun pix => mkGray pix (Stride mask) bounds)
    (fold_left (fun acc y => fold_left (pixel y) (range 1 (GoInt.sub w 1)) acc)
               (range 1 (GoInt.sub h 1)) (Some (Pix mask))).

(** [MaskFromEdges(img, threshold)]. *)
Definition MaskFromEdges (img : image) (threshold : spec_float)
    : option Gray :=
  match Grayscale.convertToGrayscale img with
  | None => None
  | Some gray => edgesOf gray (Bounds_of img) threshold
  end.

End Edges.

(** ** Resizing with a 5x5 box blur (rmbg.go) *)

Module Resize.
Import Image.

(** [window] and [radius = window / 2]. *)
Definition window : Z := 5.
Definition radius : Z := 2.

(** First stage: bilinear resampling of [src] into [tmp]; the
    multiplications and additions are rounded one by one. *)
Definition bilinear (src : Gray) (newW newH : Z) (tmp : list Z)
    : option (list Z) :=
  let srcB := Bounds src in
  let xRatio := F64.div (F64.of_Z (Dx srcB)) (F64.of_Z newW) in
  let yRatio := F64.div (F64.of_Z (Dy srcB)) (F64.of_Z newH) in
  let pixel (y : Z) (acc : option (list Z)) (x : Z) : option (list Z) :=
    match acc with
    | None => None
    | Some tmp =>
        let sy := F64.mul yRatio (F64.of_Z y) in
        let y0 := F64.to_int sy in
        let y1 := Z.min (GoInt.add y0 1) (GoInt.sub (Dy srcB) 1) in
        let yLerp := F64.sub sy (F64.of_Z y0) in
        let sx := F64.mul xRatio (F64.of_Z x) in
        let x0 := F64.to_int sx in
        let x1 := Z.min (GoInt.add x0 1) (GoInt.sub (Dx srcB) 1) in
        let xLerp := F64.sub sx (F64.of_Z x0) in
        match GrayAt src x0 y0, GrayAt src x1 y0,
              GrayAt src x0 y1, GrayAt src x1 y1 with
        | Some v00, Some v10, Some v01, Some v11 =>
            let p00 := F64.of_Z v00 in
            let p10 := F64.of_Z v10 in
            let p01 := F64.of_Z v01 in
            let p11 := F64.of_Z v11 in
            let top := F64.add p00 (F64.mul (F64.sub p10 p00) xLerp) in
            let bottom := F64.add p01 (F64.mul (F64.sub p11 p01) xLerp) in
            store tmp (GoInt.add (GoInt.mul y newW) x)
                  (Background.uint8
                     (F64.to_int
                        (F64.add top (F64.mul (F64.sub bottom top) yLerp))))
        | _, _, _, _ => None
        end
    end in
  fold_left (fun acc y => fold_left (pixel y) (range 0 newW) acc)
            (range 0 newH) (Some tmp).

(** The loop [for k := -radius; k <= radius; k++] that sums the first
    window of a line of [n] elements read through [read]. *)
Definition firstSum (read : Z -> option Z) (n : Z) : option Z :=
  fold_left (fun acc k =>
               match acc with
               | None => None
               | Some sum =>
                   match read (Rmbg.clamp k 0 (GoInt.sub n 1)) with
                   | Some v => Some (GoInt.add sum v)
                   | None => None
                   end
               end)
            (range (- radius) (radius + 1)) (Some 0).

(** Second stage, one row: the horizontal pass from [tmp] into
    [hPass]. *)
Definition hBlurRow (tmp : list Z) (w y : Z) (hPass : list Z)
    : option (list Z) :=
  let rowOffset := GoInt.mul y w in
  match firstSum (fun xi => index tmp (GoInt.add rowOffset xi)) w with
  | None => None
  | Some sum0 =>
      match store hPass rowOffset
                  (Background.uint8 (Background.quot64 sum0 window)) with
      | None => None
      | Some hPass0 =>
          option_map snd
            (fold_left
               (fun acc x =>
                  match acc with
                  | None => None
                  | Some (sum, hp) =>
                      let out := Z.min (GoInt.add x radius) (GoInt.sub w 1) in
                      let in_ := Z.max (GoInt.sub (GoInt.sub x radius) 1) 0 in
                      match index tmp (GoInt.add rowOffset out),
                            index tmp (GoInt.add rowOffset in_) with
                      | Some a, Some b =>
                          let sum' := GoInt.add sum (GoInt.sub a b) in
                          match store hp (GoInt.add rowOffset x)
                                  (Background.uint8
                                     (Background.quot64 sum' window)) with
                          | Some hp' => Some (sum', hp')
                          | None => None
                          end
                      | _, _ => None
                      end
                  end)
               (range 1 w) (Some (sum0, hPass0)))
      end
  end.

Definition hBlur (tmp hPass : list Z) (w h : Z) : option (list Z) :=
  fold_left (fun acc y =>
               match acc with
               | None => None
               | Some hp => hBlurRow tmp w y hp
               end)
            (range 0 h) (Some hPass).

(** Third stage, one column: the vertical pass from [hPass] into
    [dst]. *)
Definition vBlurCol (hPass : list Z) (w h x : Z) (dst : Gray)
    : option Gray :=
  match firstSum (fun yi => index hPass (GoInt.add (GoInt.mul yi w) x)) h with
  | None => None
  | Some sum0 =>
      match SetGray dst x 0
                    (Background.uint8 (Background.quot64 sum0 window)) with
      | None => None
      | Some dst0 =>
          option_map snd
            (fold_left
               (fun acc y =>
                  match acc with
                  | None => None
                  | Some (sum, d) =>
                      let out := Z.min (GoInt.add y radius) (GoInt.sub h 1) in
                      let in_ := Z.max (GoInt.sub (GoInt.sub y radius) 1) 0 in
                      match index hPass (GoInt.add (GoInt.mul out w) x),
                            index hPass (GoInt.add (GoInt.mul in_ w) x) with
                      | Some a, Some b =>
                          let sum' := GoInt.add sum (GoInt.sub a b) in
                          match SetGray d x y
                                  (Background.uint8
                                     (Background.quot64 sum' window)) with
                          | Some d' => Some (sum', d')
                          | None => None
                          end
                      | _, _ => None
                      end
                  end)
               (range 1 h) (Some (sum0, dst0)))
      end
  end.

Definition vBlur (hPass : list Z) (dst : Gray) (w h : Z) : option Gray :=
  fold_left (fun acc x =>
               match acc with
               | None => None
               | Some d => vBlurCol hPass w h x d
               end)
            (range 0 w) (Some dst).

(** The elements a slice shows: the first [len] of its backing
    array. *)
Definition visible (s : Buffer.slice) : list Z :=
  firstn (Z.to_nat (Buffer.len s)) (Buffer.backing s).

(** [resizeGrayBlur5O(src, newW, newH)], given the buffer [buf] that
    the pool hands out; the buffer goes back to the pool when the
    function returns. *)
Definition resizeGrayBlur5O (buf : Buffer.blurBuffer) (src : Gray)
    (newW newH : Z) : option Gray :=
  let dst := NewGray (Rect 0 0 newW newH) in
  let bufSize := GoInt.mul newW newH in
  match Buffer.get buf bufSize with
  | None => None
  | Some b =>
      match bilinear src newW newH (visible (Buffer.tmp b)) with
      | None => None
      | Some tmp =>
          match hBlur tmp (visible (Buffer.hPass b)) newW newH with
          | None => None
          | Some hPass => vBlur hPass dst newW newH
          end
      end
  end.

End Resize.

(** ** Further images used as examples *)

Module Examples.
Import Image.

(** A 2x2 [*image.RGBA] of four slightly different light pixels. *)
Definition light2 : Mask.Packed :=
  Mask.mkPacked [250; 250; 250; 255;  255; 255; 255; 255;
                 245; 250; 255; 255;  255; 250; 245; 255] 8 (Rect 0 0 2 2).

(** A 3x3 [*image.RGBA]: white at the six points
    [detectUniformBackground] samples, black at the other three. *)
Definition frame3 : Mask.Packed :=
  Mask.mkPacked [255; 255; 255; 255;  255; 255; 255; 255;  255; 255; 255; 255;
                 0; 0; 0; 255;        0; 0; 0; 255;        255; 255; 255; 255;
                 255; 255; 255; 255;  0; 0; 0; 255;        255; 255; 255; 255]
                12 (Rect 0 0 3 3).

(** A 10x1 [*image.RGBA], opaque white except for the fully
    transparent pixel at x = 1. *)
Definition strip10 : Mask.Packed :=
  Mask.mkPacked [255; 255; 255; 255;  0; 0; 0; 0;
                 255; 255; 255; 255;  255; 255; 255; 255;
                 255; 255; 255; 255;  255; 255; 255; 255;
                 255; 255; 255; 255;  255; 255; 255; 255;
                 255; 255; 255; 255;  255; 255; 255; 255]
                40 (Rect 0 0 10 1).

(** A 3x3 [*image.RGBA] of one colour. *)
Definition flat3 : Mask.Packed :=
  Mask.mkPacked (flat_map (fun _ => [100; 150; 200; 255]) (seq 0 9))
                12 (Rect 0 0 3 3).

End Examples.

(** ** Predicates used to state further properties *)

Module Shape.
Import GoSlice.

(** A rectangle with ordered corners and coordinates small enough for
    the offset arithmetic of the pixel loops to stay within [int]. *)
Definition small (r : Image.Rectangle) : Prop :=
  - 2 ^ 28 <= Image.X (Image.Min r)
  /\ Image.X (Image.Min r) <= Image.X (Image.Max r) <= 2 ^ 28
  /\ - 2 ^ 28 <= Image.Y (Image.Min r)
  /\ Image.Y (Image.Min r) <= Image.Y (Image.Max r) <= 2 ^ 28.

(** A packed image whose [Pix] holds every row of its rectangle: row
    [y] starts at [y * Stride] and is four bytes per pixel long. *)
Definition packed_ok (p : Mask.Packed) : Prop :=
  let r := Mask.pBounds p in
  let w := Image.X (Image.Max r) - Image.X (Image.Min r) in
  let h := Image.Y (Image.Max r) - Image.Y (Image.Min r) in
  small r
  /\ 0 <= Mask.pStride p <= 2 ^ 31
  /\ (0 < h -> (h - 1) * Mask.pStride p + 4 * w
               <= Z.of_nat (length (Mask.pPix p))).

(** A gray image laid out as [image.NewGray] lays it out: the stride
    is the width and [Pix] holds exactly the rectangle's pixels. *)
Definition gray_wf (m : Image.Gray) : Prop :=
  small (Image.Bounds m)
  /\ Image.Stride m = Image.Dx (Image.Bounds m)
  /\ Z.of_nat (length (Image.Pix m))
     = Image.Dx (Image.Bounds m) * Image.Dy (Image.Bounds m).

(** Whether the point [(x, y)] is among [pts]. *)
Definition among (x y : Z) (pts : list (Z * Z)) : bool :=
  existsb (fun q => (fst q =? x) && (snd q =? y)) pts.

(** A value that is not below zero: a NaN, or a zero, an infinity or
    a finite value with the sign bit clear. *)
Definition unsigned (f : spec_float) : bool :=
  match f with
  | S754_nan => true
  | S754_zero s | S754_infinity s | S754_finite s _ _ => negb s
  end.

(** Whether the index [j] is among [idxs]. *)
Definition listed (j : Z) (idxs : list Z) : bool := existsb (Z.eqb j) idxs.

(** The sum of the five elements around position [x] of a line of [n]
    elements, positions beyond either end standing for the end
    element. *)
Definition window5 (line : Z -> Z) (n x : Z) : Z :=
  line (Rmbg.clamp (x - 2) 0 (n - 1)) + line (Rmbg.clamp (x - 1) 0 (n - 1))
  + line (Rmbg.clamp x 0 (n - 1)) + line (Rmbg.clamp (x + 1) 0 (n - 1))
  + line (Rmbg.clamp (x + 2) 0 (n - 1)).

(** Every element is a byte. *)
Definition bytes (l : list Z) : Prop := Forall (fun v => 0 <= v <= 255) l.

(** A histogram with [k] values in bin [b] and none elsewhere. *)
Definition only_bin (b k : Z) (hist : list Z) : Prop :=
  length hist = 256%nat
  /\ forall t, 0 <= t -> at_ hist t = if b =? t then k else 0.








End Shape.

(* ================================================================== *)
(** * Properties *)
(* ================================================================== *)

(** ** Scratch-buffer pool *)

Section BufferFacts.
Import Buffer.

Lemma cap_nonneg (s : slice) : 0 <= cap s.
Proof. unfold cap. lia. Qed.

Lemma make_shape (n : Z) :
  0 <= n -> exists s, make n = Some s /\ len s = n /\ cap s = n.
Proof.
  intros Hn. unfold make.
  destruct (Z.ltb_spec n 0) as [Hlt | _]; [lia |].
  eexists; split; [reflexivity |]. split; [reflexivity |].
  unfold cap; cbn. rewrite repeat_length. lia.
Qed.

Lemma reslice_shape (s : slice) (n : Z) :
  0 <= n <= cap s ->
  exists s', reslice s n = Some s' /\ len s' = n /\ cap s' = cap s.
Proof.
  intros [H0 Hc]. unfold reslice.
  destruct (Z.leb_spec 0 n); [| lia].
  destruct (Z.leb_spec n (cap s)); [| lia].
  cbn. eexists; repeat split.
Qed.

(** What [get] does to one balanced buffer. *)
Lemma get_balanced (b : blurBuffer) (size : Z) :
  balanced b -> 0 <= size ->
  exists b', get b size = Some b'
    /\ len (tmp b') = size /\ len (hPass b') = size
    /\ cap (tmp b') = Z.max (cap (tmp b)) size
    /\ cap (hPass b') = Z.max (cap (hPass b)) size.
Proof.
  intros Hb Hs. unfold get. red in Hb.
  destruct (Z.ltb_spec (cap (tmp b)) size) as [Hlt | Hge].
  - destruct (make_shape size Hs) as (s & -> & Hl & Hc).
    exists (mkBuf s s). cbn. repeat split; try assumption; lia.
  - destruct (reslice_shape (tmp b) size) as (t & -> & Hlt' & Hct); [lia |].
    destruct (reslice_shape (hPass b) size) as (h & -> & Hlh & Hch); [lia |].
    exists (mkBuf t h). cbn. repeat split; try assumption; lia.
Qed.

Lemma get_keeps_balanced (b b' : blurBuffer) (size : Z) :
  balanced b -> get b size = Some b' -> balanced b'.
Proof.
  intros Hb Hg.
  destruct (Z.ltb_spec size 0) as [Hneg | Hpos].
  - exfalso. unfold get in Hg.
    pose proof (cap_nonneg (tmp b)) as Hc.
    destruct (Z.ltb_spec (cap (tmp b)) size); [lia |].
    unfold reslice in Hg.
    destruct (Z.leb_spec 0 size); [lia |]. cbn in Hg. discriminate.
  - destruct (get_balanced b size Hb Hpos) as (b2 & Hg2 & _ & _ & Ht & Hh).
    rewrite Hg in Hg2. injection Hg2 as <-.
    unfold balanced in *. lia.
Qed.

Lemma newBuffer_balanced : balanced newBuffer.
Proof. reflexivity. Qed.

Lemma Forall_app_mid {A : Type} (P : A -> Prop) (l1 l2 : list A) (x : A) :
  Forall P (l1 ++ x :: l2) <-> P x /\ Forall P (l1 ++ l2).
Proof.
  rewrite !Forall_app, Forall_cons_iff. tauto.
Qed.

Lemma step_pool_ok (p q : blurBufferPool) :
  pool_ok p -> step p q -> pool_ok q.
Proof.
  intros [Hf Hh] Hstep. unfold pool_ok.
  destruct Hstep as
    [p size b Hg | l1 old l2 hs size b Hg | fs h1 b h2 t' h' Ht Hhp
    | fs h1 b h2 | l1 b l2 hs]; cbn in *.
  - split; [assumption |]. constructor; [| assumption].
    eapply get_keeps_balanced; [apply newBuffer_balanced | eassumption].
  - apply Forall_app_mid in Hf as [Hold Hrest].
    split; [assumption |]. constructor; [| assumption].
    eapply get_keeps_balanced; eassumption.
  - split; [assumption |].
    apply Forall_app_mid in Hh as [Hb Hrest].
    apply Forall_app_mid. split; [| assumption].
    destruct Ht as [_ Ht], Hhp as [_ Hhp].
    unfold balanced, cap in *. cbn. lia.
  - apply Forall_app_mid in Hh as [Hb Hrest].
    split; [constructor |]; assumption.
  - apply Forall_app_mid in Hf as [_ Hrest]. split; assumption.
Qed.

Lemma reachable_pool_ok (p : blurBufferPool) : reachable p -> pool_ok p.
Proof.
  induction 1 as [| p q _ IH Hstep].
  - split; constructor.
  - eapply step_pool_ok; eassumption.
Qed.

(** C9.  After any sequence of pool operations, a [get(size)] on
    whatever buffer the pool hands out (fresh or reused) succeeds and
    returns a buffer whose [tmp] and [hPass] both have length exactly
    [size]; the capacity of either slice is the larger of [size] and
    the capacity the buffer had, so it never decreases across reuse. *)
Theorem get_length_and_capacity
    (p : blurBufferPool) (b : blurBuffer) (size : Z) :
  reachable p -> obtainable p b -> 0 <= size ->
  exists b', get b size = Some b'
    /\ len (tmp b') = size /\ len (hPass b') = size
    /\ cap (tmp b) <= cap (tmp b') /\ cap (hPass b) <= cap (hPass b')
    /\ size <= cap (tmp b') /\ size <= cap (hPass b').
Proof.
  intros Hr Hob Hs.
  assert (Hbal : balanced b).
  { destruct Hob as [-> | Hin]; [apply newBuffer_balanced |].
    apply reachable_pool_ok in Hr as [Hf _].
    rewrite Forall_forall in Hf. auto. }
  destruct (get_balanced b size Hbal Hs) as (b' & Hg & Hlt & Hlh & Hct & Hch).
  exists b'. repeat split; try assumption; lia.
Qed.

Lemma pool_after_two_borrows :
  reachable (mkPool [Fixture.buf200] []).
Proof.
  apply (reach_step (mkPool [] [Fixture.buf200])).
  - apply (reach_step (mkPool [Fixture.buf100] [])).
    + apply (reach_step (mkPool [] [Fixture.buf100])).
      * apply (reach_step newBlurBufferPool); [apply reach_new |].
        apply (step_get_fresh newBlurBufferPool 100). reflexivity.
      * exact (step_put [] [] Fixture.buf100 []).
    + apply (step_get_reuse [] Fixture.buf100 [] [] 200). reflexivity.
  - exact (step_put [] [] Fixture.buf200 []).
Qed.

Lemma get_length_and_capacity_witness :
  exists b', get Fixture.buf200 50 = Some b'
    /\ len (tmp b') = 50 /\ len (hPass b') = 50
    /\ 200 <= cap (tmp b') /\ 200 <= cap (hPass b').
Proof.
  destruct (get_length_and_capacity (mkPool [Fixture.buf200] [])
              Fixture.buf200 50)
    as (b' & Hg & Ht & Hh & Hct & Hch & _).
  - exact pool_after_two_borrows.
  - right. left. reflexivity.
  - lia.
  - exists b'. repeat split; assumption.
Defined.

End BufferFacts.

(** ** Object bounds *)

Section BoundsFacts.
Import Image Crop.

Lemma in_range_iff (lo hi v : Z) : In v (range lo hi) <-> lo <= v < hi.
Proof.
  unfold range. rewrite in_map_iff. split.
  - intros (i & <- & Hi). apply in_seq in Hi. lia.
  - intros Hv. exists (Z.to_nat (v - lo)). split; [lia |].
    apply in_seq. lia.
Qed.

Lemma PtIn_spec (x y : Z) (r : Rectangle) :
  PtIn x y r = true <->
  X (Min r) <= x < X (Max r) /\ Y (Min r) <= y < Y (Max r).
Proof.
  unfold PtIn. rewrite !andb_true_iff, !Z.leb_le, !Z.ltb_lt. lia.
Qed.

Lemma in_coords_iff (r : Rectangle) (x y : Z) :
  In (x, y) (coords r) <-> PtIn x y r = true.
Proof.
  rewrite PtIn_spec. unfold coords. rewrite in_flat_map. split.
  - intros (y' & Hy & Hx). apply in_map_iff in Hx as (x' & Heq & Hx).
    injection Heq as <- <-. rewrite in_range_iff in Hy, Hx. lia.
  - intros [Hx Hy]. exists y. split; [apply in_range_iff; lia |].
    apply in_map_iff. exists x. split; [reflexivity |].
    apply in_range_iff; lia.
Qed.

(** On a list of readable points the scan loop is a plain fold of
    [mark] over the points at or above the threshold. *)
Lemma fold_visit_filter (mask : Gray) (thr : Z) (l : list (Z * Z)) (s : scan) :
  forallb (fun '(x, y) => match GrayAt mask x y with
                          | Some _ => true | None => false end) l = true ->
  fold_left (visit mask thr) l (Some s) =
  Some (fold_left mark
          (filter (fun p => match GrayAt mask (fst p) (snd p) with
                            | Some v => thr <=? v
                            | None => false
                            end) l) s).
Proof.
  revert s. induction l as [| [x y] l IH]; intros s Hok; [reflexivity |].
  cbn in Hok. apply andb_true_iff in Hok as [Hxy Hl].
  cbn [fold_left filter visit fst snd].
  destruct (GrayAt mask x y) as [v |]; [| discriminate].
  destruct (thr <=? v); cbn [fold_left]; apply IH; assumption.
Qed.

Lemma scan_qualifying (mask : Gray) (thr : Z) :
  Gray_ok mask ->
  fold_left (visit mask thr) (coords (Bounds mask))
            (Some (scan_init (Bounds mask))) =
  Some (fold_left mark (qualifying mask thr) (scan_init (Bounds mask))).
Proof. intros Hok. apply fold_visit_filter. exact Hok. Qed.

Lemma found_after_marks (l : list (Z * Z)) (s : scan) :
  foundPixel (fold_left mark l s) =
  match l with [] => foundPixel s | _ :: _ => true end.
Proof.
  revert s. induction l as [| [x y] l IH]; intros s; [reflexivity |].
  cbn [fold_left]. rewrite IH. destruct l; reflexivity.
Qed.

Lemma in_qualifying (mask : Gray) (thr : Z) (x y : Z) :
  In (x, y) (qualifying mask thr) <->
  PtIn x y (Bounds mask) = true /\
  exists v, GrayAt mask x y = Some v /\ thr <= v.
Proof.
  unfold qualifying. rewrite filter_In, in_coords_iff. cbn [fst snd].
  split.
  - intros [Hin Hq]. split; [assumption |].
    destruct (GrayAt mask x y) as [v |]; [| discriminate].
    exists v. split; [reflexivity | now apply Z.leb_le].
  - intros [Hin (v & -> & Hv)]. split; [assumption | now apply Z.leb_le].
Qed.

(** Detection reports "found" exactly when some pixel reaches the
    threshold. *)
Lemma detect_found (mask : Gray) (thr : Z) :
  Gray_ok mask ->
  exists b found,
    detectObjectBounds mask thr = Some (b, found) /\
    found = match qualifying mask thr with [] => false | _ :: _ => true end.
Proof.
  intros Hok. unfold detectObjectBounds.
  rewrite (scan_qualifying mask thr Hok).
  pose proof (found_after_marks (qualifying mask thr)
                (scan_init (Bounds mask))) as Hf.
  destruct (foundPixel (fold_left mark (qualifying mask thr)
                          (scan_init (Bounds mask)))) eqn:E; cbn [negb].
  - eexists _, true. split; [reflexivity |].
    destruct (qualifying mask thr); [discriminate Hf | reflexivity].
  - exists noBounds, false. split; [reflexivity |].
    destruct (qualifying mask thr); [reflexivity | discriminate Hf].
Qed.

Lemma wrap64_small (z : Z) :
  GoInt.min_int <= z <= GoInt.max_int -> GoInt.wrap64 z = z.
Proof.
  unfold GoInt.min_int, GoInt.max_int, GoInt.wrap64. intros Hz.
  rewrite Z.mod_small; lia.
Qed.

Lemma mark_again (s : scan) (p : Z * Z) : mark (mark s p) p = mark s p.
Proof.
  destruct p as [x y]. unfold mark; cbn. f_equal; lia.
Qed.

(** Marking one and the same point any number of times is marking it
    once. *)
Lemma fold_mark_same (l : list (Z * Z)) (p : Z * Z) (s : scan) :
  (forall q, In q l -> q = p) -> l <> [] ->
  fold_left mark l s = mark s p.
Proof.
  revert s. induction l as [| q l IH]; intros s Hall Hne; [congruence |].
  assert (q = p) as -> by (apply Hall; now left).
  cbn [fold_left]. destruct l as [| q' l'].
  - reflexivity.
  - rewrite IH; [apply mark_again | | discriminate].
    intros q Hq. apply Hall. now right.
Qed.

Lemma fold_mark_inv (r : Rectangle) (l : list (Z * Z)) (s : scan) :
  0 <= X (Min r) -> 0 <= Y (Min r) ->
  (forall x y, In (x, y) l -> PtIn x y r = true) ->
  scan_inv r s -> scan_inv r (fold_left mark l s).
Proof.
  intros Hx0 Hy0. revert s.
  induction l as [| [x y] l IH]; intros s Hin Hs; [exact Hs |].
  cbn [fold_left]. apply IH.
  - intros x' y' H'. apply Hin. now right.
  - assert (Hp : PtIn x y r = true) by (apply Hin; now left).
    apply PtIn_spec in Hp. unfold scan_inv in *.
    destruct (foundPixel s) eqn:Ef.
    + unfold mark; cbn. lia.
    + subst s. unfold mark, scan_init; cbn. lia.
Qed.

(** C7.  [crop] fails in exactly two ways.  With the nil mask it
    returns the error "mask image is nil" without looking at anything
    else.  With a mask none of whose pixels reaches [MinThreshold] it
    returns the error "no object detected in image".  With a mask that
    has such a pixel it returns a cropped image and no error.  There is
    no other outcome for a well-formed mask. *)
Theorem crop_error_cases
    (bounds : Rectangle) (config : CropConfig) (scaleX scaleY : spec_float) :
  crop bounds None config scaleX scaleY = Error "mask image is nil"
  /\ (forall mask, Gray_ok mask ->
        (forall x y v, PtIn x y (Bounds mask) = true ->
                       GrayAt mask x y = Some v -> v < MinThreshold config) ->
        crop bounds (Some mask) config scaleX scaleY
        = Error "no object detected in image")
  /\ (forall mask, Gray_ok mask ->
        (exists x y v, PtIn x y (Bounds mask) = true
                       /\ GrayAt mask x y = Some v /\ MinThreshold config <= v) ->
        exists r, crop bounds (Some mask) config scaleX scaleY = Return r)
  /\ (forall mask, Gray_ok mask ->
        crop bounds (Some mask) config scaleX scaleY
        = Error "no object detected in image"
        \/ exists r, crop bounds (Some mask) config scaleX scaleY = Return r).
Proof.
  split; [reflexivity |]. split; [| split].
  - intros mask Hok Hnone. unfold crop.
    destruct (detect_found mask (MinThreshold config) Hok)
      as (b & found & -> & Hf).
    destruct (qualifying mask (MinThreshold config)) as [| [x y] l] eqn:Eq.
    + subst found. reflexivity.
    + exfalso.
      assert (Hin : In (x, y) (qualifying mask (MinThreshold config)))
        by (rewrite Eq; now left).
      apply in_qualifying in Hin as [Hin (v & Hv & Hle)].
      specialize (Hnone x y v Hin Hv). lia.
  - intros mask Hok (x & y & v & Hin & Hv & Hle). unfold crop.
    destruct (detect_found mask (MinThreshold config) Hok)
      as (b & found & -> & Hf).
    destruct (qualifying mask (MinThreshold config)) as [| p l] eqn:Eq.
    + exfalso.
      assert (Hq : In (x, y) (qualifying mask (MinThreshold config)))
        by (apply in_qualifying; eauto).
      rewrite Eq in Hq. destruct Hq.
    + subst found. eexists. reflexivity.
  - intros mask Hok. unfold crop.
    destruct (detect_found mask (MinThreshold config) Hok)
      as (b & found & -> & Hf).
    destruct found; [right; eexists; reflexivity | left; reflexivity].
Qed.

(** C10.  [detectObjectBounds] starts the running minima at the bounds'
    maximum and the running maxima at the literal 0.  For every mask in
    which exactly one pixel (x0, y0) is >= minThreshold it reports the
    object as found with MinX = x0, MinY = y0, MaxX = max 0 x0 and
    MaxY = max 0 y0: the zero-extent rectangle of the claim (MinX =
    MaxX, MinY = MaxY, Width = 0, Height = 0) exactly when x0 and y0
    are not negative.  On the mask with bounds (-5,-5)-(5,5) whose only
    pixel is at (-3,-3) it reports MinX = MinY = -3, MaxX = MaxY = 0
    and Width = Height = 3.  For a mask whose bounds start at
    non-negative coordinates, Width and Height of a found object are
    MaxX - MinX and MaxY - MinY, one less than the number of columns
    and rows from the minimum to the maximum. *)
Theorem single_pixel_bounds :
  (forall (mask : Gray) (thr x0 y0 v0 : Z),
      Gray_ok mask ->
      PtIn x0 y0 (Bounds mask) = true ->
      GrayAt mask x0 y0 = Some v0 -> thr <= v0 ->
      (forall x y v, PtIn x y (Bounds mask) = true ->
                     GrayAt mask x y = Some v -> thr <= v ->
                     (x, y) = (x0, y0)) ->
      exists b, detectObjectBounds mask thr = Some (b, true)
        /\ MinX b = x0 /\ MinY b = y0
        /\ MaxX b = Z.max 0 x0 /\ MaxY b = Z.max 0 y0
        /\ Width b = GoInt.sub (Z.max 0 x0) x0
        /\ Height b = GoInt.sub (Z.max 0 y0) y0
        /\ ((MinX b = MaxX b /\ MinY b = MaxY b
             /\ Width b = 0 /\ Height b = 0)
            <-> (0 <= x0 /\ 0 <= y0)))
  /\ detectObjectBounds Fixture.shiftedMask 10
     = Some (mkBounds (-3) (-3) 0 0 3 3 (-2) (-2), true)
  /\ (forall (mask : Gray) (thr : Z) (b : objectBounds),
      Gray_ok mask ->
      0 <= X (Min (Bounds mask)) -> 0 <= Y (Min (Bounds mask)) ->
      X (Max (Bounds mask)) <= GoInt.max_int ->
      Y (Max (Bounds mask)) <= GoInt.max_int ->
      detectObjectBounds mask thr = Some (b, true) ->
      Width b = MaxX b - MinX b /\ Height b = MaxY b - MinY b
      /\ Z.of_nat (length (range (MinX b) (MaxX b + 1))) = Width b + 1
      /\ Z.of_nat (length (range (MinY b) (MaxY b + 1))) = Height b + 1).
Proof.
  split; [| split].
  - intros mask thr x0 y0 v0 Hok Hin Hv Hle Huniq.
    unfold detectObjectBounds. rewrite (scan_qualifying mask thr Hok).
    rewrite (fold_mark_same (qualifying mask thr) (x0, y0)).
    + apply PtIn_spec in Hin. unfold mark, scan_init. cbn.
      eexists. split; [reflexivity |]. cbn.
      replace (Z.min (X (Max (Bounds mask))) x0) with x0 by lia.
      replace (Z.min (Y (Max (Bounds mask))) y0) with y0 by lia.
      repeat (split; [reflexivity |]).
      split.
      * intros (Hx & Hy & _). lia.
      * intros [Hx Hy].
        replace (Z.max 0 x0) with x0 by lia.
        replace (Z.max 0 y0) with y0 by lia.
        unfold GoInt.sub. rewrite !Z.sub_diag.
        repeat split; reflexivity.
    + intros [x y] Hq. apply in_qualifying in Hq as [Hq (v & Hgv & Hlv)].
      eapply Huniq; eassumption.
    + intros Hnil.
      assert (Hq : In (x0, y0) (qualifying mask thr))
        by (apply in_qualifying; eauto).
      rewrite Hnil in Hq. destruct Hq.
  - vm_compute. reflexivity.
  - intros mask thr b Hok Hx0 Hy0 HX HY Hdet.
    unfold detectObjectBounds in Hdet.
    rewrite (scan_qualifying mask thr Hok) in Hdet.
    pose proof (fold_mark_inv (Bounds mask) (qualifying mask thr)
                  (scan_init (Bounds mask)) Hx0 Hy0) as Hinv.
    set (s := fold_left mark (qualifying mask thr) (scan_init (Bounds mask))) in *.
    assert (Hs : scan_inv (Bounds mask) s).
    { apply Hinv; [| reflexivity].
      intros x y Hq. apply in_qualifying in Hq. tauto. }
    unfold scan_inv in Hs.
    destruct (foundPixel s) eqn:Ef; cbn [negb] in Hdet; [| discriminate].
    injection Hdet as <-. cbn.
    unfold GoInt.sub.
    rewrite !wrap64_small by (unfold GoInt.min_int, GoInt.max_int in *; lia).
    unfold range. rewrite !length_map, !length_seq. lia.
Qed.

End BoundsFacts.

(** ** Crop geometry *)

Section CropFacts.
Import Image Crop Fixture.

(** A pixel given by its coordinates and value is in [qualifying]. *)
Lemma qualifying_nonempty (mask : Gray) (thr : Z) :
  (exists x y v, PtIn x y (Bounds mask) = true
                 /\ GrayAt mask x y = Some v /\ thr <= v) ->
  qualifying mask thr <> [].
Proof.
  intros (x & y & v & Hin & Hv & Hle) Hnil.
  assert (Hq : In (x, y) (qualifying mask thr))
    by (apply in_qualifying; eauto).
  rewrite Hnil in Hq. destruct Hq.
Qed.

(** The pixels of a concrete mask at or above the threshold, read off
    the computed list. *)
Lemma qualifying_pixel (mask : Gray) (thr : Z) (p : Z * Z) (l : list (Z * Z)) :
  qualifying mask thr = p :: l ->
  exists x y v, PtIn x y (Bounds mask) = true
                /\ GrayAt mask x y = Some v /\ thr <= v.
Proof.
  intros Hq. destruct p as [x y].
  assert (Hin : In (x, y) (qualifying mask thr)) by (rewrite Hq; now left).
  apply in_qualifying in Hin as [Hin (v & Hv & Hle)].
  exists x, y, v. auto.
Qed.

Lemma qualifying_only (mask : Gray) (thr : Z) (p : Z * Z) :
  qualifying mask thr = [p] ->
  forall x y v, PtIn x y (Bounds mask) = true ->
                GrayAt mask x y = Some v -> thr <= v -> (x, y) = p.
Proof.
  intros Hq x y v Hin Hv Hle.
  assert (Hi : In (x, y) (qualifying mask thr))
    by (apply in_qualifying; eauto).
  rewrite Hq in Hi. destruct Hi as [Hi | []]. now symmetry.
Qed.

Lemma qualifying_none (mask : Gray) (thr : Z) :
  qualifying mask thr = [] ->
  forall x y v, PtIn x y (Bounds mask) = true ->
                GrayAt mask x y = Some v -> v < thr.
Proof.
  intros Hq x y v Hin Hv.
  destruct (Z.lt_ge_cases v thr) as [Hlt | Hge]; [assumption |].
  exfalso.
  assert (Hi : In (x, y) (qualifying mask thr))
    by (apply in_qualifying; eauto).
  rewrite Hq in Hi. destruct Hi.
Qed.

(** A successful [crop] returns the scaled bounds widened by the
    margin and clipped, squared afterwards when [SquareCrop] is set. *)
Lemma crop_plain (bounds : Rectangle) (mask : Gray) (config : CropConfig)
    (scaleX scaleY : spec_float) :
  Gray_ok mask ->
  qualifying mask (MinThreshold config) <> [] ->
  exists ob, detectObjectBounds mask (MinThreshold config) = Some (ob, true)
    /\ let sMinX := scaleCoord (MinX ob) scaleX in
       let sMinY := scaleCoord (MinY ob) scaleY in
       let sMaxX := scaleCoord (MaxX ob) scaleX in
       let sMaxY := scaleCoord (MaxY ob) scaleY in
       let m := cropMargin config (GoInt.sub sMaxX sMinX)
                           (GoInt.sub sMaxY sMinY) in
       crop bounds (Some mask) config scaleX scaleY
       = Return (imaging_Crop bounds
                   (if SquareCrop config
                    then let '(x0, y0, x1, y1) :=
                           squareCrop (Dx bounds) (Dy bounds)
                             (Z.max 0 (GoInt.sub sMinX m),
                              Z.max 0 (GoInt.sub sMinY m),
                              Z.min (Dx bounds) (GoInt.add sMaxX m),
                              Z.min (Dy bounds) (GoInt.add sMaxY m)) in
                         Rect x0 y0 x1 y1
                    else Spec.expanded bounds sMinX sMinY sMaxX sMaxY m)).
Proof.
  intros Hok Hne. unfold crop.
  destruct (detect_found mask (MinThreshold config) Hok)
    as (ob & found & Hdet & Hf).
  destruct (qualifying mask (MinThreshold config)); [congruence |].
  subst found. exists ob. split; [assumption |]. rewrite Hdet.
  cbv zeta. unfold cropRect, Spec.expanded.
  destruct (SquareCrop config); reflexivity.
Qed.

(** C5 (amended).  [crop] widens the scaled object bounds on all four
    sides by one margin and clips to the image, whatever the
    configuration; with [SquareCrop] set the clipped box then goes
    through the square adjustment, otherwise it is the crop rectangle.
    The margin is the fixed [Margin] unless [MarginPercent > 0]; then
    it is the maximum of [Margin] and the larger of
    [int(width * MarginPercent)] and [int(height * MarginPercent)],
    the products truncated toward zero, not rounded.  For the object
    spanning (40,40)-(60,60) of a 100x100 image, Margin 0 gives a 20x20
    crop, Margin 5 gives 30x30 and MarginPercent 0.5 with Margin 0
    gives 40x40, with and without [SquareCrop]. *)
Theorem crop_margin_truncated :
  (forall (bounds : Rectangle) (mask : Gray) (config : CropConfig)
          (scaleX scaleY : spec_float),
      Gray_ok mask ->
      (exists x y v, PtIn x y (Bounds mask) = true
                     /\ GrayAt mask x y = Some v /\ MinThreshold config <= v) ->
      exists ob,
        detectObjectBounds mask (MinThreshold config) = Some (ob, true)
        /\ let sMinX := scaleCoord (MinX ob) scaleX in
           let sMinY := scaleCoord (MinY ob) scaleY in
           let sMaxX := scaleCoord (MaxX ob) scaleX in
           let sMaxY := scaleCoord (MaxY ob) scaleY in
           let w := GoInt.sub sMaxX sMinX in
           let h := GoInt.sub sMaxY sMinY in
           let pct := MarginPercent config in
           let m :=
             if F64.gtb pct F64.zero
             then Z.max (Margin config)
                        (Z.max (F64.to_int (F64.mul (F64.of_Z w) pct))
                               (F64.to_int (F64.mul (F64.of_Z h) pct)))
             else Margin config in
           crop bounds (Some mask) config scaleX scaleY
           = Return (imaging_Crop bounds
                       (if SquareCrop config
                        then let '(x0, y0, x1, y1) :=
                               squareCrop (Dx bounds) (Dy bounds)
                                 (Z.max 0 (GoInt.sub sMinX m),
                                  Z.max 0 (GoInt.sub sMinY m),
                                  Z.min (Dx bounds) (GoInt.add sMaxX m),
                                  Z.min (Dy bounds) (GoInt.add sMaxY m)) in
                             Rect x0 y0 x1 y1
                        else Spec.expanded bounds sMinX sMinY sMaxX sMaxY m)))
  /\ (forall sq : bool,
        crop img100 (Some testMask) (mkConfig 0 F64.zero 10 sq) ten ten
        = Return (Rect 0 0 20 20)
        /\ crop img100 (Some testMask) (mkConfig 5 F64.zero 10 sq) ten ten
           = Return (Rect 0 0 30 30)
        /\ crop img100 (Some testMask) (mkConfig 0 (F64.dec 5 1) 10 sq) ten ten
           = Return (Rect 0 0 40 40)).
Proof.
  split; [| intros [|]; repeat split; vm_compute; reflexivity].
  intros bounds mask config scaleX scaleY Hok Hex.
  destruct (crop_plain bounds mask config scaleX scaleY Hok
              (qualifying_nonempty _ _ Hex)) as (ob & Hdet & Hcrop).
  exists ob. split; [assumption |]. exact Hcrop.
Qed.

(** Margin percent 0.1875 on the 30x20 object of [oddMask] scaled by
    ten, with [SquareCrop]: the products 5.625 and 3.75 are cut to 5
    and 3, the margin is 5, the clipped box (35,35)-(75,65) is squared
    to (35,30)-(75,70) and the crop is 40x40.  On the 20x20 object of
    [testMask] without [SquareCrop] the margin is 3 and the crop
    26x26. *)
Lemma crop_margin_truncated_witness :
  (exists ob,
     detectObjectBounds oddMask 10 = Some (ob, true)
     /\ crop img100 (Some oddMask)
             (mkConfig 0 (F64.dec 1875 4) 10 true) ten ten
        = Return (imaging_Crop img100 (Rect 35 30 75 70))
     /\ imaging_Crop img100 (Rect 35 30 75 70) = Rect 0 0 40 40)
  /\ (exists ob,
     detectObjectBounds testMask 10 = Some (ob, true)
     /\ crop img100 (Some testMask)
             (mkConfig 0 (F64.dec 1875 4) 10 false) ten ten
        = Return (imaging_Crop img100 (Spec.expanded img100 40 40 60 60 3))
     /\ imaging_Crop img100 (Spec.expanded img100 40 40 60 60 3)
        = Rect 0 0 26 26).
Proof.
  split.
  - destruct (proj1 crop_margin_truncated img100 oddMask
                (mkConfig 0 (F64.dec 1875 4) 10 true) ten ten)
      as (ob & Hdet & Hcrop).
    + vm_compute. reflexivity.
    + apply (qualifying_pixel oddMask 10 (4, 4) [(7, 4); (4, 6)]).
      vm_compute. reflexivity.
    + exists ob. split; [exact Hdet |].
      split; [| vm_compute; reflexivity].
      cbv zeta in Hcrop. rewrite Hcrop.
      assert (Hob : Some (ob, true) = detectObjectBounds oddMask 10)
        by (symmetry; exact Hdet).
      vm_compute in Hob. injection Hob as ->.
      vm_compute. reflexivity.
  - destruct (proj1 crop_margin_truncated img100 testMask
                (mkConfig 0 (F64.dec 1875 4) 10 false) ten ten)
      as (ob & Hdet & Hcrop).
    + vm_compute. reflexivity.
    + apply (qualifying_pixel testMask 10 (4, 4)
               [(5, 4); (6, 4); (4, 5); (5, 5); (6, 5); (4, 6); (5, 6); (6, 6)]).
      vm_compute. reflexivity.
    + exists ob. split; [exact Hdet |].
      split; [| vm_compute; reflexivity].
      cbv zeta in Hcrop. rewrite Hcrop.
      assert (Hob : Some (ob, true) = detectObjectBounds testMask 10)
        by (symmetry; exact Hdet).
      vm_compute in Hob. injection Hob as ->.
      vm_compute. reflexivity.
Defined.

(** The stated margin differs as soon as a product has a fractional
    part of one half or more: 0.1875 x 20 = 3.75 is cut to 3 by the
    code and rounded to 4 by the statement. *)
Lemma margin_claim_fails : ~ Spec.margin_claim.
Proof.
  intros H.
  destruct (H img100 testMask (mkConfig 0 (F64.dec 1875 4) 10 false) ten ten)
    as (ob & Hdet & Hcrop).
  - vm_compute. reflexivity.
  - reflexivity.
  - apply (qualifying_pixel testMask 10 (4, 4)
             [(5, 4); (6, 4); (4, 5); (5, 5); (6, 5); (4, 6); (5, 6); (6, 6)]).
    vm_compute. reflexivity.
  - vm_compute in Hdet. injection Hdet as <-.
    vm_compute in Hcrop. discriminate Hcrop.
Qed.

(** C6.  With [SquareCrop] the shorter axis grows by [diff/2] on each
    side, an integer division: for the 3x2 object of [oddMask] in a
    100x100 image the adjusted rectangle (4,4)-(7,6) is nowhere near
    an image edge, and the crop returned is 3 wide and 2 high. *)
Theorem square_crop_odd_difference :
  let config := mkConfig 0 F64.zero 10 true in
  exists ob,
    detectObjectBounds oddMask 10 = Some (ob, true)
    /\ cropRect img100 ob config one one = Rect 4 4 7 6
    /\ crop img100 (Some oddMask) config one one = Return (Rect 0 0 3 2)
    /\ Dx (Rect 0 0 3 2) <> Dy (Rect 0 0 3 2).
Proof.
  eexists. split; [vm_compute; reflexivity |].
  split; [vm_compute; reflexivity |].
  split; [vm_compute; reflexivity |].
  vm_compute. discriminate.
Qed.

Lemma crop_error_cases_witness :
  crop img100 None (mkConfig 0 F64.zero 10 false) ten ten
  = Error "mask image is nil"
  /\ crop img100 (Some emptyMask) (mkConfig 0 F64.zero 10 false) ten ten
     = Error "no object detected in image"
  /\ exists r, crop img100 (Some testMask) (mkConfig 0 F64.zero 10 false) ten ten
               = Return r.
Proof.
  destruct (crop_error_cases img100 (mkConfig 0 F64.zero 10 false) ten ten)
    as (Hnil & Hnone & Hsome & _).
  split; [exact Hnil |]. split.
  - apply Hnone; [vm_compute; reflexivity |].
    apply qualifying_none. vm_compute. reflexivity.
  - apply Hsome; [vm_compute; reflexivity |].
    apply (qualifying_pixel testMask 10 (4, 4)
             [(5, 4); (6, 4); (4, 5); (5, 5); (6, 5); (4, 6); (5, 6); (6, 6)]).
    vm_compute. reflexivity.
Defined.

Lemma single_pixel_bounds_witness :
  (exists b, detectObjectBounds shiftedMask 10 = Some (b, true)
     /\ MinX b = -3 /\ MinY b = -3 /\ MaxX b = 0 /\ MaxY b = 0
     /\ Width b = 3 /\ Height b = 3)
  /\ (exists b, detectObjectBounds singlePixel 10 = Some (b, true)
     /\ MinX b = MaxX b /\ MinY b = MaxY b /\ Width b = 0 /\ Height b = 0)
  /\ (forall b, detectObjectBounds testMask 10 = Some (b, true) ->
        Width b = MaxX b - MinX b /\ Height b = MaxY b - MinY b
        /\ Z.of_nat (length (range (MinX b) (MaxX b + 1))) = Width b + 1
        /\ Z.of_nat (length (range (MinY b) (MaxY b + 1))) = Height b + 1).
Proof.
  destruct single_pixel_bounds as (Hone & _ & Hgen). split; [| split].
  - destruct (Hone shiftedMask 10 (-3) (-3) 255)
      as (b & E & Hx & Hy & HX & HY & Hw & Hh & _).
    + vm_compute. reflexivity.
    + vm_compute. reflexivity.
    + vm_compute. reflexivity.
    + lia.
    + apply qualifying_only. vm_compute. reflexivity.
    + exists b. repeat (split; [assumption |]). exact Hh.
  - destruct (Hone singlePixel 10 5 5 255)
      as (b & E & _ & _ & _ & _ & _ & _ & Hzero).
    + vm_compute. reflexivity.
    + vm_compute. reflexivity.
    + vm_compute. reflexivity.
    + lia.
    + apply qualifying_only. vm_compute. reflexivity.
    + exists b. split; [exact E |]. apply Hzero. lia.
  - intros b Hb. apply (Hgen testMask 10 b).
    + vm_compute. reflexivity.
    + vm_compute. discriminate.
    + vm_compute. discriminate.
    + vm_compute. discriminate.
    + vm_compute. discriminate.
    + exact Hb.
Defined.

(** A mask that starts at negative coordinates: the running maxima
    start at 0, so the single pixel (-3,-3) is reported with
    MaxX = MaxY = 0 and Width = Height = 3. *)
Lemma single_pixel_claim_fails : ~ Spec.single_pixel_claim.
Proof.
  intros H.
  destruct (H shiftedMask 10 (-3) (-3) 255) as (b & Hdet & Hx & _).
  - vm_compute. reflexivity.
  - vm_compute. reflexivity.
  - vm_compute. reflexivity.
  - lia.
  - apply qualifying_only. vm_compute. reflexivity.
  - vm_compute in Hdet. injection Hdet as <-.
    vm_compute in Hx. discriminate Hx.
Qed.

End CropFacts.


(** ** Sigmoid table and Otsu threshold *)

Section OtsuFacts.
Import GoSlice Rmbg.

(** Go's [math.Exp]; nothing is assumed about it. *)
Variable math_Exp : spec_float -> spec_float.

Lemma upd_nat_length {A : Type} (l : list A) (n : nat) (v : A) :
  length (upd_nat l n v) = length l.
Proof.
  revert n. induction l as [| h t IH]; intros [| n]; cbn; auto.
Qed.

Lemma upd_length {A : Type} (l : list A) (i : Z) (v : A) :
  length (upd l i v) = length l.
Proof.
  unfold upd. destruct (i <? 0); [reflexivity | apply upd_nat_length].
Qed.

Lemma nth_error_upd_nat_same {A : Type} (l : list A) (n : nat) (v : A) :
  (n < length l)%nat -> nth_error (upd_nat l n v) n = Some v.
Proof.
  revert n. induction l as [| h t IH]; intros [| n] Hn; cbn in *;
    try lia; [reflexivity | apply IH; lia].
Qed.

Lemma nth_error_upd_nat_other {A : Type} (l : list A) (n j : nat) (v : A) :
  n <> j -> nth_error (upd_nat l n v) j = nth_error l j.
Proof.
  revert n j. induction l as [| h t IH]; intros [| n] [| j] Hne; cbn;
    try reflexivity; try congruence.
  apply IH. congruence.
Qed.

(** Filling the first [n] elements of an array one by one. *)
Lemma fill_prefix {A : Type} (f : Z -> A) (n : nat) (l : list A) (j : nat) :
  (n <= length l)%nat ->
  nth_error (fold_left (fun l i => upd l i (f i)) (range 0 (Z.of_nat n)) l) j
  = if (j <? n)%nat then Some (f (Z.of_nat j)) else nth_error l j.
Proof.
  unfold range. rewrite Z.sub_0_r, Nat2Z.id.
  induction n as [| n IH]; intros Hn; [reflexivity |].
  rewrite seq_S, map_app, fold_left_app. cbn [map fold_left Nat.add].
  set (l' := fold_left _ _ l) in *.
  assert (Hlen : length l' = length l).
  { subst l'. clear. generalize (map (fun i : nat => 0 + Z.of_nat i) (seq 0 n)).
    intros ixs. revert l. induction ixs as [| i ixs IHixs]; intros l; cbn;
      [reflexivity | rewrite IHixs; apply upd_length]. }
  unfold upd. destruct (Z.ltb_spec (0 + Z.of_nat n) 0) as [Hneg | _]; [lia |].
  replace (Z.to_nat (0 + Z.of_nat n)) with n by lia.
  replace (f (0 + Z.of_nat n)) with (f (Z.of_nat n)) by (f_equal; lia).
  destruct (Nat.eq_dec n j) as [<- | Hne].
  - rewrite nth_error_upd_nat_same by lia.
    destruct (Nat.ltb_spec n (S n)); [reflexivity | lia].
  - rewrite nth_error_upd_nat_other by assumption.
    rewrite IH by lia.
    destruct (Nat.ltb_spec j n), (Nat.ltb_spec j (S n)); try reflexivity; lia.
Qed.

Lemma sigmoidLUT_length : length (sigmoidLUT math_Exp) = 256%nat.
Proof.
  unfold sigmoidLUT, init. generalize (range 0 255). intros ixs.
  assert (H : forall l : list spec_float,
             length (fold_left (fun l i => upd l i (sigmoidAt math_Exp i)) ixs l)
             = length l).
  { induction ixs as [| i ixs IH]; intros l; cbn;
      [reflexivity | rewrite IH; apply upd_length]. }
  rewrite H. apply repeat_length.
Qed.

(** What [init] leaves in the table: the sigmoid values at the indices
    0..254, and the zero value of the array at index 255. *)
Lemma sigmoidLUT_entries :
  (forall i, 0 <= i < 255 ->
             index (sigmoidLUT math_Exp) i = Some (sigmoidAt math_Exp i))
  /\ index (sigmoidLUT math_Exp) 255 = Some F32.zero.
Proof.
  assert (H : forall j : nat,
             nth_error (sigmoidLUT math_Exp) j
             = if (j <? 255)%nat then Some (sigmoidAt math_Exp (Z.of_nat j))
               else nth_error (repeat F32.zero 256) j).
  { intros j. unfold sigmoidLUT, init.
    change 255 with (Z.of_nat 255). apply fill_prefix.
    rewrite repeat_length. lia. }
  split.
  - intros i Hi. unfold index.
    destruct (Z.ltb_spec i 0); [lia |]. rewrite H.
    destruct (Nat.ltb_spec (Z.to_nat i) 255); [| lia].
    rewrite Z2Nat.id by lia. reflexivity.
  - unfold index. cbn [Z.ltb Z.compare]. rewrite H. reflexivity.
Qed.

Lemma index_in_range {A : Type} (l : list A) (i : Z) :
  0 <= i < Z.of_nat (length l) -> exists x, index l i = Some x.
Proof.
  intros Hi. unfold index. destruct (Z.ltb_spec i 0); [lia |].
  destruct (nth_error l (Z.to_nat i)) as [x |] eqn:E; [eauto |].
  apply nth_error_None in E. lia.
Qed.

Lemma index_out_of_range {A : Type} (l : list A) (i : Z) :
  ~ 0 <= i < Z.of_nat (length l) -> index l i = None.
Proof.
  intros Hi. unfold index. destruct (Z.ltb_spec i 0); [reflexivity |].
  apply nth_error_None. lia.
Qed.

Lemma count_after_panic (lut data : list spec_float) :
  fold_left (count lut) data None = None.
Proof. induction data as [| v data IH]; [reflexivity | exact IH]. Qed.

(** A value whose table index falls outside the table stops the
    histogram loop with an index-out-of-range panic. *)
Lemma histogram_panics (data : list spec_float) (v : spec_float) :
  In v data -> ~ 0 <= lutIndex v <= 255 ->
  histogram (sigmoidLUT math_Exp) data = None.
Proof.
  intros Hin Hv. unfold histogram. generalize (repeat 0 256).
  induction data as [| u data IH]; intros hist; [destruct Hin |].
  cbn [fold_left count].
  destruct Hin as [-> | Hin].
  - rewrite index_out_of_range; [apply count_after_panic |].
    rewrite sigmoidLUT_length. lia.
  - destruct (index (sigmoidLUT math_Exp) (lutIndex u));
      [apply IH; assumption | apply count_after_panic].
Qed.

Lemma histogram_returns (data : list spec_float) :
  (forall v, In v data -> 0 <= lutIndex v <= 255) ->
  exists hist, histogram (sigmoidLUT math_Exp) data = Some hist.
Proof.
  intros Hall. unfold histogram. generalize (repeat 0 256).
  induction data as [| u data IH]; intros hist; [eexists; reflexivity |].
  cbn [fold_left count].
  destruct (index_in_range (sigmoidLUT math_Exp) (lutIndex u)) as [s ->].
  - rewrite sigmoidLUT_length. specialize (Hall u (or_introl eq_refl)). lia.
  - apply IH. intros v Hv. apply Hall. now right.
Qed.




(** C3.  The table index is used as computed, without a clamp: the
    logit 7.0 gives index 276 and the logit -7.0 gives index -21, and
    [otsuThreshold] panics on either.  (The clamp in the loop is on the
    histogram bin, after the table has been read.) *)
Theorem otsu_index_not_clamped :
  lutIndex (F32.of_Z 7) = 276
  /\ otsuThreshold math_Exp [F32.of_Z 7] = None
  /\ lutIndex (F32.of_Z (-7)) = -21
  /\ otsuThreshold math_Exp [F32.of_Z (-7)] = None.
Proof.
  assert (H7 : lutIndex (F32.of_Z 7) = 276) by (vm_compute; reflexivity).
  assert (Hm7 : lutIndex (F32.of_Z (-7)) = -21) by (vm_compute; reflexivity).
  split; [exact H7 |]. split; [| split; [exact Hm7 |]]; unfold otsuThreshold.
  - rewrite (histogram_panics [F32.of_Z 7] (F32.of_Z 7));
      [reflexivity | now left | rewrite H7; lia].
  - rewrite (histogram_panics [F32.of_Z (-7)] (F32.of_Z (-7)));
      [reflexivity | now left | rewrite Hm7; lia].
Qed.

End OtsuFacts.

Section TableFacts.
Import GoSlice Rmbg Fixture.

(** C4.  [init] runs [for i := range 255]: it fills the entries 0..254
    with the sigmoid of the equally spaced points and never writes
    entry 255, which keeps the array's zero value.  With the library's
    [math.Exp] the filled entries are non-decreasing and inside (0, 1),
    entry 254 is about 0.9974, and the table drops to 0 at index 255,
    where the sigmoid of 6 would be about 0.9975. *)
Theorem sigmoidLUT_last_entry_unset :
  (forall math_Exp : spec_float -> spec_float,
      (forall i, 0 <= i < 255 ->
                 index (sigmoidLUT math_Exp) i = Some (sigmoidAt math_Exp i))
      /\ index (sigmoidLUT math_Exp) 255 = Some F32.zero)
  /\ (let lut := sigmoidLUT GoMath.Exp in
      forallb (fun i => F32.leb (at32 lut i) (at32 lut (i + 1))) (range 0 254) = true
      /\ forallb (fun i => F32.ltb F32.zero (at32 lut i) && F32.ltb (at32 lut i) c1)
                 (range 0 255) = true
      /\ at32 lut 254 = S754_finite false 16733739 (-24)
      /\ at32 lut 255 = F32.zero
      /\ F32.ltb (at32 lut 255) (at32 lut 254) = true)
  /\ sigmoidAt GoMath.Exp 255 = S754_finite false 16735733 (-24).
Proof.
  split; [intros math_Exp; apply sigmoidLUT_entries |].
  split; [| vm_compute; reflexivity].
  vm_compute. repeat split.
Qed.


End TableFacts.

(** ** Parallel compositor *)

Section BlendFacts.
Import GoSlice Rmbg.

Lemma writers_app (l1 l2 : list (Z * Z)) (y : Z) :
  writers (l1 ++ l2) y = (writers l1 y + writers l2 y)%nat.
Proof. unfold writers. rewrite filter_app, length_app. reflexivity. Qed.

Lemma writers_spawned (chunk dy i y : Z) :
  0 <= chunk <= 2 ^ 32 -> 0 <= i <= 2 ^ 29 ->
  writers (spawned chunk dy i) y
  = if (i * chunk <=? y) && (y <? Z.min (i * chunk + chunk) dy) then 2%nat else 0%nat.
Proof.
  intros Hc Hi. unfold spawned, GoInt.mul, GoInt.add.
  assert (Hm : 0 <= i * chunk <= 2 ^ 29 * 2 ^ 32) by nia.
  rewrite (wrap64_small (i * chunk))
    by (unfold GoInt.min_int, GoInt.max_int; lia).
  rewrite (wrap64_small (i * chunk + chunk))
    by (unfold GoInt.min_int, GoInt.max_int; lia).
  destruct (Z.leb_spec (Z.min (i * chunk + chunk) dy) (i * chunk)) as [He | He].
  - cbn. destruct (Z.leb_spec (i * chunk) y), (Z.ltb_spec y (Z.min (i * chunk + chunk) dy));
      cbn; try reflexivity; lia.
  - unfold writers. cbn [filter fst snd].
    destruct (Z.leb_spec (i * chunk) y), (Z.ltb_spec y (Z.min (i * chunk + chunk) dy));
      cbn; reflexivity.
Qed.

(** After the first [k] chunks, the rows below [min (k * chunk) dy]
    have been handed out twice each and no other row has been. *)
Lemma writers_prefix (chunk dy y : Z) (k : nat) :
  0 <= chunk <= 2 ^ 32 -> Z.of_nat k <= 2 ^ 29 -> 0 <= y ->
  writers (flat_map (spawned chunk dy) (range 0 (Z.of_nat k))) y
  = if y <? Z.min (Z.of_nat k * chunk) dy then 2%nat else 0%nat.
Proof.
  intros Hc Hk Hy. unfold range. rewrite Z.sub_0_r, Nat2Z.id.
  induction k as [| k IH].
  - cbn. destruct (Z.ltb_spec y (Z.min 0 dy)); [lia | reflexivity].
  - rewrite seq_S, map_app, flat_map_app, writers_app, IH by lia.
    cbn [map flat_map Nat.add]. rewrite app_nil_r.
    rewrite writers_spawned by lia.
    replace (0 + Z.of_nat k) with (Z.of_nat k) by lia.
    replace (Z.of_nat (S k) * chunk) with (Z.of_nat k * chunk + chunk) by lia.
    assert (Hkc : 0 <= Z.of_nat k * chunk) by nia.
    destruct (Z.ltb_spec y (Z.min (Z.of_nat k * chunk) dy)),
             (Z.leb_spec (Z.of_nat k * chunk) y),
             (Z.ltb_spec y (Z.min (Z.of_nat k * chunk + chunk) dy));
      cbn; try reflexivity; lia.
Qed.

(** C2.  [blendParallel] cuts the rows 0..dy-1 into disjoint chunks,
    one per CPU, but starts two units of work for every non-empty chunk:
    every destination row is written by exactly two concurrent units,
    not by exactly one. *)
Theorem blend_rows_written_twice (numCPU dy : Z) :
  1 <= numCPU <= 2 ^ 29 -> 0 <= dy <= 2 ^ 31 ->
  exists units,
    blendParallel numCPU dy = Some units
    /\ (forall y, 0 <= y < dy -> writers units y = 2%nat)
    /\ (forall y, dy <= y -> writers units y = 0%nat).
Proof.
  intros Hn Hd. unfold blendParallel, GoInt.div, GoInt.add, GoInt.sub.
  destruct (Z.eqb_spec numCPU 0) as [H0 | _]; [lia |].
  rewrite (wrap64_small (dy + numCPU))
    by (unfold GoInt.min_int, GoInt.max_int; lia).
  rewrite (wrap64_small (dy + numCPU - 1))
    by (unfold GoInt.min_int, GoInt.max_int; lia).
  rewrite Z.quot_div_nonneg by lia.
  pose proof (Z.div_mod (dy + numCPU - 1) numCPU ltac:(lia)) as Hdm.
  pose proof (Z.mod_pos_bound (dy + numCPU - 1) numCPU ltac:(lia)) as Hmb.
  set (chunk := (dy + numCPU - 1) / numCPU) in *.
  assert (Hc0 : 0 <= chunk) by (apply Z.div_pos; lia).
  assert (Hc1 : chunk <= 2 ^ 32) by nia.
  rewrite (wrap64_small chunk) by (unfold GoInt.min_int, GoInt.max_int; lia).
  eexists. split; [reflexivity |].
  assert (Hrange : range 0 numCPU = range 0 (Z.of_nat (Z.to_nat numCPU)))
    by (rewrite Z2Nat.id by lia; reflexivity).
  rewrite Hrange.
  split; intros y Hy; rewrite writers_prefix by lia;
    rewrite Z2Nat.id by lia.
  - destruct (Z.ltb_spec y (Z.min (numCPU * chunk) dy)); [reflexivity | nia].
  - destruct (Z.ltb_spec y (Z.min (numCPU * chunk) dy)); [lia | reflexivity].
Qed.

Lemma blend_rows_written_twice_witness :
  exists units,
    blendParallel 4 10 = Some units
    /\ writers units 0 = 2%nat /\ writers units 9 = 2%nat
    /\ writers units 10 = 0%nat.
Proof.
  destruct (blend_rows_written_twice 4 10) as (units & Hu & Hin & Hout);
    [lia | lia |].
  exists units. split; [exact Hu |].
  split; [apply Hin; lia |]. split; [apply Hin; lia | apply Hout; lia].
Defined.

End BlendFacts.

(** ** Background-distance mask *)

Section MaskFacts.
Import Image Mask Fixture.

(** C8.  On a 1x1 [*image.RGBA] holding an opaque white pixel, with
    white as the reference colour and tolerance 1, the packed path marks
    the pixel 255 and the generic per-pixel loop marks it 0.  The packed
    path widens a byte [c] to [c << 8] (65280 for 255) where
    [At(x, y).RGBA()] gives [c | c<<8] (65535), so a pixel equal to the
    reference colour is at squared distance 3 x 255^2 = 195075, above
    1 x 257^2 = 66049. *)
Theorem packed_path_differs_from_generic :
  let img := ImgRGBA white1 in
  let tolerance := F64.of_Z 1 in
  exists fast slow,
    MaskFromBackground img 65535 65535 65535 tolerance = Some fast
    /\ genericFromBackground (Bounds_of img) (At img) 65535 65535 65535
                             (toleranceSq tolerance) = Some slow
    /\ At img 0 0 = Some (65535, 65535, 65535, 65535)
    /\ GrayAt fast 0 0 = Some 255
    /\ GrayAt slow 0 0 = Some 0.
Proof.
  cbv zeta. eexists. eexists.
  split; [vm_compute; reflexivity |].
  split; [vm_compute; reflexivity |].
  split; [vm_compute; reflexivity |].
  split; vm_compute; reflexivity.
Qed.

End MaskFacts.

(** ** Further properties of the code *)

Section Further.
Import GoSlice Image Crop Rmbg Fixture.

(** [otsuThreshold] returns exactly when every value indexes inside the
    table; it panics otherwise. *)
Theorem otsu_returns_iff
    (math_Exp : spec_float -> spec_float) (data : list spec_float) :
  (exists r, otsuThreshold math_Exp data = Some r)
  <-> (forall v, In v data -> 0 <= lutIndex v <= 255).
Proof.
  split.
  - intros [r Hr] v Hv.
    destruct (Z_le_dec 0 (lutIndex v)) as [H0 |];
      [destruct (Z_le_dec (lutIndex v) 255) as [H1 |]; [lia |] |];
      exfalso; unfold otsuThreshold in Hr;
      rewrite (histogram_panics math_Exp data v Hv) in Hr by lia;
      discriminate Hr.
  - intros Hall.
    destruct (histogram_returns math_Exp data Hall) as [hist Hh].
    unfold otsuThreshold. rewrite Hh. eauto.
Qed.

(** [clamp] lands inside a non-empty interval and leaves a value of the
    interval alone. *)
Theorem clamp_in_range (v lo hi : Z) :
  lo <= hi ->
  lo <= clamp v lo hi <= hi /\ (lo <= v <= hi -> clamp v lo hi = v).
Proof.
  intros Hlh. unfold clamp.
  destruct (Z.ltb_spec v lo), (Z.ltb_spec hi v); lia.
Qed.

Lemma clamp_in_range_witness :
  0 <= clamp 11 0 10 <= 10 /\ (0 <= 5 <= 10 -> clamp 5 0 10 = 5).
Proof.
  split.
  - apply (clamp_in_range 11 0 10). lia.
  - apply (clamp_in_range 5 0 10). lia.
Defined.

Lemma half_small (d : Z) :
  0 <= d <= 2 ^ 32 -> GoInt.half d = d / 2.
Proof.
  intros Hd. unfold GoInt.half.
  rewrite Z.quot_div_nonneg by lia.
  apply wrap64_small. unfold GoInt.min_int, GoInt.max_int.
  pose proof (Z.div_pos d 2). pose proof (Z.div_le_upper_bound d 2 (2 ^ 32)).
  lia.
Qed.

(** The square adjustment, away from the image edges: the two sides end
    up equal when their difference is even, and one apart when it is
    odd. *)
Theorem squareCrop_unclipped (origW origH x0 y0 x1 y1 : Z) :
  0 <= x0 <= x1 -> x1 <= origW -> 0 <= y0 <= y1 -> y1 <= origH ->
  origW <= 2 ^ 31 -> origH <= 2 ^ 31 ->
  let w := x1 - x0 in
  let h := y1 - y0 in
  let d := Z.abs (w - h) / 2 in
  (h < w -> 0 <= y0 - d /\ y1 + d <= origH) ->
  (w < h -> 0 <= x0 - d /\ x1 + d <= origW) ->
  let '(x0', y0', x1', y1') := squareCrop origW origH (x0, y0, x1, y1) in
  Z.abs ((x1' - x0') - (y1' - y0')) = Z.abs (w - h) mod 2.
Proof.
  intros Hx Hxw Hy Hyh HW HH w h d Hc1 Hc2. unfold squareCrop.
  assert (Ew : w = x1 - x0) by reflexivity.
  assert (Eh : h = y1 - y0) by reflexivity.
  assert (Ed : d = Z.abs (w - h) / 2) by reflexivity.
  clearbody w h d.
  assert (Hw : GoInt.sub x1 x0 = w)
    by (rewrite Ew; apply wrap64_small; unfold GoInt.min_int, GoInt.max_int; lia).
  assert (Hh : GoInt.sub y1 y0 = h)
    by (rewrite Eh; apply wrap64_small; unfold GoInt.min_int, GoInt.max_int; lia).
  rewrite Hw, Hh.
  pose proof (Z.div_mod (Z.abs (w - h)) 2 ltac:(lia)) as Hdm.
  pose proof (Z.mod_pos_bound (Z.abs (w - h)) 2 ltac:(lia)) as Hmb.
  rewrite <- Ed in Hdm.
  destruct (Z.ltb_spec h w) as [Hlt | Hge].
  - specialize (Hc1 Hlt). rewrite (Z.abs_eq (w - h)) in * by lia.
    assert (Hd : GoInt.sub w h = w - h)
      by (apply wrap64_small; unfold GoInt.min_int, GoInt.max_int; lia).
    rewrite Hd, half_small, <- Ed by lia.
    unfold GoInt.sub, GoInt.add.
    rewrite !wrap64_small by (unfold GoInt.min_int, GoInt.max_int; lia).
    rewrite Z.max_r, Z.min_r by lia.
    lia.
  - destruct (Z.ltb_spec w h) as [Hlt | Heq].
    + specialize (Hc2 Hlt).
      replace (Z.abs (w - h)) with (h - w) in * by lia.
      assert (Hd : GoInt.sub h w = h - w)
        by (apply wrap64_small; unfold GoInt.min_int, GoInt.max_int; lia).
      rewrite Hd, half_small, <- Ed by lia.
      unfold GoInt.sub, GoInt.add.
      rewrite !wrap64_small by (unfold GoInt.min_int, GoInt.max_int; lia).
      rewrite Z.max_r, Z.min_r by lia.
      lia.
    + replace (w - h) with 0 by lia. cbn. lia.
Qed.

Lemma squareCrop_unclipped_witness :
  let '(x0', y0', x1', y1') := squareCrop 100 100 (4, 4, 7, 6) in
  Z.abs ((x1' - x0') - (y1' - y0')) = 1.
Proof.
  apply (squareCrop_unclipped 100 100 4 4 7 6); cbv zeta; try lia.
  intros _. vm_compute. split; discriminate.
Defined.

End Further.

(** ** The package's tests, replayed on the model *)

Section Replay.
Import Image Crop Mask Rmbg Fixture.

(** [TestDetectObjectBounds]. *)
Example test_bounds_empty :
  detectObjectBounds emptyMask 10 = Some (noBounds, false).
Proof. vm_compute. reflexivity. Qed.

Example test_bounds_rectangle :
  detectObjectBounds
    (mask_of (paint emptyMask [(2, 2); (3, 2); (2, 3); (3, 3)] 255)) 10
  = Some (mkBounds 2 2 3 3 1 1 2 2, true).
Proof. vm_compute. reflexivity. Qed.

(** [TestCrop/SquareCrop]: a 10x0 object, an even difference. *)
Example test_crop_square :
  crop img100 (Some rectMask) (mkConfig 0 F64.zero 10 true) ten ten
  = Return (Rect 0 0 10 10).
Proof. vm_compute. reflexivity. Qed.

(** [TestClamp]. *)
Example test_clamp :
  map (fun '(v, lo, hi) => clamp v lo hi)
      [(5, 0, 10); (-1, 0, 10); (11, 0, 10); (0, 0, 10); (10, 0, 10)]
  = [5; 0; 10; 0; 10].
Proof. reflexivity. Qed.

(** [TestOtsuThreshold]: fifty logits -5.0 and fifty logits 5.0 fall in
    the bins 1 and 253, and the threshold is 1/255. *)
Example test_otsu :
  otsuThreshold GoMath.Exp
    (repeat (logit (-5) 0) 50 ++ repeat (logit 5 0) 50)
  = Some (F32.div (F32.of_Z 1) c255).
Proof. vm_compute. reflexivity. Qed.

(** [TestMaskFromBackground]: a white 10x10 image with a black square,
    white reference colour, tolerance 10. *)
Example test_mask_from_background :
  let black := [0; 0; 0; 255] in
  let white := [255; 255; 255; 255] in
  let pix := flat_map (fun p => if (4 <=? fst p) && (fst p <? 6)
                                   && (4 <=? snd p) && (snd p <? 6)
                                then black else white)
                      (coords (Rect 0 0 10 10)) in
  exists mask,
    MaskFromBackground (ImgRGBA (mkPacked pix 40 (Rect 0 0 10 10)))
                       65535 65535 65535 (F64.of_Z 10) = Some mask
    /\ GrayAt mask 0 0 = Some 0 /\ GrayAt mask 5 5 = Some 255.
Proof.
  cbv zeta. eexists. split; [vm_compute; reflexivity |].
  split; vm_compute; reflexivity.
Qed.

End Replay.

(** ** The detected box *)

Section BoxFacts.
Import Image Crop Fixture.

Lemma fold_mark_mono (l : list (Z * Z)) (s : scan) :
  minX (fold_left mark l s) <= minX s /\ maxX s <= maxX (fold_left mark l s)
  /\ minY (fold_left mark l s) <= minY s /\ maxY s <= maxY (fold_left mark l s).
Proof.
  revert s. induction l as [| [x y] l IH]; intros s; cbn [fold_left]; [lia |].
  specialize (IH (mark s (x, y))).
  change (minX (mark s (x, y))) with (Z.min (minX s) x) in IH.
  change (maxX (mark s (x, y))) with (Z.max (maxX s) x) in IH.
  change (minY (mark s (x, y))) with (Z.min (minY s) y) in IH.
  change (maxY (mark s (x, y))) with (Z.max (maxY s) y) in IH.
  lia.
Qed.

Lemma fold_mark_covers (l : list (Z * Z)) (s : scan) (x y : Z) :
  In (x, y) l ->
  minX (fold_left mark l s) <= x <= maxX (fold_left mark l s)
  /\ minY (fold_left mark l s) <= y <= maxY (fold_left mark l s).
Proof.
  revert s. induction l as [| [x' y'] l IH]; intros s Hin; [destruct Hin |].
  cbn [fold_left]. destruct Hin as [Heq | Hin].
  - injection Heq as -> ->.
    pose proof (fold_mark_mono l (mark s (x, y))) as Hm.
    change (minX (mark s (x, y))) with (Z.min (minX s) x) in Hm.
    change (maxX (mark s (x, y))) with (Z.max (maxX s) x) in Hm.
    change (minY (mark s (x, y))) with (Z.min (minY s) y) in Hm.
    change (maxY (mark s (x, y))) with (Z.max (maxY s) y) in Hm.
    lia.
  - apply IH. exact Hin.
Qed.

(** Each running extreme is either the starting value or the coordinate
    of a marked point. *)
Lemma fold_mark_attained (l : list (Z * Z)) (s : scan) :
  let r := fold_left mark l s in
  (minX r = minX s \/ exists y, In (minX r, y) l)
  /\ (maxX r = maxX s \/ exists y, In (maxX r, y) l)
  /\ (minY r = minY s \/ exists x, In (x, minY r) l)
  /\ (maxY r = maxY s \/ exists x, In (x, maxY r) l).
Proof.
  cbv zeta. revert s.
  induction l as [| [x y] l IH]; intros s; cbn [fold_left]; [tauto |].
  destruct (IH (mark s (x, y))) as (H1 & H2 & H3 & H4).
  change (minX (mark s (x, y))) with (Z.min (minX s) x) in H1.
  change (maxX (mark s (x, y))) with (Z.max (maxX s) x) in H2.
  change (minY (mark s (x, y))) with (Z.min (minY s) y) in H3.
  change (maxY (mark s (x, y))) with (Z.max (maxY s) y) in H4.
  repeat split.
  - destruct H1 as [H1 | [y' H1]]; [| right; exists y'; now right].
    destruct (Z.min_spec (minX s) x) as [[_ E] | [_ E]]; rewrite E in H1;
      [left; exact H1 | right; exists y; left; now rewrite H1].
  - destruct H2 as [H2 | [y' H2]]; [| right; exists y'; now right].
    destruct (Z.max_spec (maxX s) x) as [[_ E] | [_ E]]; rewrite E in H2;
      [right; exists y; left; now rewrite H2 | left; exact H2].
  - destruct H3 as [H3 | [x' H3]]; [| right; exists x'; now right].
    destruct (Z.min_spec (minY s) y) as [[_ E] | [_ E]]; rewrite E in H3;
      [left; exact H3 | right; exists x; left; now rewrite H3].
  - destruct H4 as [H4 | [x' H4]]; [| right; exists x'; now right].
    destruct (Z.max_spec (maxY s) y) as [[_ E] | [_ E]]; rewrite E in H4;
      [right; exists x; left; now rewrite H4 | left; exact H4].
Qed.

(** On a mask that starts at non-negative coordinates, a successful
    detection returns the smallest box around the pixels at or above
    the threshold: every such pixel lies inside it, and each of its four
    sides passes through one of them. *)
Theorem detected_box_is_tight (mask : Gray) (thr : Z) (b : objectBounds) :
  Gray_ok mask ->
  0 <= X (Min (Bounds mask)) -> 0 <= Y (Min (Bounds mask)) ->
  detectObjectBounds mask thr = Some (b, true) ->
  let hit x y := PtIn x y (Bounds mask) = true
                 /\ exists v, GrayAt mask x y = Some v /\ thr <= v in
  (forall x y, hit x y -> MinX b <= x <= MaxX b /\ MinY b <= y <= MaxY b)
  /\ (exists y, hit (MinX b) y) /\ (exists y, hit (MaxX b) y)
  /\ (exists x, hit x (MinY b)) /\ (exists x, hit x (MaxY b)).
Proof.
  intros Hok Hx0 Hy0 Hdet hit. unfold detectObjectBounds in Hdet.
  rewrite (scan_qualifying mask thr Hok) in Hdet.
  assert (Hhit : forall x y, In (x, y) (qualifying mask thr) <-> hit x y)
    by (intros x y; apply in_qualifying).
  set (l := qualifying mask thr) in *.
  set (s0 := scan_init (Bounds mask)) in *.
  pose proof (found_after_marks l s0) as Hf.
  destruct (foundPixel (fold_left mark l s0)) eqn:Ef; cbn [negb] in Hdet;
    [| discriminate].
  injection Hdet as <-. cbn [MinX MaxX MinY MaxY].
  destruct l as [| [px py] l'] eqn:El; [discriminate Hf |]. rewrite <- El in *.
  assert (Hp : In (px, py) l) by (rewrite El; now left).
  pose proof (fold_mark_covers l s0 px py Hp) as Hc.
  assert (Hpin : PtIn px py (Bounds mask) = true) by (apply Hhit in Hp; apply Hp).
  apply PtIn_spec in Hpin.
  destruct (fold_mark_attained l s0) as (A1 & A2 & A3 & A4).
  split; [| repeat split].
  - intros x y Hxy. apply fold_mark_covers. apply Hhit. exact Hxy.
  - destruct A1 as [A1 | [y A1]]; [| exists y; apply Hhit; exact A1].
    exfalso. subst s0. cbn in A1. lia.
  - destruct A2 as [A2 | [y A2]]; [| exists y; apply Hhit; exact A2].
    exists py. apply Hhit. subst s0. cbn in A2.
    replace (maxX (fold_left mark l (scan_init (Bounds mask)))) with px by lia.
    exact Hp.
  - destruct A3 as [A3 | [x A3]]; [| exists x; apply Hhit; exact A3].
    exfalso. subst s0. cbn in A3. lia.
  - destruct A4 as [A4 | [x A4]]; [| exists x; apply Hhit; exact A4].
    exists px. apply Hhit. subst s0. cbn in A4.
    replace (maxY (fold_left mark l (scan_init (Bounds mask)))) with py by lia.
    exact Hp.
Qed.

Lemma detected_box_is_tight_witness :
  exists b, detectObjectBounds testMask 10 = Some (b, true)
    /\ (forall x y,
           (PtIn x y (Bounds testMask) = true
            /\ exists v, GrayAt testMask x y = Some v /\ 10 <= v) ->
           MinX b <= x <= MaxX b /\ MinY b <= y <= MaxY b).
Proof.
  eexists. split; [vm_compute; reflexivity |].
  destruct (detected_box_is_tight testMask 10
              (mkBounds 4 4 6 6 2 2 5 5)) as (H1 & _).
  - vm_compute. reflexivity.
  - vm_compute. discriminate.
  - vm_compute. discriminate.
  - vm_compute. reflexivity.
  - exact H1.
Defined.

End BoxFacts.

(** ** Otsu threshold on a histogram with a single class *)

Section OtsuDegenerate.
Import GoSlice Rmbg Shape.

Variable math_Exp : spec_float -> spec_float.

Lemma nth_upd_nat_same (l : list Z) (n : nat) (v : Z) :
  (n < length l)%nat -> nth n (upd_nat l n v) 0 = v.
Proof.
  revert n. induction l as [| h t IH]; intros [| n] Hn; cbn in *;
    try lia. apply IH. lia.
Qed.

Lemma nth_upd_nat_other (l : list Z) (n j : nat) (v : Z) :
  n <> j -> nth j (upd_nat l n v) 0 = nth j l 0.
Proof.
  revert n j. induction l as [| h t IH]; intros [| n] [| j] Hne; cbn;
    try reflexivity; try congruence.
  apply IH. congruence.
Qed.

Lemma at_upd (l : list Z) (i j v : Z) :
  0 <= i < Z.of_nat (length l) -> 0 <= j ->
  at_ (upd l i v) j = if i =? j then v else at_ l j.
Proof.
  intros Hi Hj. unfold at_, upd.
  destruct (Z.ltb_spec i 0); [lia |].
  destruct (Z.eqb_spec i j) as [<- | Hne].
  - apply nth_upd_nat_same. lia.
  - apply nth_upd_nat_other. lia.
Qed.

Lemma binOf_range (s : spec_float) : 0 <= binOf s <= 255.
Proof. unfold binOf. lia. Qed.

Lemma histogram_single_bin (lut data : list spec_float) (b : Z) :
  Z.of_nat (length data) < 2 ^ 62 ->
  (forall v, In v data ->
             exists s, index lut (lutIndex v) = Some s /\ binOf s = b) ->
  0 <= b <= 255 ->
  exists hist, histogram lut data = Some hist
               /\ only_bin b (Z.of_nat (length data)) hist.
Proof.
  intros Hlen Hall Hb. unfold histogram.
  assert (H : forall (d : list spec_float) (h : list Z) (k : Z),
             0 <= k -> k + Z.of_nat (length d) < 2 ^ 62 ->
             (forall v, In v d ->
                        exists s, index lut (lutIndex v) = Some s /\ binOf s = b) ->
             only_bin b k h ->
             exists hist, fold_left (count lut) d (Some h) = Some hist
                          /\ only_bin b (k + Z.of_nat (length d)) hist).
  { induction d as [| v d IH]; intros h k Hk Hsum Hd Hh.
    - exists h. cbn. rewrite Z.add_0_r. auto.
    - cbn [fold_left count].
      destruct (Hd v (or_introl eq_refl)) as (s & -> & Hs). rewrite Hs.
      destruct Hh as [Hl Hat].
      cbn [length] in Hsum.
      destruct (IH (upd h b (GoInt.add (at_ h b) 1)) (k + 1)) as (hist & Hf & Ho).
      + lia.
      + lia.
      + intros u Hu. apply Hd. now right.
      + split; [rewrite upd_length; exact Hl |].
        intros t Ht. rewrite at_upd by lia.
        rewrite (Hat b) by lia. rewrite Z.eqb_refl.
        destruct (Z.eqb_spec b t) as [E | E].
        * unfold GoInt.add. apply wrap64_small.
          unfold GoInt.min_int, GoInt.max_int. lia.
        * rewrite Hat by lia.
          destruct (Z.eqb_spec b t); [contradiction | reflexivity].
      + exists hist. split; [exact Hf |].
        replace (k + Z.of_nat (length (v :: d)))
          with (k + 1 + Z.of_nat (length d)) by (cbn [length]; lia).
        exact Ho. }
  destruct (H data (repeat 0 256) 0) as (hist & Hf & Ho); try lia; try assumption.
  - split; [apply repeat_length |].
    intros t Ht. unfold at_.
    destruct (Z.eqb_spec b t); apply nth_repeat.
  - exists hist. split; [exact Hf | exact Ho].
Qed.

(** With all the mass in one bin no candidate split has a class on each
    side: the search never records a split. *)
Lemma selectSplit_single_bin (hist : list Z) (b k : Z) :
  only_bin b k hist -> 0 <= k < 2 ^ 62 -> selectSplit hist k = 0.
Proof.
  intros [_ Hat] Hk. unfold selectSplit.
  set (sum := fold_left _ _ 0). clearbody sum.
  assert (H : forall (ts : list Z) (st : search),
             (forall t, In t ts -> 0 <= t) ->
             threshold st = 0 -> (stopped st = true \/ wB st = 0) ->
             threshold (fold_left (try_split hist k sum) ts st) = 0).
  { induction ts as [| t ts IH]; intros st Hts Hth Hst; [exact Hth |].
    cbn [fold_left]. apply IH.
    - intros u Hu. apply Hts. now right.
    - unfold try_split. destruct (stopped st) eqn:Es; [exact Hth |].
      destruct Hst as [Hst | Hw]; [discriminate |].
      rewrite Hw, (Hat t) by (apply Hts; now left).
      destruct (Z.eqb_spec b t).
      + unfold GoInt.add, GoInt.sub. rewrite Z.add_0_l.
        rewrite (wrap64_small k)
          by (unfold GoInt.min_int, GoInt.max_int; lia).
        destruct (Z.eqb_spec k 0); [exact Hth |].
        rewrite Z.sub_diag. cbn. exact Hth.
      + cbn. exact Hth.
    - unfold try_split. destruct (stopped st) eqn:Es; [now left |].
      destruct Hst as [Hst | Hw]; [discriminate |].
      rewrite Hw, (Hat t) by (apply Hts; now left).
      destruct (Z.eqb_spec b t).
      + unfold GoInt.add, GoInt.sub. rewrite Z.add_0_l.
        rewrite (wrap64_small k)
          by (unfold GoInt.min_int, GoInt.max_int; lia).
        destruct (Z.eqb_spec k 0) as [-> | Hk0]; [right; reflexivity |].
        rewrite Z.sub_diag. cbn. now left.
      + cbn. now right. }
  apply H.
  - intros t Ht. apply in_range_iff in Ht. lia.
  - reflexivity.
  - now right.
Qed.

(** When every value of the input falls in one and the same histogram
    bin, or the input is empty, [otsuThreshold] returns 0: the value 0
    is also what the search returns when it finds no split at all. *)
Theorem otsu_single_class (data : list spec_float) (b : Z) :
  Z.of_nat (length data) < 2 ^ 62 ->
  (forall v, In v data ->
             exists s, index (sigmoidLUT math_Exp) (lutIndex v) = Some s
                       /\ binOf s = b) ->
  otsuThreshold math_Exp data = Some F32.zero.
Proof.
  intros Hlen Hall.
  set (b' := match data with
             | [] => 0
             | v :: _ => b
             end).
  assert (Hb' : 0 <= b' <= 255).
  { subst b'. destruct data as [| v d]; [lia |].
    destruct (Hall v (or_introl eq_refl)) as (s & _ & <-). apply binOf_range. }
  assert (Hall' : forall v, In v data ->
             exists s, index (sigmoidLUT math_Exp) (lutIndex v) = Some s
                       /\ binOf s = b').
  { subst b'. destruct data; [intros v [] | exact Hall]. }
  destruct (histogram_single_bin (sigmoidLUT math_Exp) data b' Hlen Hall' Hb')
    as (hist & Hh & Ho).
  unfold otsuThreshold. rewrite Hh.
  rewrite (selectSplit_single_bin hist b' _ Ho) by lia.
  reflexivity.
Qed.

End OtsuDegenerate.

Section OtsuDegenerateWitness.
Import GoSlice Rmbg Fixture Shape.

Lemma otsu_single_class_witness :
  otsuThreshold GoMath.Exp [logit 3 0; logit 3 0; logit 3 0] = Some F32.zero.
Proof.
  apply (otsu_single_class GoMath.Exp _ 242).
  - cbn. lia.
  - intros v [<- | [<- | [<- | []]]]; eexists;
      (split; [vm_compute; reflexivity | vm_compute; reflexivity]).
Defined.

End OtsuDegenerateWitness.

(** ** Uniform-background detection *)

Section BackgroundFacts.
Import Image Background.

(** Remove the wrap-around of the innermost operations whose exact
    result is in range. *)
Ltac no_wrap :=
  repeat match goal with
         | |- context [GoInt.wrap64 ?z] =>
             lazymatch z with
             | context [GoInt.wrap64 _] => fail
             | _ => rewrite (wrap64_small z)
                      by (unfold GoInt.min_int, GoInt.max_int; lia)
             end
         end.

(** When the six sampled points all show one colour, the verdict is
    "uniform" and the colour returned is that colour, each 16-bit
    channel brought back to a byte by division by 257. *)
Theorem uniform_when_samples_agree (bounds : Rectangle)
    (at_rgba : Z -> Z -> option (Z * Z * Z * Z)) (r g b : Z) :
  0 <= r <= 65535 -> 0 <= g <= 65535 -> 0 <= b <= 65535 ->
  (forall p, In p (samples bounds) ->
             exists a, at_rgba (fst p) (snd p) = Some (r, g, b, a)) ->
  detectUniformBackground bounds at_rgba
  = Some ((r / 257, g / 257, b / 257, 255), true).
Proof.
  intros Hr Hg Hb Hall.
  assert (Hs : forall pts, (forall p, In p pts -> In p (samples bounds)) ->
                 sampled at_rgba pts = Some (map (fun _ => (r, g, b)) pts)).
  { induction pts as [| [x y] pts IH]; intros Hsub; [reflexivity |].
    cbn [sampled map].
    destruct (Hall (x, y) (Hsub _ (or_introl eq_refl))) as [a Ha].
    cbn [fst snd] in Ha. rewrite Ha, IH; [reflexivity |].
    intros p Hp. apply Hsub. now right. }
  unfold detectUniformBackground. rewrite Hs by auto.
  unfold samples. cbn [map length fst snd].
  unfold sum64, variance, quot64, uint8. cbn [fold_left Z.of_nat Pos.of_succ_nat Pos.succ].
  unfold GoInt.add, GoInt.sub, GoInt.mul.
  rewrite !Z.add_0_l. no_wrap.
  assert (H6 : forall c, 0 <= c <= 65535 -> Z.quot (c + c + c + c + c + c) 6 = c).
  { intros c Hc. rewrite Z.quot_div_nonneg by lia.
    symmetry. apply Z.div_unique with (r := 0); lia. }
  rewrite !H6 by assumption. no_wrap.
  rewrite !Z.sub_diag. cbn [Z.mul Z.add]. no_wrap.
  assert (Hq : forall c, 0 <= c <= 65535 ->
                 GoInt.wrap64 (Z.quot c 257) mod 256 = c / 257).
  { intros c Hc. rewrite Z.quot_div_nonneg by lia.
    pose proof (Z.div_pos c 257 ltac:(lia) ltac:(lia)).
    pose proof (Z.div_lt_upper_bound c 257 256 ltac:(lia) ltac:(lia)).
    rewrite wrap64_small by (unfold GoInt.min_int, GoInt.max_int; lia).
    apply Z.mod_small. lia. }
  rewrite !Hq by assumption. reflexivity.
Qed.

Lemma sampled_length (at_rgba : Z -> Z -> option (Z * Z * Z * Z))
    (pts : list (Z * Z)) (pixels : list (Z * Z * Z)) :
  sampled at_rgba pts = Some pixels -> length pixels = length pts.
Proof.
  revert pixels. induction pts as [| [x y] pts IH]; intros pixels H; cbn in H.
  - injection H as <-. reflexivity.
  - destruct (at_rgba x y) as [[[[r g] b] a] |]; [| discriminate].
    destruct (sampled at_rgba pts) as [l |]; [| discriminate].
    injection H as <-. cbn. f_equal. apply IH. reflexivity.
Qed.

Lemma sum64_exact (l : list Z) (acc : Z) :
  0 <= acc -> acc + 65535 * Z.of_nat (length l) < 2 ^ 62 ->
  (forall c, In c l -> 0 <= c <= 65535) ->
  acc <= fold_left GoInt.add l acc <= acc + 65535 * Z.of_nat (length l).
Proof.
  revert acc. induction l as [| c l IH]; intros acc Ha Hb Hl; cbn [fold_left].
  - cbn. lia.
  - pose proof (Hl c (or_introl eq_refl)) as Hc.
    cbn [length] in *. rewrite Nat2Z.inj_succ in *.
    replace (GoInt.add acc c) with (acc + c)
      by (unfold GoInt.add; rewrite wrap64_small;
          [reflexivity | unfold GoInt.min_int, GoInt.max_int; lia]).
    assert (Htl : forall d, In d l -> 0 <= d <= 65535)
      by (intros d Hd; apply Hl; now right).
    destruct (IH (acc + c) ltac:(lia) ltac:(lia) Htl) as [I1 I2].
    lia.
Qed.

(** The summed squared deviations are computed without overflow, and
    every sample's share is part of the total. *)
Lemma variance_covers (l : list (Z * Z * Z)) (rA gA bA acc : Z) :
  0 <= rA <= 65535 -> 0 <= gA <= 65535 -> 0 <= bA <= 65535 ->
  (forall r g b, In (r, g, b) l ->
                 0 <= r <= 65535 /\ 0 <= g <= 65535 /\ 0 <= b <= 65535) ->
  0 <= acc -> acc + 2 ^ 34 * Z.of_nat (length l) < 2 ^ 62 ->
  let step := fun a (p : Z * Z * Z) =>
    let '(r, g, b) := p in
    let dr := GoInt.sub r rA in
    let dg := GoInt.sub g gA in
    let db := GoInt.sub b bA in
    GoInt.add a (GoInt.add (GoInt.add (GoInt.mul dr dr) (GoInt.mul dg dg))
                           (GoInt.mul db db)) in
  acc <= fold_left step l acc
  /\ forall r g b, In (r, g, b) l ->
       acc + ((r - rA) * (r - rA) + (g - gA) * (g - gA) + (b - bA) * (b - bA))
       <= fold_left step l acc.
Proof.
  intros HrA HgA HbA. cbv zeta. revert acc.
  induction l as [| [[r g] b] l IH]; intros acc Hl Ha Hb; cbn [fold_left].
  - split; [lia | intros r g b []].
  - destruct (Hl r g b (or_introl eq_refl)) as (Hr & Hg & Hbb).
    cbn [length] in Hb.
    assert (Hsq : forall u v, 0 <= u <= 65535 -> 0 <= v <= 65535 ->
                    0 <= (u - v) * (u - v) <= 65535 * 65535).
    { intros u v Hu Hv. split; [apply Z.square_nonneg |].
      assert (0 <= (65535 - (u - v)) * (65535 + (u - v)))
        by (apply Z.mul_nonneg_nonneg; lia).
      lia. }
    pose proof (Hsq r rA Hr HrA). pose proof (Hsq g gA Hg HgA).
    pose proof (Hsq b bA Hbb HbA).
    set (t := (r - rA) * (r - rA) + (g - gA) * (g - gA) + (b - bA) * (b - bA)).
    match goal with
    | |- context [fold_left ?F l ?a] =>
        assert (Ea : a = acc + t)
          by (unfold GoInt.sub, GoInt.mul, GoInt.add; no_wrap; reflexivity);
        rewrite Ea
    end.
    assert (Ht : 0 <= t <= 3 * (65535 * 65535)) by (unfold t; lia).
    rewrite Nat2Z.inj_succ in Hb.
    destruct (IH (acc + t) (fun r1 g1 b1 H1 => Hl r1 g1 b1 (or_intror H1))
                 ltac:(lia) ltac:(lia)) as [I1 I2].
    split; [lia |].
    intros r' g' b' [Heq | Hin].
    + injection Heq as <- <- <-. fold t. lia.
    + specialize (I2 r' g' b' Hin). lia.
Qed.

(** A "uniform" verdict bounds every sampled colour: its squared
    distance from the mean colour of the six samples is below 1.2e9, so
    no channel of a sample is further than 34641 (of 65535) from the
    mean. *)
Theorem uniform_verdict_bounds_samples (bounds : Rectangle)
    (at_rgba : Z -> Z -> option (Z * Z * Z * Z))
    (pixels : list (Z * Z * Z)) (bg : Z * Z * Z * Z) :
  sampled at_rgba (samples bounds) = Some pixels ->
  (forall r g b, In (r, g, b) pixels ->
                 0 <= r <= 65535 /\ 0 <= g <= 65535 /\ 0 <= b <= 65535) ->
  detectUniformBackground bounds at_rgba = Some (bg, true) ->
  let rAvg := quot64 (sum64 (map (fun p => fst (fst p)) pixels)) 6 in
  let gAvg := quot64 (sum64 (map (fun p => snd (fst p)) pixels)) 6 in
  let bAvg := quot64 (sum64 (map (fun p => snd p) pixels)) 6 in
  forall r g b, In (r, g, b) pixels ->
    (r - rAvg) * (r - rAvg) + (g - gAvg) * (g - gAvg) + (b - bAvg) * (b - bAvg)
    < 1200000000
    /\ Z.abs (r - rAvg) <= 34641 /\ Z.abs (g - gAvg) <= 34641
    /\ Z.abs (b - bAvg) <= 34641.
Proof.
  intros Hs Hrange Hdet rAvg gAvg bAvg.
  pose proof (sampled_length _ _ _ Hs) as Hlen.
  change (length (samples bounds)) with 6%nat in Hlen.
  assert (Havg : forall f : Z * Z * Z -> Z,
             (forall p, In p pixels -> 0 <= f p <= 65535) ->
             0 <= quot64 (sum64 (map f pixels)) 6 <= 65535).
  { intros f Hf. unfold quot64, sum64.
    pose proof (sum64_exact (map f pixels) 0) as He.
    rewrite length_map, Hlen in He.
    destruct He as [E1 E2]; [lia | cbn; lia | |].
    - intros c Hc. apply in_map_iff in Hc as (p & <- & Hp). auto.
    - set (s := fold_left GoInt.add (map f pixels) 0) in *.
      rewrite Z.quot_div_nonneg by lia.
      pose proof (Z.div_pos s 6 ltac:(lia) ltac:(lia)).
      pose proof (Z.div_le_upper_bound s 6 65535 ltac:(lia) ltac:(cbn in E2; lia)).
      rewrite wrap64_small by (unfold GoInt.min_int, GoInt.max_int; lia).
      lia. }
  assert (HrA : 0 <= rAvg <= 65535).
  { apply Havg. intros [[r g] b] Hp. cbn. apply (Hrange r g b Hp). }
  assert (HgA : 0 <= gAvg <= 65535).
  { apply Havg. intros [[r g] b] Hp. cbn. apply (Hrange r g b Hp). }
  assert (HbA : 0 <= bAvg <= 65535).
  { apply Havg. intros [[r g] b] Hp. cbn. apply (Hrange r g b Hp). }
  unfold detectUniformBackground in Hdet. rewrite Hs in Hdet.
  change (Z.of_nat (length (samples bounds))) with 6 in Hdet.
  cbv zeta in Hdet. fold rAvg gAvg bAvg in Hdet.
  injection Hdet as _ Hlt. apply Z.ltb_lt in Hlt.
  change (GoInt.mul 200000000 6) with 1200000000 in Hlt.
  destruct (variance_covers pixels rAvg gAvg bAvg 0 HrA HgA HbA Hrange)
    as [_ Hcov]; [lia | rewrite Hlen; cbn; lia |].
  cbv zeta in Hcov.
  intros r g b Hin. specialize (Hcov r g b Hin).
  unfold variance in Hlt.
  rewrite Z.add_0_l in Hcov.
  assert (Hd : (r - rAvg) * (r - rAvg) + (g - gAvg) * (g - gAvg)
               + (b - bAvg) * (b - bAvg) < 1200000000)
    by (eapply Z.le_lt_trans; [exact Hcov | exact Hlt]).
  clear Hcov Hlt Havg. clearbody rAvg gAvg bAvg.
  pose proof (Z.square_nonneg (r - rAvg)).
  pose proof (Z.square_nonneg (g - gAvg)).
  pose proof (Z.square_nonneg (b - bAvg)).
  split; [exact Hd |].
  repeat split; apply Z.abs_le; nia.
Qed.

Lemma uniform_when_samples_agree_witness :
  detectUniformBackground (Rect 0 0 3 3) (Mask.At (Mask.ImgRGBA Examples.frame3))
  = Some ((255, 255, 255, 255), true)
  /\ Mask.At (Mask.ImgRGBA Examples.frame3) 1 1 = Some (0, 0, 0, 65535).
Proof.
  split; [| vm_compute; reflexivity].
  apply (uniform_when_samples_agree (Rect 0 0 3 3)
           (Mask.At (Mask.ImgRGBA Examples.frame3)) 65535 65535 65535);
    try lia.
  intros p Hp. cbn in Hp.
  repeat (destruct Hp as [<- | Hp]; [eexists; vm_compute; reflexivity |]).
  destruct Hp.
Defined.

Lemma uniform_verdict_bounds_samples_witness :
  detectUniformBackground (Rect 0 0 2 2) (Mask.At (Mask.ImgRGBA Examples.light2))
  = Some ((252, 251, 250, 255), true)
  /\ Z.abs (62965 - 64892) <= 34641.
Proof.
  split; [vm_compute; reflexivity |].
  refine (proj1 (proj2 (uniform_verdict_bounds_samples (Rect 0 0 2 2)
            (Mask.At (Mask.ImgRGBA Examples.light2))
            [(64250, 64250, 64250); (65535, 65535, 65535);
             (62965, 64250, 65535); (65535, 64250, 62965);
             (65535, 65535, 65535); (65535, 64250, 62965)]
            (252, 251, 250, 255) _ _ _ 62965 64250 65535 _))).
  - vm_compute. reflexivity.
  - intros r g b Hin. cbn in Hin.
    repeat (destruct Hin as [Heq | Hin];
            [injection Heq as <- <- <-; lia |]).
    destruct Hin.
  - vm_compute. reflexivity.
  - cbn. auto 10.
Defined.

End BackgroundFacts.

(** ** The compositor's per-channel formula *)

Section BlendChannelFacts.
Import GoSlice Blend.

Lemma blend_table :
  forallb (fun m =>
    let alpha := F64.div (F64.of_Z m) (F64.of_Z 255) in
    let rest := F64.mul (F64.sub (F64.of_Z 1) alpha) (F64.of_Z 255) in
    forallb (fun k =>
      let z := F64.to_int (F64.add (F64.mul alpha (F64.of_Z k)) rest) in
      (Z.min k 254 <=? z) && (z <=? 255)
      && (if m =? 255 then z =? k else true)
      && (if m =? 0 then z =? 255 else true))
      (range 0 256))
    (range 0 256) = true.
Proof. vm_compute. reflexivity. Qed.

(** Every output channel of the compositor lies between the source
    channel's high byte and white: the value converted to [uint8] is
    an integer from 0 to 255, at least the source byte (or 254 for a
    source byte of 255) and at most 255.  A mask value of 255 gives the
    source byte itself, a mask value of 0 gives 255. *)
Theorem blend_channel_between (m c : Z) :
  0 <= m <= 255 -> 0 <= c <= 65535 ->
  F64.to_int (blendValue m c) = blendChannel m c
  /\ Z.min (Z.shiftr c 8) 254 <= blendChannel m c <= 255
  /\ blendChannel 255 c = Z.shiftr c 8
  /\ blendChannel 0 c = 255.
Proof.
  intros Hm Hc.
  assert (Hk : 0 <= Z.shiftr c 8 <= 255).
  { rewrite Z.shiftr_div_pow2 by lia. change (2 ^ 8) with 256.
    pose proof (Z.div_pos c 256 ltac:(lia) ltac:(lia)).
    pose proof (Z.div_lt_upper_bound c 256 256 ltac:(lia) ltac:(lia)). lia. }
  pose proof blend_table as T. rewrite forallb_forall in T.
  assert (At : forall m', 0 <= m' <= 255 ->
            let z := F64.to_int (blendValue m' c) in
            Z.min (Z.shiftr c 8) 254 <= z <= 255
            /\ (m' = 255 -> z = Z.shiftr c 8) /\ (m' = 0 -> z = 255)).
  { intros m' Hm'. specialize (T m' ltac:(apply in_range_iff; lia)).
    rewrite forallb_forall in T.
    specialize (T (Z.shiftr c 8) ltac:(apply in_range_iff; lia)).
    cbv zeta in T. fold (blendValue m' c) in T.
    set (z := F64.to_int (blendValue m' c)) in *. cbv zeta.
    rewrite !andb_true_iff, Z.leb_le, Z.leb_le in T.
    destruct T as [[[T1 T2] T3] T4].
    split; [lia |]. split; intros E; rewrite E in T3, T4.
    - apply Z.eqb_eq. exact T3.
    - apply Z.eqb_eq. exact T4. }
  assert (Hu : forall m', 0 <= m' <= 255 ->
            blendChannel m' c = F64.to_int (blendValue m' c)).
  { intros m' Hm'. destruct (At m' Hm') as [Hz _]. cbv zeta in Hz.
    unfold blendChannel, Background.uint8. apply Z.mod_small. lia. }
  split; [symmetry; apply Hu; lia |].
  rewrite !Hu by lia.
  destruct (At m Hm) as [Hz _].
  destruct (At 255 ltac:(lia)) as (_ & H255 & _).
  destruct (At 0 ltac:(lia)) as (_ & _ & H0).
  cbv zeta in *. auto.
Qed.

Lemma blend_channel_between_witness :
  Z.min (Z.shiftr 65535 8) 254 <= blendChannel 43 65535 <= 255.
Proof.
  apply (blend_channel_between 43 65535); lia.
Defined.

End BlendChannelFacts.

(** ** Reuse of pooled buffers *)

Section BufferReuse.
Import Buffer.

(** A buffer taken back from the pool is not cleared: when its
    capacity suffices, [get] returns the same two backing arrays, cut to
    the requested length, with whatever the last borrower wrote; only
    when the capacity is too small are two zeroed arrays allocated.  A
    negative size panics. *)
Theorem get_reuses_backing
    (p : blurBufferPool) (old : blurBuffer) (size : Z) :
  reachable p -> obtainable p old ->
  (size < 0 -> get old size = None)
  /\ (0 <= size <= cap (tmp old) ->
      get old size = Some (mkBuf (mkSlice (backing (tmp old)) size)
                                 (mkSlice (backing (hPass old)) size)))
  /\ (cap (tmp old) < size ->
      get old size = Some (mkBuf (mkSlice (repeat 0 (Z.to_nat size)) size)
                                 (mkSlice (repeat 0 (Z.to_nat size)) size))).
Proof.
  intros Hr Hob.
  assert (Hbal : balanced old).
  { destruct Hob as [-> | Hin]; [apply newBuffer_balanced |].
    apply reachable_pool_ok in Hr as [Hf _].
    rewrite Forall_forall in Hf. auto. }
  red in Hbal. pose proof (cap_nonneg (tmp old)) as Hc.
  unfold get, reslice, make. rewrite <- Hbal.
  split; [| split]; intros Hs.
  - destruct (Z.ltb_spec (cap (tmp old)) size); [lia |].
    destruct (Z.leb_spec 0 size); [lia |]. reflexivity.
  - destruct (Z.ltb_spec (cap (tmp old)) size); [lia |].
    destruct (Z.leb_spec 0 size); [| lia].
    destruct (Z.leb_spec size (cap (tmp old))); [| lia]. reflexivity.
  - destruct (Z.ltb_spec (cap (tmp old)) size); [| lia].
    destruct (Z.ltb_spec size 0); [lia |]. reflexivity.
Qed.

Lemma get_reuses_backing_witness :
  get Fixture.buf200 100
  = Some (mkBuf (mkSlice (backing (tmp Fixture.buf200)) 100)
                (mkSlice (backing (hPass Fixture.buf200)) 100)).
Proof.
  refine (proj1 (proj2 (get_reuses_backing
            (mkPool [Fixture.buf200] []) Fixture.buf200 100 _ _)) _).
  - apply (reach_step (mkPool [] [Fixture.buf200])).
    + apply (reach_step newBlurBufferPool); [apply reach_new |].
      apply (step_get_fresh newBlurBufferPool 200). reflexivity.
    + apply (step_put [] [] Fixture.buf200 []).
  - right. left. reflexivity.
  - vm_compute. split; discriminate.
Defined.

End BufferReuse.

(** ** Loops that fill a pixel buffer *)

Section FillFacts.
Import Image Shape.

Lemma range_snoc (lo hi : Z) : lo <= hi -> range lo (hi + 1) = range lo hi ++ [hi].
Proof.
  intros H. unfold range.
  replace (Z.to_nat (hi + 1 - lo)) with (S (Z.to_nat (hi - lo))) by lia.
  rewrite seq_S, map_app. cbn. f_equal. f_equal. lia.
Qed.

Lemma fold_left_ext_in {A B : Type} (f g : A -> B -> A) (l : list B) (a : A) :
  (forall a' x, In x l -> f a' x = g a' x) -> fold_left f l a = fold_left g l a.
Proof.
  revert a. induction l as [| x l IH]; intros a H; [reflexivity |].
  cbn. rewrite H by now left. apply IH. intros a' y Hy. apply H. now right.
Qed.

Lemma fold_left_none {A B : Type} (f : option A -> B -> option A) (l : list B) :
  (forall x, f None x = None) -> fold_left f l None = None.
Proof.
  intros H. induction l as [| x l IH]; [reflexivity |].
  cbn. rewrite H. exact IH.
Qed.

Lemma set_nth_spec {A : Type} (l : list A) (n : nat) (v : A) :
  (n < length l)%nat ->
  exists l', set_nth l n v = Some l' /\ length l' = length l
    /\ forall j, nth_error l' j = if (j =? n)%nat then Some v else nth_error l j.
Proof.
  revert n. induction l as [| h t IH]; intros [| n] Hn; cbn in Hn; try lia.
  - exists (v :: t). split; [reflexivity |]. split; [reflexivity |].
    intros [| j]; reflexivity.
  - destruct (IH n ltac:(lia)) as (t' & E & Hl & Hj).
    exists (h :: t'). cbn. rewrite E. split; [reflexivity |].
    split; [cbn; lia |].
    intros [| j]; [reflexivity |]. cbn. apply Hj.
Qed.

Lemma set_nth_none {A : Type} (l : list A) (n : nat) (v : A) :
  (length l <= n)%nat -> set_nth l n v = None.
Proof.
  revert n. induction l as [| h t IH]; intros n Hn; [destruct n; reflexivity |].
  destruct n as [| n]; cbn in Hn; [lia |].
  cbn. rewrite IH by lia. reflexivity.
Qed.

Lemma store_spec {A : Type} (l : list A) (i : Z) (v : A) :
  0 <= i < Z.of_nat (length l) ->
  exists l', store l i v = Some l' /\ length l' = length l
    /\ forall j, index l' j = if j =? i then Some v else index l j.
Proof.
  intros Hi. unfold store. destruct (Z.ltb_spec i 0); [lia |].
  destruct (set_nth_spec l (Z.to_nat i) v ltac:(lia)) as (l' & E & Hl & Hj).
  exists l'. split; [exact E |]. split; [exact Hl |].
  intros j. unfold index. destruct (Z.ltb_spec j 0).
  - destruct (Z.eqb_spec j i); [lia | reflexivity].
  - rewrite Hj. destruct (Z.eqb_spec j i) as [-> | Hne].
    + rewrite Nat.eqb_refl. reflexivity.
    + destruct (Nat.eqb_spec (Z.to_nat j) (Z.to_nat i)); [lia | reflexivity].
Qed.

Lemma store_none {A : Type} (l : list A) (i : Z) (v : A) :
  ~ 0 <= i < Z.of_nat (length l) -> store l i v = None.
Proof.
  intros Hi. unfold store. destruct (Z.ltb_spec i 0); [reflexivity |].
  apply set_nth_none. lia.
Qed.

(** One row: the pixels [off .. off + n - 1] of the buffer receive the
    values [val] gives, the other pixels keep theirs. *)
Lemma row_fill_prefix (val : Z -> option (option Z)) (off : Z) (d : list Z)
    (n : nat) :
  0 <= off -> off + Z.of_nat n <= Z.of_nat (length d) ->
  (forall x, 0 <= x < Z.of_nat n -> val x <> None) ->
  exists d',
    fold_left (fun acc x =>
                 match acc with
                 | None => None
                 | Some dp =>
                     match val x with
                     | None => None
                     | Some None => Some dp
                     | Some (Some v) => store dp (off + x) v
                     end
                 end) (range 0 (Z.of_nat n)) (Some d) = Some d'
    /\ length d' = length d
    /\ forall i, index d' i
                 = if (off <=? i) && (i <? off + Z.of_nat n)
                   then match val (i - off) with
                        | Some (Some v) => Some v
                        | _ => index d i
                        end
                   else index d i.
Proof.
  intros Hoff. induction n as [| n IH]; intros Hlen Hval.
  - exists d. split; [reflexivity |]. split; [reflexivity |].
    intros i. destruct (Z.leb_spec off i); destruct (Z.ltb_spec i (off + Z.of_nat 0));
      cbn; try reflexivity; lia.
  - destruct IH as (d1 & E1 & L1 & I1); [lia | intros x Hx; apply Hval; lia |].
    rewrite Nat2Z.inj_succ. unfold Z.succ.
    rewrite range_snoc by lia. rewrite fold_left_app, E1. cbn [fold_left].
    pose proof (Hval (Z.of_nat n) ltac:(lia)) as Hv.
    destruct (val (Z.of_nat n)) as [[v |] |] eqn:Ev; [| | congruence].
    + destruct (store_spec d1 (off + Z.of_nat n) v ltac:(lia))
        as (d2 & E2 & L2 & I2).
      exists d2. split; [exact E2 |]. split; [lia |].
      intros i. rewrite I2, I1.
      destruct (Z.eqb_spec i (off + Z.of_nat n)) as [-> | Hne].
      * replace (off + Z.of_nat n - off) with (Z.of_nat n) by lia. rewrite Ev.
        destruct (Z.leb_spec off (off + Z.of_nat n));
          destruct (Z.ltb_spec (off + Z.of_nat n) (off + (Z.of_nat n + 1)));
          cbn; try reflexivity; lia.
      * destruct (Z.leb_spec off i);
          destruct (Z.ltb_spec i (off + Z.of_nat n));
          destruct (Z.ltb_spec i (off + (Z.of_nat n + 1)));
          cbn; try reflexivity; lia.
    + exists d1. split; [reflexivity |]. split; [exact L1 |].
      intros i. rewrite I1.
      destruct (Z.eqb_spec i (off + Z.of_nat n)) as [-> | Hne].
      * replace (off + Z.of_nat n - off) with (Z.of_nat n) by lia. rewrite Ev.
        destruct (Z.leb_spec off (off + Z.of_nat n));
          destruct (Z.ltb_spec (off + Z.of_nat n) (off + Z.of_nat n));
          destruct (Z.ltb_spec (off + Z.of_nat n) (off + (Z.of_nat n + 1)));
          cbn; try reflexivity; lia.
      * destruct (Z.leb_spec off i);
          destruct (Z.ltb_spec i (off + Z.of_nat n));
          destruct (Z.ltb_spec i (off + (Z.of_nat n + 1)));
          cbn; try reflexivity; lia.
Qed.

Lemma row_fill (val : Z -> option (option Z)) (off w : Z) (d : list Z) :
  0 <= off -> 0 <= w -> off + w <= Z.of_nat (length d) ->
  (forall x, 0 <= x < w -> val x <> None) ->
  exists d',
    fold_left (fun acc x =>
                 match acc with
                 | None => None
                 | Some dp =>
                     match val x with
                     | None => None
                     | Some None => Some dp
                     | Some (Some v) => store dp (off + x) v
                     end
                 end) (range 0 w) (Some d) = Some d'
    /\ length d' = length d
    /\ forall i, index d' i
                 = if (off <=? i) && (i <? off + w)
                   then match val (i - off) with
                        | Some (Some v) => Some v
                        | _ => index d i
                        end
                   else index d i.
Proof.
  intros Hoff Hw Hlen Hval.
  pose proof (row_fill_prefix val off d (Z.to_nat w) Hoff) as H.
  rewrite Z2Nat.id in H by lia. apply H; assumption.
Qed.

(** All rows: when each row function fills its own row, the rows
    together fill the first [w * h] pixels. *)
Lemma rows_fill_prefix (R : Z -> list Z -> option (list Z))
    (F : Z -> Z -> option Z -> option Z) (w : Z) (n : nat) (k : nat) :
  0 <= w -> w * Z.of_nat k <= Z.of_nat n ->
  (forall y d, 0 <= y < Z.of_nat k -> length d = n ->
     exists d', R y d = Some d' /\ length d' = n
       /\ forall i, index d' i
                    = if (y * w <=? i) && (i <? y * w + w)
                      then F y (i - y * w) (index d i) else index d i) ->
  forall d, length d = n ->
  exists d',
    fold_left (fun acc y => match acc with None => None | Some dp => R y dp end)
              (range 0 (Z.of_nat k)) (Some d) = Some d'
    /\ length d' = n
    /\ (forall y x, 0 <= y < Z.of_nat k -> 0 <= x < w ->
          index d' (y * w + x) = F y x (index d (y * w + x)))
    /\ (forall i, w * Z.of_nat k <= i -> index d' i = index d i).
Proof.
  intros Hw. induction k as [| k IH]; intros Hn HR d Hd.
  - exists d. split; [reflexivity |]. split; [exact Hd |].
    split; [intros; lia | reflexivity].
  - destruct (IH ltac:(nia) ltac:(intros y d0 Hy; apply HR; lia) d Hd)
      as (d1 & E1 & L1 & P1 & Q1).
    rewrite Nat2Z.inj_succ. unfold Z.succ.
    rewrite range_snoc by lia. rewrite fold_left_app, E1. cbn [fold_left].
    destruct (HR (Z.of_nat k) d1 ltac:(lia) L1) as (d2 & E2 & L2 & I2).
    exists d2. split; [exact E2 |]. split; [exact L2 |]. split.
    + intros y x Hy Hx. rewrite I2.
      destruct (Z.eq_dec y (Z.of_nat k)) as [-> | Hne].
      * replace (Z.of_nat k * w + x - Z.of_nat k * w) with x by lia.
        rewrite Q1 by lia.
        destruct (Z.leb_spec (Z.of_nat k * w) (Z.of_nat k * w + x));
          destruct (Z.ltb_spec (Z.of_nat k * w + x) (Z.of_nat k * w + w));
          cbn; try reflexivity; lia.
      * assert (y * w + x < Z.of_nat k * w) by nia.
        destruct (Z.leb_spec (Z.of_nat k * w) (y * w + x)); [lia |].
        cbn. apply P1; lia.
    + intros i Hi. rewrite I2.
      destruct (Z.leb_spec (Z.of_nat k * w) i);
        destruct (Z.ltb_spec i (Z.of_nat k * w + w)); cbn;
        try (apply Q1; lia); lia.
Qed.

Lemma rows_fill (R : Z -> list Z -> option (list Z))
    (F : Z -> Z -> option Z -> option Z) (w h : Z) (n : nat) :
  0 <= w -> 0 <= h -> w * h <= Z.of_nat n ->
  (forall y d, 0 <= y < h -> length d = n ->
     exists d', R y d = Some d' /\ length d' = n
       /\ forall i, index d' i
                    = if (y * w <=? i) && (i <? y * w + w)
                      then F y (i - y * w) (index d i) else index d i) ->
  forall d, length d = n ->
  exists d',
    fold_left (fun acc y => match acc with None => None | Some dp => R y dp end)
              (range 0 h) (Some d) = Some d'
    /\ length d' = n
    /\ (forall y x, 0 <= y < h -> 0 <= x < w ->
          index d' (y * w + x) = F y x (index d (y * w + x)))
    /\ (forall i, w * h <= i -> index d' i = index d i).
Proof.
  intros Hw Hh Hn HR d Hd.
  pose proof (rows_fill_prefix R F w n (Z.to_nat h) Hw) as H.
  rewrite Z2Nat.id in H by lia. apply H; assumption.
Qed.

Lemma index_repeat (v : Z) (n : nat) (i : Z) :
  0 <= i < Z.of_nat n -> index (repeat v n) i = Some v.
Proof.
  intros Hi. unfold index. destruct (Z.ltb_spec i 0); [lia |].
  rewrite nth_error_repeat by lia. reflexivity.
Qed.

Lemma Dx_small (r : Rectangle) :
  small r -> Dx r = X (Max r) - X (Min r) /\ 0 <= Dx r <= 2 ^ 29.
Proof.
  intros (Hx1 & Hx2 & _). unfold Dx, GoInt.sub.
  rewrite wrap64_small by (unfold GoInt.min_int, GoInt.max_int; lia). lia.
Qed.

Lemma Dy_small (r : Rectangle) :
  small r -> Dy r = Y (Max r) - Y (Min r) /\ 0 <= Dy r <= 2 ^ 29.
Proof.
  intros (_ & _ & Hy1 & Hy2). unfold Dy, GoInt.sub.
  rewrite wrap64_small by (unfold GoInt.min_int, GoInt.max_int; lia). lia.
Qed.

(** The row loops of the packed fast paths: [pixel] reads the source
    row and writes one byte of the destination row, or leaves it. *)
Lemma packed_rows (srcPix : list Z) (S w h : Z)
    (pixel : Z -> option (list Z) -> Z -> option (list Z))
    (val : Z -> Z -> option (option Z)) :
  0 <= w <= 2 ^ 29 -> 0 <= h <= 2 ^ 29 -> 0 <= S <= 2 ^ 31 ->
  (0 < h -> (h - 1) * S + 4 * w <= Z.of_nat (length srcPix)) ->
  (forall y x dp, 0 <= y < h -> 0 <= x < w ->
     pixel y (Some dp) x
     = match val y x with
       | None => None
       | Some None => Some dp
       | Some (Some v) => store dp (y * w + x) v
       end) ->
  (forall y x, pixel y None x = None) ->
  (forall y x, 0 <= y < h -> 0 <= x < w -> val y x <> None) ->
  exists d',
    fold_left
      (fun acc y =>
         match acc with
         | None => None
         | Some dstPix =>
             if slice_ok srcPix (GoInt.mul y S)
                         (GoInt.add (GoInt.mul y S) (GoInt.mul w 4))
                && slice_ok dstPix (GoInt.mul y w)
                            (GoInt.add (GoInt.mul y w) w)
             then fold_left (pixel y) (range 0 w) (Some dstPix)
             else None
         end)
      (range 0 h) (Some (repeat 0 (Z.to_nat (w * h)))) = Some d'
    /\ length d' = Z.to_nat (w * h)
    /\ forall y x, 0 <= y < h -> 0 <= x < w ->
         index d' (y * w + x)
         = Some (match val y x with Some (Some v) => v | _ => 0 end).
Proof.
  intros Hw Hh HS Hsrc Hpix Hnone Hval.
  set (R := fun (y : Z) (dstPix : list Z) =>
              if slice_ok srcPix (GoInt.mul y S)
                          (GoInt.add (GoInt.mul y S) (GoInt.mul w 4))
                 && slice_ok dstPix (GoInt.mul y w)
                             (GoInt.add (GoInt.mul y w) w)
              then fold_left (pixel y) (range 0 w) (Some dstPix)
              else None).
  set (F := fun (y x : Z) (old : option Z) =>
              match val y x with Some (Some v) => Some v | _ => old end).
  assert (Hwh : 0 <= w * h) by nia.
  destruct (rows_fill R F w h (Z.to_nat (w * h)) ltac:(lia) ltac:(lia)
              ltac:(lia)) with (d := repeat 0 (Z.to_nat (w * h)))
    as (d' & E & L & P & _).
  - intros y d Hy Hd.
    assert (Hyw : 0 <= y * w /\ y * w + w <= w * h) by nia.
    assert (HyS : 0 <= y * S /\ y * S + 4 * w <= (h - 1) * S + 4 * w) by nia.
    assert (HyS' : y * S <= 2 ^ 60) by nia.
    unfold R, GoInt.mul, GoInt.add.
    rewrite !(wrap64_small (y * S)), !(wrap64_small (y * w)),
            (wrap64_small (w * 4)), (wrap64_small (y * S + w * 4)),
            (wrap64_small (y * w + w))
      by (unfold GoInt.min_int, GoInt.max_int; nia).
    replace (slice_ok srcPix (y * S) (y * S + w * 4)) with true
      by (symmetry; unfold slice_ok;
          rewrite !andb_true_iff, !Z.leb_le; lia).
    replace (slice_ok d (y * w) (y * w + w)) with true
      by (symmetry; unfold slice_ok;
          rewrite !andb_true_iff, !Z.leb_le; lia).
    cbn [andb].
    rewrite (fold_left_ext_in (pixel y)
               (fun acc x =>
                  match acc with
                  | None => None
                  | Some dp =>
                      match val y x with
                      | None => None
                      | Some None => Some dp
                      | Some (Some v) => store dp (y * w + x) v
                      end
                  end)).
    + destruct (row_fill (val y) (y * w) w d) as (d' & E & L & I);
        try lia; [intros x Hx; apply Hval; lia |].
      exists d'. split; [exact E |]. split; [lia |].
      intros i. rewrite I. unfold F. reflexivity.
    + intros [dp |] x Hx; [| apply Hnone].
      apply in_range_iff in Hx. apply Hpix; lia.
  - apply repeat_length.
  - exists d'. split; [exact E |]. split; [exact L |].
    intros y x Hy Hx. rewrite (P y x Hy Hx). unfold F.
    rewrite index_repeat by nia.
    destruct (val y x) as [[v |] |]; reflexivity.
Qed.

End FillFacts.

(** ** Loops that set pixels through [SetGray] *)

Section SetGrayFacts.
Import Image Shape.

Lemma NewGray_wf (r : Rectangle) : small r -> gray_wf (NewGray r).
Proof.
  intros Hs. destruct (Dx_small r Hs) as [_ Hw].
  destruct (Dy_small r Hs) as [_ Hh].
  unfold gray_wf, NewGray. cbn [Bounds Stride Pix].
  split; [exact Hs |]. split; [reflexivity |].
  rewrite repeat_length. unfold GoInt.mul.
  rewrite wrap64_small by (unfold GoInt.min_int, GoInt.max_int; nia). nia.
Qed.

Lemma PixOffset_wf (m : Gray) (x y : Z) :
  gray_wf m -> PtIn x y (Bounds m) = true ->
  PixOffset m x y
  = (y - Y (Min (Bounds m))) * Dx (Bounds m) + (x - X (Min (Bounds m)))
  /\ 0 <= PixOffset m x y < Z.of_nat (length (Pix m)).
Proof.
  intros (Hs & HS & HL) Hin. apply PtIn_spec in Hin.
  destruct (Dx_small _ Hs) as [Ew Hw]. destruct (Dy_small _ Hs) as [Eh Hh].
  destruct Hs as (H1 & H2 & H3 & H4).
  assert (E : PixOffset m x y
              = (y - Y (Min (Bounds m))) * Dx (Bounds m)
                + (x - X (Min (Bounds m)))).
  { unfold PixOffset, GoInt.add, GoInt.mul, GoInt.sub. rewrite HS.
    rewrite (wrap64_small (y - _)), (wrap64_small (x - _))
      by (unfold GoInt.min_int, GoInt.max_int; lia).
    rewrite (wrap64_small (_ * _))
      by (unfold GoInt.min_int, GoInt.max_int; nia).
    apply wrap64_small. unfold GoInt.min_int, GoInt.max_int. nia. }
  split; [exact E |]. rewrite E, HL. nia.
Qed.

Lemma GrayAt_wf (m : Gray) (x y : Z) :
  gray_wf m -> PtIn x y (Bounds m) = true -> exists v, GrayAt m x y = Some v.
Proof.
  intros Hwf Hin. unfold GrayAt. rewrite Hin.
  apply index_in_range. apply (PixOffset_wf m x y Hwf Hin).
Qed.

(** [SetGray] on a well-laid-out image returns, keeps the layout, and
    changes the pixel it is given and no other. *)
Lemma SetGray_spec (m : Gray) (px py v : Z) :
  gray_wf m ->
  exists m', SetGray m px py v = Some m'
    /\ Bounds m' = Bounds m /\ gray_wf m'
    /\ forall x y, PtIn x y (Bounds m) = true ->
         GrayAt m' x y
         = if PtIn px py (Bounds m) && (x =? px) && (y =? py)
           then Some v else GrayAt m x y.
Proof.
  intros Hwf. unfold SetGray.
  destruct (PtIn px py (Bounds m)) eqn:Hp.
  - destruct (PixOffset_wf m px py Hwf Hp) as [Ep Rp].
    destruct (store_spec (Pix m) (PixOffset m px py) v Rp)
      as (pix & E & L & I).
    rewrite E. cbn [option_map]. eexists. split; [reflexivity |].
    cbn [Bounds]. split; [reflexivity |]. split.
    + destruct Hwf as (Hs & HS & HL). unfold gray_wf. cbn [Bounds Stride Pix].
      rewrite L. auto.
    + intros x y Hin. unfold GrayAt. cbn [Bounds Pix]. rewrite Hin.
      assert (Eo : PixOffset (mkGray pix (Stride m) (Bounds m)) x y
                   = PixOffset m x y) by reflexivity.
      rewrite Eo, I. cbn [andb].
      destruct (PixOffset_wf m x y Hwf Hin) as [Ex Rx].
      destruct Hwf as (Hs & HS & HL).
      destruct (Dx_small _ Hs) as [Ew Hw].
      apply PtIn_spec in Hin. apply PtIn_spec in Hp.
      destruct (Z.eqb_spec x px) as [-> | Hnx];
        destruct (Z.eqb_spec y py) as [-> | Hny]; cbn [andb].
      * rewrite Z.eqb_refl. reflexivity.
      * destruct (Z.eqb_spec (PixOffset m px y) (PixOffset m px py)) as [Heq | _];
          [| reflexivity].
        exfalso. rewrite Ex, Ep in Heq. nia.
      * destruct (Z.eqb_spec (PixOffset m x py) (PixOffset m px py)) as [Heq | _];
          [| reflexivity].
        exfalso. rewrite Ex, Ep in Heq. nia.
      * destruct (Z.eqb_spec (PixOffset m x y) (PixOffset m px py)) as [Heq | _];
          [| reflexivity].
        exfalso. rewrite Ex, Ep in Heq.
        assert (y - Y (Min (Bounds m)) = py - Y (Min (Bounds m))) by nia.
        nia.
  - exists m. split; [reflexivity |]. split; [reflexivity |].
    split; [exact Hwf |]. intros x y Hin. reflexivity.
Qed.

(** A loop over a list of points that sets, through [SetGray], the
    value [val] gives for each point, or leaves the point. *)
Lemma setgray_fold (val : Z * Z -> option (option Z)) (pts : list (Z * Z))
    (m : Gray) :
  gray_wf m ->
  (forall p, In p pts -> val p <> None) ->
  exists m',
    fold_left (fun acc p =>
                 match acc with
                 | None => None
                 | Some mask =>
                     match val p with
                     | None => None
                     | Some None => Some mask
                     | Some (Some v) => SetGray mask (fst p) (snd p) v
                     end
                 end) pts (Some m) = Some m'
    /\ Bounds m' = Bounds m /\ gray_wf m'
    /\ forall x y, PtIn x y (Bounds m) = true ->
         GrayAt m' x y
         = if among x y pts
           then match val (x, y) with
                | Some (Some v) => Some v
                | _ => GrayAt m x y
                end
           else GrayAt m x y.
Proof.
  revert m. induction pts as [| [px py] pts IH]; intros m Hwf Hval.
  - exists m. split; [reflexivity |]. split; [reflexivity |].
    split; [exact Hwf |]. reflexivity.
  - cbn [fold_left].
    pose proof (Hval (px, py) (or_introl eq_refl)) as Hv.
    assert (Hrest : forall p, In p pts -> val p <> None)
      by (intros p Hp; apply Hval; now right).
    destruct (val (px, py)) as [[v |] |] eqn:Ev; [| | congruence].
    + cbn [fst snd].
      destruct (SetGray_spec m px py v Hwf) as (m1 & E1 & B1 & W1 & G1).
      rewrite E1.
      destruct (IH m1 W1 Hrest) as (m' & E & B & W & G).
      exists m'. split; [exact E |]. split; [congruence |].
      split; [exact W |].
      intros x y Hin. rewrite B1 in G. rewrite (G x y Hin), (G1 x y Hin).
      unfold among. cbn [existsb fst snd].
      fold (among x y pts).
      destruct (Z.eqb_spec px x) as [-> | Hnx];
        destruct (Z.eqb_spec py y) as [-> | Hny]; cbn [andb orb];
        rewrite ?Z.eqb_refl, ?Hin; cbn [andb].
      * rewrite Ev. destruct (among x y pts); reflexivity.
      * destruct (Z.eqb_spec y py); [congruence |].
        rewrite andb_false_r. reflexivity.
      * destruct (Z.eqb_spec x px); [congruence |].
        rewrite andb_false_r. reflexivity.
      * destruct (Z.eqb_spec x px); [congruence |].
        rewrite andb_false_r. reflexivity.
    + destruct (IH m Hwf Hrest) as (m' & E & B & W & G).
      exists m'. split; [exact E |]. split; [exact B |].
      split; [exact W |].
      intros x y Hin. rewrite (G x y Hin).
      unfold among. cbn [existsb fst snd]. fold (among x y pts).
      destruct (Z.eqb_spec px x) as [-> | Hnx];
        destruct (Z.eqb_spec py y) as [-> | Hny]; cbn [andb orb];
        try reflexivity.
      rewrite Ev. destruct (among x y pts); reflexivity.
Qed.

Lemma among_coords (r : Rectangle) (x y : Z) :
  PtIn x y r = true -> among x y (coords r) = true.
Proof.
  intros Hin. unfold among. apply existsb_exists. exists (x, y).
  split; [apply in_coords_iff; exact Hin |].
  cbn. rewrite !Z.eqb_refl. reflexivity.
Qed.

Lemma NewGray_zero (r : Rectangle) (x y : Z) :
  small r -> PtIn x y r = true -> GrayAt (NewGray r) x y = Some 0.
Proof.
  intros Hs Hin. pose proof (NewGray_wf r Hs) as Hwf.
  destruct (PixOffset_wf (NewGray r) x y Hwf Hin) as [_ Ho].
  unfold GrayAt. change (Bounds (NewGray r)) with r. rewrite Hin.
  set (o := PixOffset (NewGray r) x y) in *.
  change (Pix (NewGray r))
    with (repeat 0 (Z.to_nat (GoInt.mul (Dx r) (Dy r)))) in *.
  rewrite repeat_length in Ho. apply index_repeat. exact Ho.
Qed.

End SetGrayFacts.

(** ** The alpha-channel mask *)

Section AlphaFacts.
Import Image Mask Alpha Shape.

Ltac unwrap :=
  repeat match goal with
         | |- context [GoInt.wrap64 ?z] =>
             lazymatch z with
             | context [GoInt.wrap64 _] => fail
             | _ => rewrite (wrap64_small z)
                      by (unfold GoInt.min_int, GoInt.max_int; nia)
             end
         end.

Lemma maskFromImage_spec (p : Packed) :
  packed_ok p ->
  exists mask,
    maskFromImage (pPix p) (pStride p) (pBounds p) = Some mask
    /\ Bounds mask = pBounds p /\ gray_wf mask
    /\ forall x y, PtIn x y (pBounds p) = true ->
         exists r g b a,
           bytesAt p x y = Some (r, g, b, a) /\ GrayAt mask x y = Some a.
Proof.
  intros (Hsmall & HS & Hlen).
  destruct (Dx_small _ Hsmall) as [Ew Hw].
  destruct (Dy_small _ Hsmall) as [Eh Hh].
  rewrite <- Ew, <- Eh in Hlen.
  set (bounds := pBounds p) in *. set (S := pStride p) in *.
  set (srcPix := pPix p) in *.
  set (w := Dx bounds) in *. set (h := Dy bounds) in *.
  set (val := fun y x : Z =>
                match index srcPix (y * S + (x * 4 + 3)) with
                | Some a => Some (Some a)
                | None => @None (option Z)
                end).
  destruct (packed_rows srcPix S w h
              (fun (y : Z) (acc : option (list Z)) (x : Z) =>
                 match acc with
                 | None => None
                 | Some dstPix =>
                     let k := GoInt.add (GoInt.mul x 4) 3 in
                     let src := if k <? GoInt.mul w 4
                                then index srcPix (GoInt.add (GoInt.mul y S) k)
                                else None in
                     match src with
                     | Some a => store dstPix (GoInt.add (GoInt.mul y w) x) a
                     | None => None
                     end
                 end) val Hw Hh HS Hlen) as (d' & E & L & P).
  - intros y x dp Hy Hx. cbv zeta. unfold GoInt.add, GoInt.mul. unwrap.
    destruct (Z.ltb_spec (x * 4 + 3) (w * 4)); [| lia].
    unfold val. destruct (index srcPix (y * S + (x * 4 + 3))); reflexivity.
  - reflexivity.
  - intros y x Hy Hx. unfold val.
    destruct (index_in_range srcPix (y * S + (x * 4 + 3))) as [a ->];
      [| discriminate].
    specialize (Hlen ltac:(lia)). nia.
  - exists (mkGray d' w bounds). split.
    + unfold maskFromImage. cbv zeta. unfold NewGray. cbn [Stride Pix].
      fold w h.
      assert (Emul : GoInt.mul w h = w * h)
        by (unfold GoInt.mul; apply wrap64_small;
            unfold GoInt.min_int, GoInt.max_int; nia).
      cbv zeta in E. rewrite Emul, E. reflexivity.
    + split; [reflexivity |]. split.
      { unfold gray_wf. cbn [Bounds Stride Pix]. fold w h.
        split; [exact Hsmall |]. split; [reflexivity |]. rewrite L. nia. }
      intros x y Hin. pose proof Hin as Hin'. apply PtIn_spec in Hin'.
      fold bounds in Hin'.
      assert (Hx : 0 <= x - X (Min bounds) < w) by lia.
      assert (Hy : 0 <= y - Y (Min bounds) < h) by lia.
      specialize (Hlen ltac:(lia)).
      set (x' := x - X (Min bounds)) in *. set (y' := y - Y (Min bounds)) in *.
      assert (Hoff : PixOffset4 p x y = y' * S + x' * 4).
      { unfold PixOffset4. fold bounds S x' y'.
        unfold GoInt.add, GoInt.mul, GoInt.sub. fold x' y'. unwrap.
        reflexivity. }
      assert (Hlast : y' * S + x' * 4 + 3 < Z.of_nat (length srcPix)) by nia.
      assert (Hfirst : 0 <= y' * S + x' * 4) by nia.
      unfold bytesAt. fold bounds. rewrite Hin. cbv zeta. rewrite Hoff.
      fold srcPix.
      destruct (index_in_range srcPix (y' * S + x' * 4)) as [r ->]; [lia |].
      destruct (index_in_range srcPix (y' * S + x' * 4 + 1)) as [g ->]; [lia |].
      destruct (index_in_range srcPix (y' * S + x' * 4 + 2)) as [b ->]; [lia |].
      destruct (index_in_range srcPix (y' * S + x' * 4 + 3)) as [a Ea]; [lia |].
      rewrite Ea. exists r, g, b, a. split; [reflexivity |].
      unfold GrayAt. cbn [Bounds Pix]. rewrite Hin.
      unfold PixOffset. cbn [Bounds Stride].
      unfold GoInt.add, GoInt.mul, GoInt.sub. fold x' y'. unwrap.
      rewrite (P y' x' Hy Hx). unfold val.
      replace (y' * S + (x' * 4 + 3)) with (y' * S + x' * 4 + 3) by lia.
      rewrite Ea. reflexivity.
Qed.

(** On a packed image that holds all its rows, the fast path of
    [MaskFromAlpha] returns, and the mask it returns carries at every
    point of the image the alpha byte of that pixel. *)
Theorem maskFromImage_copies_alpha (p : Packed) :
  packed_ok p ->
  exists mask,
    maskFromImage (pPix p) (pStride p) (pBounds p) = Some mask
    /\ Bounds mask = pBounds p
    /\ forall x y, PtIn x y (pBounds p) = true ->
         exists r g b a,
           bytesAt p x y = Some (r, g, b, a) /\ GrayAt mask x y = Some a.
Proof.
  intros Hp. destruct (maskFromImage_spec p Hp) as (mask & E & B & _ & G).
  exists mask. auto.
Qed.

Lemma light2_ok : packed_ok Examples.light2.
Proof.
  unfold packed_ok, small. cbn. repeat split; lia.
Qed.

Lemma maskFromImage_copies_alpha_witness :
  exists mask,
    maskFromImage (pPix Examples.light2) (pStride Examples.light2)
                  (pBounds Examples.light2) = Some mask
    /\ Bounds mask = pBounds Examples.light2
    /\ GrayAt mask 1 1 = Some 255.
Proof.
  destruct (maskFromImage_copies_alpha Examples.light2 light2_ok)
    as (mask & E & B & G).
  exists mask. split; [exact E |]. split; [exact B |].
  destruct (G 1 1 eq_refl) as (r & g & b & a & Hb & Ha).
  vm_compute in Hb. injection Hb as _ _ _ <-. exact Ha.
Defined.

End AlphaFacts.

(** ** The two paths of [MaskFromAlpha] *)

Section AlphaPaths.
Import Image Mask Alpha Shape.

(** Two well-laid-out gray images over one rectangle that agree at
    every point are the same image. *)
Lemma gray_ext (m1 m2 : Gray) :
  gray_wf m1 -> gray_wf m2 -> Bounds m1 = Bounds m2 ->
  (forall x y, PtIn x y (Bounds m1) = true -> GrayAt m1 x y = GrayAt m2 x y) ->
  m1 = m2.
Proof.
  intros W1 W2 HB HG.
  pose proof W1 as (Hs & HS1 & HL1). pose proof W2 as (_ & HS2 & HL2).
  destruct (Dx_small _ Hs) as [Ew Hw]. destruct (Dy_small _ Hs) as [Eh Hh].
  destruct m1 as [pix1 s1 b1], m2 as [pix2 s2 b2]. cbn [Bounds Stride Pix] in *.
  subst b2. subst s1 s2. f_equal.
  apply nth_error_ext. intros n.
  destruct (Nat.lt_ge_cases n (length pix1)) as [Hlt | Hge].
  - set (w := Dx b1) in *. set (h := Dy b1) in *.
    assert (Hwpos : 0 < w) by nia.
    set (i := Z.of_nat n).
    pose proof (Z.div_mod i w ltac:(lia)) as Hdm.
    pose proof (Z.mod_pos_bound i w Hwpos) as Hmod.
    assert (Hdiv : 0 <= i / w < h).
    { split; [apply Z.div_pos; lia |].
      apply Z.div_lt_upper_bound; lia. }
    set (x := X (Min b1) + i mod w). set (y := Y (Min b1) + i / w).
    assert (Hin : PtIn x y b1 = true) by (apply PtIn_spec; lia).
    specialize (HG x y Hin).
    destruct (PixOffset_wf _ x y W1 Hin) as [E1 _].
    destruct (PixOffset_wf _ x y W2 Hin) as [E2 _].
    unfold GrayAt in HG. cbn [Bounds Pix] in HG, E1, E2. rewrite Hin in HG.
    rewrite E1, E2 in HG. fold w in HG.
    replace ((y - Y (Min b1)) * w + (x - X (Min b1))) with i in HG
      by (unfold x, y; lia).
    unfold index in HG. destruct (Z.ltb_spec i 0); [lia |].
    unfold i in HG. rewrite Nat2Z.id in HG. exact HG.
  - assert (Hge2 : (length pix2 <= n)%nat) by lia.
    apply nth_error_None in Hge, Hge2. congruence.
Qed.

Lemma alphaGeneric_spec (bounds : Rectangle)
    (at_rgba : Z -> Z -> option (Z * Z * Z * Z)) :
  small bounds ->
  (forall x y, PtIn x y bounds = true -> at_rgba x y <> None) ->
  exists m, alphaGeneric bounds at_rgba = Some m
    /\ Bounds m = bounds /\ gray_wf m
    /\ forall x y, PtIn x y bounds = true ->
         exists r g b a, at_rgba x y = Some (r, g, b, a)
           /\ GrayAt m x y = Some (Background.uint8 (Z.shiftr a 8)).
Proof.
  intros Hs Htot.
  set (val := fun p : Z * Z =>
                match at_rgba (fst p) (snd p) with
                | None => None
                | Some (_, _, _, a) =>
                    Some (Some (Background.uint8 (Z.shiftr a 8)))
                end).
  destruct (setgray_fold val (coords bounds) (NewGray bounds)
              (NewGray_wf bounds Hs)) as (m & E & B & W & G).
  { intros [x y] Hp. apply in_coords_iff in Hp. unfold val. cbn [fst snd].
    specialize (Htot x y Hp).
    destruct (at_rgba x y) as [[[[r g] b] a] |]; congruence. }
  exists m. split.
  - unfold alphaGeneric. cbv zeta. rewrite <- E.
    apply fold_left_ext_in. intros [mask |] p _; [| reflexivity].
    unfold val. destruct (at_rgba (fst p) (snd p)) as [[[[r g] b] a] |];
      reflexivity.
  - split; [exact B |]. split; [exact W |].
    intros x y Hin. change (Bounds (NewGray bounds)) with bounds in G.
    rewrite (G x y Hin), (among_coords bounds x y Hin).
    unfold val. cbn [fst snd]. specialize (Htot x y Hin).
    destruct (at_rgba x y) as [[[[r g] b] a] |]; [| congruence].
    exists r, g, b, a. split; reflexivity.
Qed.

Lemma widen_high_byte (a : Z) :
  0 <= a <= 255 -> Background.uint8 (Z.shiftr (widen a) 8) = a.
Proof.
  intros Ha. unfold widen, Background.uint8.
  rewrite Z.shiftr_lor, Z.shiftr_shiftl_l by lia.
  rewrite Z.sub_diag, Z.shiftl_0_r.
  rewrite (Z.shiftr_div_pow2 a 8) by lia.
  rewrite Z.div_small by (change (2 ^ 8) with 256; lia).
  rewrite Z.lor_0_l. apply Z.mod_small. lia.
Qed.

Lemma bytes_index (l : list Z) (i v : Z) :
  bytes l -> index l i = Some v -> 0 <= v <= 255.
Proof.
  intros Hb Hi. unfold index in Hi. destruct (i <? 0); [discriminate |].
  apply nth_error_In in Hi. unfold bytes in Hb. rewrite Forall_forall in Hb.
  auto.
Qed.

Lemma bytesAt_alpha_byte (p : Packed) (x y r g b a : Z) :
  bytes (pPix p) -> PtIn x y (pBounds p) = true ->
  bytesAt p x y = Some (r, g, b, a) -> 0 <= a <= 255.
Proof.
  intros Hb Hin H. unfold bytesAt in H. rewrite Hin in H. cbv zeta in H.
  destruct (index (pPix p) (PixOffset4 p x y)); [| discriminate].
  destruct (index (pPix p) (PixOffset4 p x y + 1)); [| discriminate].
  destruct (index (pPix p) (PixOffset4 p x y + 2)); [| discriminate].
  destruct (index (pPix p) (PixOffset4 p x y + 3)) as [a' |] eqn:Ea;
    [| discriminate].
  injection H as _ _ _ <-. apply (bytes_index _ _ _ Hb Ea).
Qed.

(** For an [*image.RGBA] and for an [*image.NRGBA] holding all its
    rows, the generic loop of [MaskFromAlpha] over [At(x, y).RGBA()]
    and the fast path over [Pix] return the same mask. *)
Theorem MaskFromAlpha_paths_agree (p : Packed) :
  packed_ok p -> bytes (pPix p) ->
  alphaGeneric (pBounds p) (At (ImgRGBA p)) = MaskFromAlpha (ImgRGBA p)
  /\ alphaGeneric (pBounds p) (At (ImgNRGBA p)) = MaskFromAlpha (ImgNRGBA p)
  /\ MaskFromAlpha (ImgRGBA p) <> None.
Proof.
  intros Hp Hb.
  destruct (maskFromImage_spec p Hp) as (mask & E & B & W & G).
  pose proof Hp as (Hs & _).
  cbn [MaskFromAlpha Bounds_of At]. rewrite E.
  assert (Hagree : forall at_rgba,
            (forall x y r g b a, PtIn x y (pBounds p) = true ->
               bytesAt p x y = Some (r, g, b, a) ->
               exists r' g' b', at_rgba x y = Some (r', g', b', widen a)) ->
            alphaGeneric (pBounds p) at_rgba = Some mask).
  { intros at_rgba Hat.
    destruct (alphaGeneric_spec (pBounds p) at_rgba Hs) as (m & Em & Bm & Wm & Gm).
    - intros x y Hin. destruct (G x y Hin) as (r & g & b & a & Hbytes & _).
      destruct (Hat x y r g b a Hin Hbytes) as (r' & g' & b' & ->).
      discriminate.
    - rewrite Em. f_equal. apply gray_ext; try assumption; [congruence |].
      intros x y Hin. rewrite Bm in Hin.
      destruct (G x y Hin) as (r & g & b & a & Hbytes & ->).
      destruct (Gm x y Hin) as (r1 & g1 & b1 & a1 & Hat1 & ->).
      destruct (Hat x y r g b a Hin Hbytes) as (r' & g' & b' & Hat2).
      rewrite Hat2 in Hat1. injection Hat1 as _ _ _ <-.
      rewrite widen_high_byte; [reflexivity |].
      apply (bytesAt_alpha_byte p x y r g b a Hb Hin Hbytes). }
  split; [| split; [| discriminate]].
  - apply Hagree. intros x y r g b a Hin Hbytes.
    unfold RGBA_At. rewrite Hbytes. eauto.
  - apply Hagree. intros x y r g b a Hin Hbytes.
    unfold NRGBA_At. rewrite Hbytes. eauto.
Qed.

Lemma MaskFromAlpha_paths_agree_witness :
  alphaGeneric (pBounds Examples.light2) (At (ImgRGBA Examples.light2))
  = MaskFromAlpha (ImgRGBA Examples.light2).
Proof.
  apply (MaskFromAlpha_paths_agree Examples.light2).
  - unfold packed_ok, small. cbn. repeat split; lia.
  - unfold bytes. cbn. repeat constructor; lia.
Defined.

End AlphaPaths.

(** ** [hasAlpha] *)

Section HasAlphaFacts.
Import Image Mask Alpha Shape.

Lemma multiples_apart (a b step : Z) :
  1 <= step -> a mod step = 0 -> b mod step = 0 -> a < b -> a + step <= b.
Proof.
  intros Hs Ha Hb Hlt.
  apply Z.mod_divide in Ha; [| lia]. apply Z.mod_divide in Hb; [| lia].
  destruct Ha as [qa ->]. destruct Hb as [qb ->].
  assert (qa < qb) by (apply (Z.mul_lt_mono_pos_r step); lia).
  replace (qa * step + step) with ((qa + 1) * step) by lia.
  apply Z.mul_le_mono_nonneg_r; lia.
Qed.

(** The unfolded rounds are enough: the list holds every value the
    loop reaches below [hi]. *)
Lemma stride_from_spec (lo hi step : Z) (rounds : nat) (v u : Z) :
  1 <= step -> GoInt.min_int <= lo -> hi + step <= GoInt.max_int ->
  lo <= v -> (v - lo) mod step = 0 -> hi - v <= Z.of_nat rounds ->
  In u (stride_from rounds v hi step)
  <-> v <= u < hi /\ (u - lo) mod step = 0.
Proof.
  intros Hs Hlo Hhi. revert v.
  induction rounds as [| n IH]; intros v Hv Hm Hr; cbn [stride_from].
  - split; [intros [] | lia].
  - destruct (Z.ltb_spec v hi) as [Hlt | Hge]; [| split; [intros [] | lia]].
    assert (Ea : GoInt.add v step = v + step).
    { unfold GoInt.add. apply wrap64_small. lia. }
    rewrite Ea. cbn [In].
    assert (Hm' : (v + step - lo) mod step = 0).
    { replace (v + step - lo) with (v - lo + 1 * step) by lia.
      rewrite Z.mod_add by lia. exact Hm. }
    rewrite (IH (v + step) ltac:(lia) Hm' ltac:(lia)).
    split.
    + intros [<- | [H1 H2]]; [split; [lia | exact Hm] | split; [lia | exact H2]].
    + intros [H1 H2]. destruct (Z.eq_dec v u) as [-> | Hne]; [now left |].
      right. split; [| exact H2].
      assert (v - lo + step <= u - lo)
        by (apply multiples_apart; try assumption; lia).
      lia.
Qed.

Lemma strided_spec (lo hi step u : Z) :
  1 <= step -> GoInt.min_int <= lo -> hi + step <= GoInt.max_int ->
  In u (strided lo hi step) <-> lo <= u < hi /\ (u - lo) mod step = 0.
Proof.
  intros Hs Hlo Hhi. unfold strided.
  apply stride_from_spec; try assumption; try lia.
  rewrite Z.sub_diag. apply Z.mod_0_l. lia.
Qed.

Lemma firstTransparent_spec (at_rgba : Z -> Z -> option (Z * Z * Z * Z))
    (pts : list (Z * Z)) :
  (forall x y, In (x, y) pts -> at_rgba x y <> None) ->
  exists b, firstTransparent at_rgba pts = Some b
    /\ (b = true <->
        exists x y r g bl a, In (x, y) pts
          /\ at_rgba x y = Some (r, g, bl, a) /\ a < 65535).
Proof.
  induction pts as [| [x y] pts IH]; intros Htot; cbn [firstTransparent].
  - exists false. split; [reflexivity |].
    split; [discriminate | intros (x & y & r & g & bl & a & [] & _)].
  - pose proof (Htot x y (or_introl eq_refl)) as Hxy.
    destruct (at_rgba x y) as [[[[r g] bl] a] |] eqn:Exy; [| congruence].
    destruct (Z.ltb_spec a 65535) as [Hlt | Hge].
    + exists true. split; [reflexivity |]. split; [intros _ | reflexivity].
      exists x, y, r, g, bl, a. split; [now left | auto].
    + destruct IH as (b & E & Hb);
        [intros x' y' H'; apply Htot; now right |].
      exists b. split; [exact E |]. rewrite Hb. split.
      * intros (x' & y' & r' & g' & bl' & a' & Hin & Hat & Ha).
        exists x', y', r', g', bl', a'. split; [now right | auto].
      * intros (x' & y' & r' & g' & bl' & a' & [Heq | Hin] & Hat & Ha).
        -- injection Heq as <- <-. rewrite Exy in Hat.
           injection Hat as <- <- <- <-. lia.
        -- exists x', y', r', g', bl', a'. auto.
Qed.

Lemma hasAlpha_spec (bounds : Rectangle)
    (at_rgba : Z -> Z -> option (Z * Z * Z * Z)) :
  small bounds ->
  (forall x y, PtIn x y bounds = true -> at_rgba x y <> None) ->
  exists b, hasAlpha bounds at_rgba = Some b
    /\ (b = true <->
        exists x y r g bl a,
          PtIn x y bounds = true
          /\ (x - X (Min bounds))
               mod Z.max 1 ((X (Max bounds) - X (Min bounds)) / 5) = 0
          /\ (y - Y (Min bounds))
               mod Z.max 1 ((Y (Max bounds) - Y (Min bounds)) / 5) = 0
          /\ at_rgba x y = Some (r, g, bl, a) /\ a < 65535).
Proof.
  intros Hs Htot.
  destruct (Dx_small _ Hs) as [Ew Hw]. destruct (Dy_small _ Hs) as [Eh Hh].
  pose proof Hs as (H1 & H2 & H3 & H4).
  set (stepX := Z.max 1 ((X (Max bounds) - X (Min bounds)) / 5)).
  set (stepY := Z.max 1 ((Y (Max bounds) - Y (Min bounds)) / 5)).
  assert (Hq : forall d, 0 <= d <= 2 ^ 29 ->
             (if Background.quot64 d 5 <? 1 then 1 else Background.quot64 d 5)
             = Z.max 1 (d / 5) /\ 1 <= Z.max 1 (d / 5) <= 2 ^ 29).
  { intros d Hd. unfold Background.quot64.
    rewrite Z.quot_div_nonneg by lia.
    pose proof (Z.div_pos d 5 ltac:(lia) ltac:(lia)).
    assert (d / 5 <= d) by (apply Z.div_le_upper_bound; lia).
    rewrite wrap64_small by (unfold GoInt.min_int, GoInt.max_int; lia).
    destruct (Z.ltb_spec (d / 5) 1); lia. }
  destruct (Hq _ Hw) as [EX HX]. destruct (Hq _ Hh) as [EY HY].
  rewrite Ew in EX, HX. rewrite Eh in EY, HY. fold stepX in EX, HX.
  fold stepY in EY, HY.
  assert (Hgrid : forall x y,
            In (x, y) (grid bounds)
            <-> PtIn x y bounds = true
                /\ (x - X (Min bounds)) mod stepX = 0
                /\ (y - Y (Min bounds)) mod stepY = 0).
  { intros x y. unfold grid. cbv zeta. rewrite Ew, Eh, EX, EY.
    assert (SX : forall u, In u (strided (X (Min bounds)) (X (Max bounds)) stepX)
                 <-> X (Min bounds) <= u < X (Max bounds)
                     /\ (u - X (Min bounds)) mod stepX = 0)
      by (intros u; apply strided_spec;
          unfold GoInt.min_int, GoInt.max_int; lia).
    assert (SY : forall u, In u (strided (Y (Min bounds)) (Y (Max bounds)) stepY)
                 <-> Y (Min bounds) <= u < Y (Max bounds)
                     /\ (u - Y (Min bounds)) mod stepY = 0)
      by (intros u; apply strided_spec;
          unfold GoInt.min_int, GoInt.max_int; lia).
    rewrite in_flat_map. rewrite PtIn_spec. split.
    - intros (y' & Hy' & Hx'). apply in_map_iff in Hx' as (x' & Heq & Hx').
      injection Heq as <- <-. apply SY in Hy'. apply SX in Hx'. tauto.
    - intros (Hin & Hmx & Hmy). exists y. split; [apply SY; tauto |].
      apply in_map_iff. exists x. split; [reflexivity |]. apply SX. tauto. }
  destruct (firstTransparent_spec at_rgba (grid bounds)) as (b & E & Hb).
  { intros x y Hin. apply Hgrid in Hin. apply Htot. tauto. }
  exists b. split; [exact E |]. rewrite Hb. split.
  - intros (x & y & r & g & bl & a & Hin & Hat & Ha).
    apply Hgrid in Hin. exists x, y, r, g, bl, a. tauto.
  - intros (x & y & r & g & bl & a & Hin & Hmx & Hmy & Hat & Ha).
    exists x, y, r, g, bl, a. split; [apply Hgrid; tauto | auto].
Qed.

(** [hasAlpha] looks at a grid only: it returns [true] exactly when
    one of the points whose distance from the left edge is a multiple
    of [max(1, Dx/5)] and whose distance from the top edge is a
    multiple of [max(1, Dy/5)] has an alpha below [0xffff]; a
    transparent pixel off the grid is not seen. *)
Theorem hasAlpha_inspects_grid (bounds : Rectangle)
    (at_rgba : Z -> Z -> option (Z * Z * Z * Z)) :
  small bounds ->
  (forall x y, PtIn x y bounds = true -> at_rgba x y <> None) ->
  exists b, hasAlpha bounds at_rgba = Some b
    /\ (b = true <->
        exists x y r g bl a,
          PtIn x y bounds = true
          /\ (x - X (Min bounds))
               mod Z.max 1 ((X (Max bounds) - X (Min bounds)) / 5) = 0
          /\ (y - Y (Min bounds))
               mod Z.max 1 ((Y (Max bounds) - Y (Min bounds)) / 5) = 0
          /\ at_rgba x y = Some (r, g, bl, a) /\ a < 65535).
Proof. exact (hasAlpha_spec bounds at_rgba). Qed.

Lemma light2_total (x y : Z) :
  PtIn x y (Rect 0 0 2 2) = true -> At (ImgRGBA Examples.light2) x y <> None.
Proof.
  intros Hin. apply PtIn_spec in Hin. cbn in Hin.
  assert (Hx : x = 0 \/ x = 1) by lia. assert (Hy : y = 0 \/ y = 1) by lia.
  destruct Hx as [-> | ->]; destruct Hy as [-> | ->]; vm_compute; discriminate.
Qed.

Lemma small_2x2 : small (Rect 0 0 2 2).
Proof. unfold small. cbn. lia. Qed.

Lemma strip10_total (x y : Z) :
  PtIn x y (Rect 0 0 10 1) = true -> At (ImgRGBA Examples.strip10) x y <> None.
Proof.
  intros Hin. apply PtIn_spec in Hin. cbn in Hin.
  assert (Hy : y = 0) by lia. subst y.
  assert (Hx : x = 0 \/ x = 1 \/ x = 2 \/ x = 3 \/ x = 4 \/ x = 5 \/ x = 6
               \/ x = 7 \/ x = 8 \/ x = 9) by lia.
  repeat (destruct Hx as [-> | Hx]; [vm_compute; discriminate |]).
  subst x. vm_compute. discriminate.
Qed.

Lemma hasAlpha_inspects_grid_witness :
  hasAlpha (Rect 0 0 10 1) (At (ImgRGBA Examples.strip10)) = Some false
  /\ At (ImgRGBA Examples.strip10) 1 0 = Some (0, 0, 0, 0).
Proof.
  split; [| vm_compute; reflexivity].
  destruct (hasAlpha_inspects_grid (Rect 0 0 10 1)
              (At (ImgRGBA Examples.strip10)))
    as (b & E & Hb).
  - unfold small. cbn. lia.
  - exact strip10_total.
  - destruct b; [| exact E]. exfalso.
    destruct (proj1 Hb eq_refl) as (x & y & r & g & bl & a & Hin & Hmx & Hmy
                                    & Hat & Ha).
    apply PtIn_spec in Hin. cbn in Hin, Hmx.
    change (Z.max 1 (10 / 5)) with 2 in Hmx. rewrite Z.sub_0_r in Hmx.
    assert (Hy : y = 0) by lia. subst y.
    assert (Hx : x = 0 \/ x = 2 \/ x = 4 \/ x = 6 \/ x = 8).
    { pose proof (Z.div_mod x 2 ltac:(lia)) as Hd. rewrite Hmx in Hd. lia. }
    destruct Hx as [-> | [-> | [-> | [-> | ->]]]];
      vm_compute in Hat; injection Hat as <- <- <- <-; lia.
Defined.

(** On an image less than ten pixels wide and high the grid is the
    whole image: [hasAlpha] returns [true] exactly when some pixel has
    an alpha below [0xffff]. *)
Theorem hasAlpha_exhaustive_below_ten (bounds : Rectangle)
    (at_rgba : Z -> Z -> option (Z * Z * Z * Z)) :
  small bounds ->
  X (Max bounds) - X (Min bounds) < 10 ->
  Y (Max bounds) - Y (Min bounds) < 10 ->
  (forall x y, PtIn x y bounds = true -> at_rgba x y <> None) ->
  exists b, hasAlpha bounds at_rgba = Some b
    /\ (b = true <->
        exists x y r g bl a,
          PtIn x y bounds = true
          /\ at_rgba x y = Some (r, g, bl, a) /\ a < 65535).
Proof.
  intros Hs Hw Hh Htot. pose proof Hs as (H1 & H2 & H3 & H4).
  destruct (hasAlpha_spec bounds at_rgba Hs Htot) as (b & E & Hb).
  assert (Hstep : forall d, 0 <= d < 10 -> Z.max 1 (d / 5) = 1).
  { intros d Hd. assert (d / 5 < 2) by (apply Z.div_lt_upper_bound; lia).
    pose proof (Z.div_pos d 5 ltac:(lia) ltac:(lia)). lia. }
  rewrite !Hstep in Hb by lia.
  exists b. split; [exact E |]. rewrite Hb. split.
  - intros (x & y & r & g & bl & a & Hin & _ & _ & Hat & Ha).
    exists x, y, r, g, bl, a. auto.
  - intros (x & y & r & g & bl & a & Hin & Hat & Ha).
    exists x, y, r, g, bl, a. rewrite !Z.mod_1_r. auto.
Qed.

Lemma hasAlpha_exhaustive_below_ten_witness :
  exists b, hasAlpha (Rect 0 0 2 2) (At (ImgRGBA Examples.light2)) = Some b
    /\ (b = true <->
        exists x y r g bl a,
          PtIn x y (Rect 0 0 2 2) = true
          /\ At (ImgRGBA Examples.light2) x y = Some (r, g, bl, a)
          /\ a < 65535).
Proof.
  apply (hasAlpha_exhaustive_below_ten (Rect 0 0 2 2)
           (At (ImgRGBA Examples.light2)) small_2x2).
  - cbn. lia.
  - cbn. lia.
  - exact light2_total.
Defined.

End HasAlphaFacts.

(** ** Grayscale conversion *)

Section GrayscaleFacts.
Import Image Mask Grayscale Shape.

Ltac unwrap :=
  repeat match goal with
         | |- context [GoInt.wrap64 ?z] =>
             lazymatch z with
             | context [GoInt.wrap64 _] => fail
             | _ => rewrite (wrap64_small z)
                      by (unfold GoInt.min_int, GoInt.max_int; nia)
             end
         end.

Lemma luma_between (r g b : Z) :
  0 <= r <= 255 -> 0 <= g <= 255 -> 0 <= b <= 255 ->
  luma r g b = (299 * r + 587 * g + 114 * b) / 1000
  /\ Background.uint8 (luma r g b) = luma r g b
  /\ Z.min r (Z.min g b) <= luma r g b <= Z.max r (Z.max g b).
Proof.
  intros Hr Hg Hb. unfold luma.
  rewrite (Z.mod_small (299 * r + 587 * g + 114 * b)) by lia.
  set (s := 299 * r + 587 * g + 114 * b).
  assert (Hlo : Z.min r (Z.min g b) <= s / 1000)
    by (apply Z.div_le_lower_bound; unfold s; lia).
  assert (Hhi : s / 1000 <= Z.max r (Z.max g b))
    by (apply Z.div_le_upper_bound; unfold s; lia).
  split; [reflexivity |]. split; [| lia].
  unfold Background.uint8. apply Z.mod_small. lia.
Qed.

Lemma convertToGray_spec (p : Packed) :
  packed_ok p ->
  exists gray,
    convertToGray (pPix p) (pStride p) (pBounds p) = Some gray
    /\ Bounds gray = pBounds p /\ gray_wf gray
    /\ forall x y, PtIn x y (pBounds p) = true ->
         exists r g b a,
           bytesAt p x y = Some (r, g, b, a)
           /\ GrayAt gray x y = Some (Background.uint8 (luma r g b)).
Proof.
  intros (Hsmall & HS & Hlen).
  destruct (Dx_small _ Hsmall) as [Ew Hw].
  destruct (Dy_small _ Hsmall) as [Eh Hh].
  rewrite <- Ew, <- Eh in Hlen.
  set (bounds := pBounds p) in *. set (S := pStride p) in *.
  set (srcPix := pPix p) in *.
  set (w := Dx bounds) in *. set (h := Dy bounds) in *.
  set (val := fun y x : Z =>
                match index srcPix (y * S + x * 4),
                      index srcPix (y * S + (x * 4 + 1)),
                      index srcPix (y * S + (x * 4 + 2)) with
                | Some r, Some g, Some b =>
                    Some (Some (Background.uint8 (luma r g b)))
                | _, _, _ => @None (option Z)
                end).
  destruct (packed_rows srcPix S w h
              (fun (y : Z) (acc : option (list Z)) (x : Z) =>
                 match acc with
                 | None => None
                 | Some dstPix =>
                     let i := GoInt.mul x 4 in
                     let src k :=
                       if k <? GoInt.mul w 4
                       then index srcPix (GoInt.add (GoInt.mul y S) k)
                       else None in
                     match src i, src (GoInt.add i 1), src (GoInt.add i 2) with
                     | Some r, Some g, Some b =>
                         store dstPix (GoInt.add (GoInt.mul y w) x)
                               (Background.uint8 (luma r g b))
                     | _, _, _ => None
                     end
                 end) val Hw Hh HS Hlen) as (d' & E & L & P).
  - intros y x dp Hy Hx. cbv zeta. unfold GoInt.add, GoInt.mul. unwrap.
    destruct (Z.ltb_spec (x * 4) (w * 4)); [| lia].
    destruct (Z.ltb_spec (x * 4 + 1) (w * 4)); [| lia].
    destruct (Z.ltb_spec (x * 4 + 2) (w * 4)); [| lia].
    unfold val.
    destruct (index srcPix (y * S + x * 4)); [| reflexivity].
    destruct (index srcPix (y * S + (x * 4 + 1))); [| reflexivity].
    destruct (index srcPix (y * S + (x * 4 + 2))); reflexivity.
  - reflexivity.
  - intros y x Hy Hx. unfold val. specialize (Hlen ltac:(lia)).
    destruct (index_in_range srcPix (y * S + x * 4)) as [r ->]; [nia |].
    destruct (index_in_range srcPix (y * S + (x * 4 + 1))) as [g ->]; [nia |].
    destruct (index_in_range srcPix (y * S + (x * 4 + 2))) as [b ->]; [nia |].
    discriminate.
  - exists (mkGray d' w bounds). split.
    + unfold convertToGray. cbv zeta. unfold NewGray. cbn [Stride Pix].
      fold w h.
      assert (Emul : GoInt.mul w h = w * h)
        by (unfold GoInt.mul; apply wrap64_small;
            unfold GoInt.min_int, GoInt.max_int; nia).
      cbv zeta in E. rewrite Emul, E. reflexivity.
    + split; [reflexivity |]. split.
      { unfold gray_wf. cbn [Bounds Stride Pix]. fold w h.
        split; [exact Hsmall |]. split; [reflexivity |]. rewrite L. nia. }
      intros x y Hin. pose proof Hin as Hin'. apply PtIn_spec in Hin'.
      fold bounds in Hin'.
      assert (Hx : 0 <= x - X (Min bounds) < w) by lia.
      assert (Hy : 0 <= y - Y (Min bounds) < h) by lia.
      specialize (Hlen ltac:(lia)).
      set (x' := x - X (Min bounds)) in *. set (y' := y - Y (Min bounds)) in *.
      assert (Hoff : PixOffset4 p x y = y' * S + x' * 4).
      { unfold PixOffset4. fold bounds S x' y'.
        unfold GoInt.add, GoInt.mul, GoInt.sub. fold x' y'. unwrap.
        reflexivity. }
      assert (Hlast : y' * S + x' * 4 + 3 < Z.of_nat (length srcPix)) by nia.
      assert (Hfirst : 0 <= y' * S + x' * 4) by nia.
      unfold bytesAt. fold bounds. rewrite Hin. cbv zeta. rewrite Hoff.
      fold srcPix.
      destruct (index_in_range srcPix (y' * S + x' * 4)) as [r Er]; [lia |].
      destruct (index_in_range srcPix (y' * S + x' * 4 + 1)) as [g Eg]; [lia |].
      destruct (index_in_range srcPix (y' * S + x' * 4 + 2)) as [b Eb]; [lia |].
      destruct (index_in_range srcPix (y' * S + x' * 4 + 3)) as [a Ea]; [lia |].
      rewrite Er, Eg, Eb, Ea. exists r, g, b, a. split; [reflexivity |].
      unfold GrayAt. cbn [Bounds Pix]. rewrite Hin.
      unfold PixOffset. cbn [Bounds Stride].
      unfold GoInt.add, GoInt.mul, GoInt.sub. fold x' y'. unwrap.
      rewrite (P y' x' Hy Hx). unfold val.
      replace (y' * S + (x' * 4 + 1)) with (y' * S + x' * 4 + 1) by lia.
      replace (y' * S + (x' * 4 + 2)) with (y' * S + x' * 4 + 2) by lia.
      rewrite Er, Eg, Eb. reflexivity.
Qed.

Lemma bytesAt_bytes (p : Packed) (x y r g b a : Z) :
  bytes (pPix p) -> PtIn x y (pBounds p) = true ->
  bytesAt p x y = Some (r, g, b, a) ->
  0 <= r <= 255 /\ 0 <= g <= 255 /\ 0 <= b <= 255 /\ 0 <= a <= 255.
Proof.
  intros Hb Hin H. unfold bytesAt in H. rewrite Hin in H. cbv zeta in H.
  destruct (index (pPix p) (PixOffset4 p x y)) eqn:Er; [| discriminate].
  destruct (index (pPix p) (PixOffset4 p x y + 1)) eqn:Eg; [| discriminate].
  destruct (index (pPix p) (PixOffset4 p x y + 2)) eqn:Eb; [| discriminate].
  destruct (index (pPix p) (PixOffset4 p x y + 3)) eqn:Ea; [| discriminate].
  injection H as <- <- <- <-.
  unfold bytes in Hb. rewrite Forall_forall in Hb.
  unfold index in Er, Eg, Eb, Ea.
  destruct (PixOffset4 p x y <? 0); [discriminate |].
  destruct (PixOffset4 p x y + 1 <? 0); [discriminate |].
  destruct (PixOffset4 p x y + 2 <? 0); [discriminate |].
  destruct (PixOffset4 p x y + 3 <? 0); [discriminate |].
  apply nth_error_In in Er, Eg, Eb, Ea. auto.
Qed.

(** On a packed image that holds all its rows, [convertToGray]
    returns, and every pixel of the result is
    [(299 r + 587 g + 114 b) / 1000] of the three colour bytes stored
    for that pixel: a value between the smallest and the largest of the
    three, so a pixel with [r = g = b] keeps that value.  The alpha
    byte plays no part, also for an [*image.NRGBA]. *)
Theorem convertToGray_weighted_mean (p : Packed) :
  packed_ok p -> bytes (pPix p) ->
  exists gray,
    convertToGray (pPix p) (pStride p) (pBounds p) = Some gray
    /\ Bounds gray = pBounds p
    /\ forall x y, PtIn x y (pBounds p) = true ->
         exists r g b a v,
           bytesAt p x y = Some (r, g, b, a)
           /\ GrayAt gray x y = Some v
           /\ v = (299 * r + 587 * g + 114 * b) / 1000
           /\ Z.min r (Z.min g b) <= v <= Z.max r (Z.max g b).
Proof.
  intros Hp Hb.
  destruct (convertToGray_spec p Hp) as (gray & E & B & _ & G).
  exists gray. split; [exact E |]. split; [exact B |].
  intros x y Hin. destruct (G x y Hin) as (r & g & b & a & Hbytes & Hg).
  destruct (bytesAt_bytes p x y r g b a Hb Hin Hbytes) as (Hr & Hgg & Hbb & _).
  destruct (luma_between r g b Hr Hgg Hbb) as (El & Eu & Hbetween).
  exists r, g, b, a, (luma r g b).
  split; [exact Hbytes |]. split; [rewrite Hg, Eu; reflexivity |].
  split; [exact El | exact Hbetween].
Qed.

Lemma convertToGray_weighted_mean_witness :
  exists gray,
    convertToGray (pPix Examples.light2) (pStride Examples.light2)
                  (pBounds Examples.light2) = Some gray
    /\ GrayAt gray 0 1 = Some 249.
Proof.
  destruct (convertToGray_weighted_mean Examples.light2)
    as (gray & E & B & G).
  - unfold packed_ok, small. cbn. repeat split; lia.
  - unfold bytes. cbn. repeat constructor; lia.
  - exists gray. split; [exact E |].
    destruct (G 0 1 eq_refl) as (r & g & b & a & v & Hb & Hv & Ev & _).
    vm_compute in Hb. injection Hb as <- <- <- <-.
    rewrite Hv, Ev. reflexivity.
Defined.

End GrayscaleFacts.

(** ** The two paths of [convertToGrayscale] *)

Section GrayscalePaths.
Import Image Mask Grayscale Shape.

Lemma fold_left_map_arg {A B C : Type} (f : A -> C -> A) (g : B -> C)
    (l : list B) (a : A) :
  fold_left f (map g l) a = fold_left (fun a' x => f a' (g x)) l a.
Proof.
  revert a. induction l as [| x l IH]; intros a; [reflexivity |].
  cbn. apply IH.
Qed.

(** Two nested loops over columns within rows visit the points of the
    rectangle row by row. *)
Lemma nested_fold_points {A : Type} (f : Z -> A -> Z -> A) (xs ys : list Z)
    (a : A) :
  fold_left (fun acc y => fold_left (f y) xs acc) ys a
  = fold_left (fun acc q => f (snd q) acc (fst q))
              (flat_map (fun y => map (fun x => (x, y)) xs) ys) a.
Proof.
  revert a. induction ys as [| y ys IH]; intros a; [reflexivity |].
  cbn [fold_left flat_map]. rewrite fold_left_app, fold_left_map_arg.
  cbn [fst snd]. apply IH.
Qed.

Lemma grayGeneric_spec (bounds : Rectangle)
    (at_rgba : Z -> Z -> option (Z * Z * Z * Z)) :
  small bounds ->
  (forall x y, PtIn x y bounds = true -> at_rgba x y <> None) ->
  exists m, grayGeneric bounds at_rgba = Some m
    /\ Bounds m = bounds /\ gray_wf m
    /\ forall x y, PtIn x y bounds = true ->
         exists r g b a, at_rgba x y = Some (r, g, b, a)
           /\ GrayAt m x y
              = Some (Background.uint8
                        (luma (Z.shiftr r 8) (Z.shiftr g 8) (Z.shiftr b 8))).
Proof.
  intros Hs Htot.
  destruct (Dx_small _ Hs) as [Ew Hw]. destruct (Dy_small _ Hs) as [Eh Hh].
  pose proof Hs as (H1 & H2 & H3 & H4).
  set (val := fun p : Z * Z =>
                match at_rgba (fst p) (snd p) with
                | None => None
                | Some (r, g, b, _) =>
                    Some (Some (Background.uint8
                                  (luma (Z.shiftr r 8) (Z.shiftr g 8)
                                        (Z.shiftr b 8))))
                end).
  set (rel := flat_map (fun y => map (fun x => (x, y)) (range 0 (Dx bounds)))
                       (range 0 (Dy bounds))).
  set (abs := fun q : Z * Z =>
                (X (Min bounds) + fst q, Y (Min bounds) + snd q)).
  assert (Hrel : forall q, In q rel <->
                   0 <= fst q < Dx bounds /\ 0 <= snd q < Dy bounds).
  { intros [x y]. unfold rel. rewrite in_flat_map. cbn [fst snd]. split.
    - intros (y' & Hy' & Hx'). apply in_map_iff in Hx' as (x' & Heq & Hx').
      injection Heq as <- <-. apply in_range_iff in Hy', Hx'. lia.
    - intros [Hx Hy]. exists y. split; [apply in_range_iff; lia |].
      apply in_map_iff. exists x. split; [reflexivity |].
      apply in_range_iff. lia. }
  destruct (setgray_fold val (map abs rel) (NewGray bounds)
              (NewGray_wf bounds Hs)) as (m & E & B & W & G).
  { intros p Hp. apply in_map_iff in Hp as (q & <- & Hq).
    apply Hrel in Hq. unfold val, abs. cbn [fst snd].
    assert (Hin : PtIn (X (Min bounds) + fst q) (Y (Min bounds) + snd q) bounds
                  = true) by (apply PtIn_spec; lia).
    specialize (Htot _ _ Hin).
    destruct (at_rgba (X (Min bounds) + fst q) (Y (Min bounds) + snd q))
      as [[[[r g] b] a] |]; congruence. }
  exists m. split.
  - unfold grayGeneric. cbv zeta. rewrite nested_fold_points. fold rel.
    rewrite <- E, fold_left_map_arg.
    apply fold_left_ext_in. intros [mask |] q Hq; [| reflexivity].
    apply Hrel in Hq. unfold val, abs. cbn [fst snd].
    unfold GoInt.add.
    rewrite !wrap64_small by (unfold GoInt.min_int, GoInt.max_int; lia).
    destruct (at_rgba (X (Min bounds) + fst q) (Y (Min bounds) + snd q))
      as [[[[r g] b] a] |]; reflexivity.
  - split; [exact B |]. split; [exact W |].
    intros x y Hin. change (Bounds (NewGray bounds)) with bounds in G.
    rewrite (G x y Hin).
    assert (Hamong : among x y (map abs rel) = true).
    { unfold among. apply existsb_exists. exists (x, y).
      split; [| cbn; rewrite !Z.eqb_refl; reflexivity].
      apply in_map_iff. exists (x - X (Min bounds), y - Y (Min bounds)).
      apply PtIn_spec in Hin. split.
      - unfold abs. cbn [fst snd]. f_equal; lia.
      - apply Hrel. cbn [fst snd]. lia. }
    rewrite Hamong. unfold val. cbn [fst snd]. specialize (Htot x y Hin).
    destruct (at_rgba x y) as [[[[r g] b] a] |]; [| congruence].
    exists r, g, b, a. split; reflexivity.
Qed.

Lemma widen_shiftr (c : Z) : 0 <= c <= 255 -> Z.shiftr (widen c) 8 = c.
Proof.
  intros Hc. unfold widen.
  rewrite Z.shiftr_lor, Z.shiftr_shiftl_l by lia.
  rewrite Z.sub_diag, Z.shiftl_0_r.
  rewrite (Z.shiftr_div_pow2 c 8) by lia.
  rewrite Z.div_small by (change (2 ^ 8) with 256; lia).
  apply Z.lor_0_l.
Qed.

(** For an [*image.RGBA] holding all its rows, the generic loop of
    [convertToGrayscale] over [At(x, y).RGBA()] and the fast path over
    [Pix] return the same image. *)
Theorem convertToGrayscale_paths_agree (p : Packed) :
  packed_ok p -> bytes (pPix p) ->
  grayGeneric (pBounds p) (At (ImgRGBA p)) = convertToGrayscale (ImgRGBA p)
  /\ convertToGrayscale (ImgRGBA p) <> None.
Proof.
  intros Hp Hb.
  destruct (convertToGray_spec p Hp) as (gray & E & B & W & G).
  pose proof Hp as (Hs & _).
  cbn [convertToGrayscale Bounds_of At]. rewrite E.
  split; [| discriminate].
  destruct (grayGeneric_spec (pBounds p) (RGBA_At p) Hs)
    as (m & Em & Bm & Wm & Gm).
  - intros x y Hin. destruct (G x y Hin) as (r & g & b & a & Hbytes & _).
    unfold RGBA_At. rewrite Hbytes. discriminate.
  - rewrite Em. f_equal. apply gray_ext; try assumption; [congruence |].
    intros x y Hin. rewrite Bm in Hin.
    destruct (G x y Hin) as (r & g & b & a & Hbytes & ->).
    destruct (Gm x y Hin) as (r1 & g1 & b1 & a1 & Hat1 & ->).
    unfold RGBA_At in Hat1. rewrite Hbytes in Hat1.
    injection Hat1 as <- <- <- <-.
    destruct (bytesAt_bytes p x y r g b a Hb Hin Hbytes) as (Hr & Hg & Hbb & _).
    rewrite !widen_shiftr by assumption. reflexivity.
Qed.

Lemma convertToGrayscale_paths_agree_witness :
  grayGeneric (pBounds Examples.light2) (At (ImgRGBA Examples.light2))
  = convertToGrayscale (ImgRGBA Examples.light2).
Proof.
  apply (convertToGrayscale_paths_agree Examples.light2).
  - unfold packed_ok, small. cbn. repeat split; lia.
  - unfold bytes. cbn. repeat constructor; lia.
Defined.

End GrayscalePaths.

(** ** The edge mask *)

Section EdgesFacts.
Import Image Mask Grayscale Edges Shape.

Lemma round_aux_sign (s : bool) (m e : Z) (l : location) :
  unsigned (binary_round_aux F64.prec F64.emax s m e l) = negb s
  \/ binary_round_aux F64.prec F64.emax s m e l = S754_nan.
Proof.
  unfold binary_round_aux.
  destruct (shr_fexp F64.prec F64.emax m e l) as [mrs' e'].
  destruct (shr_fexp F64.prec F64.emax _ e' loc_Exact) as [mrs'' e''].
  destruct (shr_m mrs''); [left; reflexivity | | right; reflexivity].
  destruct (e'' <=? F64.emax - F64.prec); left; reflexivity.
Qed.

(** A square is never below zero. *)
Lemma square_unsigned (t : spec_float) : unsigned (F64.mul t t) = true.
Proof.
  destruct t as [s | s | | s m e].
  - destruct s; reflexivity.
  - destruct s; reflexivity.
  - reflexivity.
  - unfold F64.mul, SFmul.
    destruct (round_aux_sign (xorb s s) (Z.pos (m * m)) (e + e) loc_Exact)
      as [H | H]; rewrite H; [destruct s |]; reflexivity.
Qed.

Lemma zero_not_above_unsigned (f : spec_float) :
  unsigned f = true -> F64.gtb F64.zero f = false.
Proof.
  destruct f as [s | s | | s m e]; try reflexivity.
  - destruct s; [discriminate | reflexivity].
  - destruct s; [discriminate | reflexivity].
Qed.

(** A loop over a list of indices that stores the value [val] gives
    for each index, or leaves the element. *)
Lemma store_fold (val : Z -> option (option Z)) (idxs : list Z) (d : list Z) :
  (forall i, In i idxs -> 0 <= i < Z.of_nat (length d) /\ val i <> None) ->
  exists d',
    fold_left (fun acc i =>
                 match acc with
                 | None => None
                 | Some dp =>
                     match val i with
                     | None => None
                     | Some None => Some dp
                     | Some (Some v) => store dp i v
                     end
                 end) idxs (Some d) = Some d'
    /\ length d' = length d
    /\ forall j, index d' j
                 = if listed j idxs
                   then match val j with
                        | Some (Some v) => Some v
                        | _ => index d j
                        end
                   else index d j.
Proof.
  revert d. induction idxs as [| i idxs IH]; intros d H.
  - exists d. split; [reflexivity |]. split; reflexivity.
  - cbn [fold_left].
    destruct (H i (or_introl eq_refl)) as [Hi Hv].
    destruct (val i) as [[v |] |] eqn:Ev; [| | congruence].
    + destruct (store_spec d i v Hi) as (d1 & E1 & L1 & I1). rewrite E1.
      destruct (IH d1) as (d' & E & L & I).
      { intros k Hk. rewrite L1. apply H. now right. }
      exists d'. split; [exact E |]. split; [lia |].
      intros j. rewrite I, I1. unfold listed. cbn [existsb].
      fold (listed j idxs).
      destruct (Z.eqb_spec j i) as [-> | Hne]; cbn [orb].
      * rewrite Ev. destruct (listed i idxs); reflexivity.
      * reflexivity.
    + destruct (IH d) as (d' & E & L & I).
      { intros k Hk. apply H. now right. }
      exists d'. split; [exact E |]. split; [exact L |].
      intros j. rewrite I. unfold listed. cbn [existsb].
      fold (listed j idxs).
      destruct (Z.eqb_spec j i) as [-> | Hne]; cbn [orb]; [| reflexivity].
      rewrite Ev. destruct (listed i idxs); reflexivity.
Qed.

Lemma listed_interior (w h x y : Z) :
  0 <= x < w -> 0 <= y < h ->
  listed (y * w + x)
    (map (fun q : Z * Z => snd q * w + fst q)
         (flat_map (fun y' => map (fun x' => (x', y')) (range 1 (w - 1)))
                   (range 1 (h - 1))))
  = (1 <=? x) && (x <? w - 1) && (1 <=? y) && (y <? h - 1).
Proof.
  intros Hx Hy.
  destruct ((1 <=? x) && (x <? w - 1) && (1 <=? y) && (y <? h - 1)) eqn:Hc.
  - rewrite !andb_true_iff, !Z.leb_le, !Z.ltb_lt in Hc.
    unfold listed. apply existsb_exists. exists (y * w + x).
    split; [| apply Z.eqb_refl].
    apply in_map_iff. exists (x, y). split; [reflexivity |].
    apply in_flat_map. exists y. split; [apply in_range_iff; lia |].
    apply in_map_iff. exists x. split; [reflexivity |].
    apply in_range_iff. lia.
  - apply not_true_is_false. intros Hl. unfold listed in Hl.
    apply existsb_exists in Hl as (j & Hj & Heq). apply Z.eqb_eq in Heq.
    apply in_map_iff in Hj as ([x' y'] & Ej & Hq). cbn [fst snd] in Ej.
    apply in_flat_map in Hq as (y'' & Hy'' & Hx'').
    apply in_map_iff in Hx'' as (x'' & Eq & Hx'').
    injection Eq as <- <-. apply in_range_iff in Hy'', Hx''.
    assert (y = y'') by nia. assert (x = x'') by nia. subst.
    rewrite <- not_true_iff_false in Hc. apply Hc.
    rewrite !andb_true_iff, !Z.leb_le, !Z.ltb_lt. lia.
Qed.

Lemma magSq_reads (grayPix : list Z) (w idx : Z) :
  0 <= w <= 2 ^ 29 ->
  w + 1 <= idx -> idx + w + 1 < Z.of_nat (length grayPix) ->
  idx <= 2 ^ 60 ->
  exists p0 p1 p2 p3 p5 p6 p7 p8,
    index grayPix (idx - w - 1) = Some p0 /\ index grayPix (idx - w) = Some p1
    /\ index grayPix (idx - w + 1) = Some p2 /\ index grayPix (idx - 1) = Some p3
    /\ index grayPix (idx + 1) = Some p5 /\ index grayPix (idx + w - 1) = Some p6
    /\ index grayPix (idx + w) = Some p7 /\ index grayPix (idx + w + 1) = Some p8
    /\ magSq grayPix w idx
       = magSq [p0; p1; p2; p3; 0; p5; p6; p7; p8] 3 4.
Proof.
  intros Hw Hlo Hhi Hbig.
  destruct (index_in_range grayPix (idx - w - 1) ltac:(lia)) as [p0 E0].
  destruct (index_in_range grayPix (idx - w) ltac:(lia)) as [p1 E1].
  destruct (index_in_range grayPix (idx - w + 1) ltac:(lia)) as [p2 E2].
  destruct (index_in_range grayPix (idx - 1) ltac:(lia)) as [p3 E3].
  destruct (index_in_range grayPix (idx + 1) ltac:(lia)) as [p5 E5].
  destruct (index_in_range grayPix (idx + w - 1) ltac:(lia)) as [p6 E6].
  destruct (index_in_range grayPix (idx + w) ltac:(lia)) as [p7 E7].
  destruct (index_in_range grayPix (idx + w + 1) ltac:(lia)) as [p8 E8].
  exists p0, p1, p2, p3, p5, p6, p7, p8.
  repeat (split; [assumption |]).
  unfold magSq at 1. cbv zeta. unfold GoInt.add, GoInt.sub.
  rewrite !(wrap64_small (idx - w)), !(wrap64_small (idx + w)),
          (wrap64_small (idx - 1)), (wrap64_small (idx + 1))
    by (unfold GoInt.min_int, GoInt.max_int; lia).
  rewrite !wrap64_small by (unfold GoInt.min_int, GoInt.max_int; lia).
  rewrite E0, E1, E2, E3, E5, E6, E7, E8. reflexivity.
Qed.

Lemma magSq_window (p0 p1 p2 p3 c p5 p6 p7 p8 : Z) :
  exists m, magSq [p0; p1; p2; p3; c; p5; p6; p7; p8] 3 4 = Some m.
Proof. eexists. reflexivity. Qed.

Lemma flat_table :
  forallb (fun v => match magSq [v; v; v; v; 0; v; v; v; v] 3 4 with
                    | Some (S754_zero false) => true
                    | _ => false
                    end) (range 0 256) = true.
Proof. vm_compute. reflexivity. Qed.

Lemma edgesOf_spec (gray : Gray) (bounds : Rectangle) (threshold : spec_float) :
  gray_wf gray -> Bounds gray = bounds ->
  exists mask,
    edgesOf gray bounds threshold = Some mask
    /\ Bounds mask = bounds /\ gray_wf mask
    /\ forall x y, PtIn x y bounds = true ->
         let x' := x - X (Min bounds) in
         let y' := y - Y (Min bounds) in
         let w := X (Max bounds) - X (Min bounds) in
         let h := Y (Max bounds) - Y (Min bounds) in
         if (1 <=? x') && (x' <? w - 1) && (1 <=? y') && (y' <? h - 1)
         then exists p0 p1 p2 p3 p5 p6 p7 p8 m,
                GrayAt gray (x - 1) (y - 1) = Some p0
                /\ GrayAt gray x (y - 1) = Some p1
                /\ GrayAt gray (x + 1) (y - 1) = Some p2
                /\ GrayAt gray (x - 1) y = Some p3
                /\ GrayAt gray (x + 1) y = Some p5
                /\ GrayAt gray (x - 1) (y + 1) = Some p6
                /\ GrayAt gray x (y + 1) = Some p7
                /\ GrayAt gray (x + 1) (y + 1) = Some p8
                /\ magSq [p0; p1; p2; p3; 0; p5; p6; p7; p8] 3 4 = Some m
                /\ GrayAt mask x y
                   = Some (if F64.gtb m (F64.mul threshold threshold)
                           then 255 else 0)
         else GrayAt mask x y = Some 0.
Proof.
  intros Wg <-. pose proof Wg as (Hs & HS & HL).
  set (bounds := Bounds gray) in *.
  destruct (Dx_small _ Hs) as [Ew Hw]. destruct (Dy_small _ Hs) as [Eh Hh].
  pose proof Hs as (H1 & H2 & H3 & H4).
  set (w := Dx bounds) in *. set (h := Dy bounds) in *.
  set (thr := F64.mul threshold threshold).
  set (val := fun j : Z =>
                match magSq (Pix gray) w j with
                | None => None
                | Some m => if F64.gtb m thr then Some (Some 255) else Some None
                end).
  set (pts := flat_map (fun y' => map (fun x' => (x', y')) (range 1 (w - 1)))
                       (range 1 (h - 1))).
  set (idx := fun q : Z * Z => snd q * w + fst q).
  assert (Hpts : forall q, In q pts ->
                   1 <= fst q < w - 1 /\ 1 <= snd q < h - 1).
  { intros [x y] Hq. unfold pts in Hq. apply in_flat_map in Hq as (y' & Hy' & Hx').
    apply in_map_iff in Hx' as (x' & Eq & Hx'). injection Eq as <- <-.
    apply in_range_iff in Hy', Hx'. cbn [fst snd]. lia. }
  assert (Hreads : forall q, In q pts ->
            w + 1 <= idx q /\ idx q + w + 1 < Z.of_nat (length (Pix gray))
            /\ idx q <= 2 ^ 60).
  { intros q Hq. apply Hpts in Hq. unfold idx. rewrite HL. fold w h. nia. }
  destruct (store_fold val (map idx pts) (repeat 0 (Z.to_nat (w * h))))
    as (d' & E & L & I).
  { intros j Hj. apply in_map_iff in Hj as (q & <- & Hq).
    destruct (Hreads q Hq) as (R1 & R2 & R3).
    rewrite repeat_length. rewrite HL in R2. fold w h in R2.
    split; [lia |]. unfold val.
    destruct (magSq_reads (Pix gray) w (idx q) Hw R1
                ltac:(rewrite HL; fold w h; lia) R3)
      as (p0 & p1 & p2 & p3 & p5 & p6 & p7 & p8 & _ & _ & _ & _ & _ & _ & _ & _ & ->).
    destruct (magSq_window p0 p1 p2 p3 0 p5 p6 p7 p8) as [m ->].
    destruct (F64.gtb m thr); discriminate. }
  rewrite repeat_length in L.
  exists (mkGray d' w bounds). split.
  - unfold edgesOf. cbv zeta. fold bounds w h thr. rewrite HS. fold w.
    unfold NewGray. cbn [Stride Pix]. fold w h.
    assert (Emul : GoInt.mul w h = w * h)
      by (unfold GoInt.mul; apply wrap64_small;
          unfold GoInt.min_int, GoInt.max_int; nia).
    assert (Ew1 : GoInt.sub w 1 = w - 1)
      by (unfold GoInt.sub; apply wrap64_small;
          unfold GoInt.min_int, GoInt.max_int; lia).
    assert (Eh1 : GoInt.sub h 1 = h - 1)
      by (unfold GoInt.sub; apply wrap64_small;
          unfold GoInt.min_int, GoInt.max_int; lia).
    rewrite Emul, Ew1, Eh1, nested_fold_points. fold pts.
    match goal with
    | |- option_map _ ?f = _ => assert (Ef : f = Some d')
    end.
    { rewrite <- E, fold_left_map_arg.
      apply fold_left_ext_in. intros [maskPix |] q Hq; [| reflexivity].
      apply Hpts in Hq. unfold idx, val. cbn [fst snd].
      unfold GoInt.add, GoInt.mul.
      rewrite (wrap64_small (snd q * w))
        by (unfold GoInt.min_int, GoInt.max_int; nia).
      rewrite (wrap64_small (snd q * w + fst q))
        by (unfold GoInt.min_int, GoInt.max_int; nia).
      destruct (magSq (Pix gray) w (snd q * w + fst q)) as [m |];
        [| reflexivity].
      destruct (F64.gtb m thr); reflexivity. }
    rewrite Ef. reflexivity.
  - split; [reflexivity |].
    assert (Wm : gray_wf (mkGray d' w bounds)).
    { unfold gray_wf. cbn [Bounds Stride Pix]. fold w h.
      split; [exact Hs |]. split; [reflexivity |]. rewrite L. nia. }
    split; [exact Wm |].
    intros x y Hin. cbv zeta. rewrite <- Ew, <- Eh.
    pose proof Hin as Hin'. apply PtIn_spec in Hin'.
    set (x' := x - X (Min bounds)). set (y' := y - Y (Min bounds)).
    assert (Hx : 0 <= x' < w) by (unfold x'; lia).
    assert (Hy : 0 <= y' < h) by (unfold y'; lia).
    destruct (PixOffset_wf _ x y Wm Hin) as [Eo _].
    cbn [Bounds] in Eo. fold w x' y' in Eo.
    assert (Eg : GrayAt (mkGray d' w bounds) x y = index d' (y' * w + x')).
    { unfold GrayAt. cbn [Bounds Pix]. rewrite Hin, Eo. reflexivity. }
    rewrite Eg, I.
    rewrite (listed_interior w h x' y' Hx Hy
             : listed (y' * w + x') (map idx pts) = _).
    destruct ((1 <=? x') && (x' <? w - 1) && (1 <=? y') && (y' <? h - 1)) eqn:Hc.
    + rewrite !andb_true_iff, !Z.leb_le, !Z.ltb_lt in Hc.
      assert (Hnb : forall dx dy, -1 <= dx <= 1 -> -1 <= dy <= 1 ->
                GrayAt gray (x + dx) (y + dy)
                = index (Pix gray) (y' * w + x' + dy * w + dx)).
      { intros dx dy Hdx Hdy.
        assert (Hin2 : PtIn (x + dx) (y + dy) bounds = true)
          by (apply PtIn_spec; unfold x', y' in *; lia).
        destruct (PixOffset_wf gray _ _ Wg Hin2) as [Eo2 _].
        unfold GrayAt. fold bounds. rewrite Hin2, Eo2. fold bounds w.
        f_equal. unfold x', y'. lia. }
      destruct (magSq_reads (Pix gray) w (y' * w + x') Hw) as
        (p0 & p1 & p2 & p3 & p5 & p6 & p7 & p8
         & E0 & E1 & E2 & E3 & E5 & E6 & E7 & E8 & Em);
        [nia | rewrite HL; fold w h; nia | nia |].
      unfold val. rewrite Em.
      destruct (magSq_window p0 p1 p2 p3 0 p5 p6 p7 p8) as [m Emm].
      rewrite Emm.
      assert (G0 : GrayAt gray (x - 1) (y - 1) = Some p0).
      { pose proof (Hnb (-1) (-1) ltac:(lia) ltac:(lia)) as G.
        replace (x + -1) with (x - 1) in G by lia.
        replace (y + -1) with (y - 1) in G by lia.
        rewrite G, <- E0. f_equal; lia. }
      assert (G1 : GrayAt gray x (y - 1) = Some p1).
      { pose proof (Hnb (0) (-1) ltac:(lia) ltac:(lia)) as G.
        replace (x + 0) with x in G by lia.
        replace (y + -1) with (y - 1) in G by lia.
        rewrite G, <- E1. f_equal; lia. }
      assert (G2 : GrayAt gray (x + 1) (y - 1) = Some p2).
      { pose proof (Hnb (1) (-1) ltac:(lia) ltac:(lia)) as G.
        replace (x + 1) with (x + 1) in G by lia.
        replace (y + -1) with (y - 1) in G by lia.
        rewrite G, <- E2. f_equal; lia. }
      assert (G3 : GrayAt gray (x - 1) y = Some p3).
      { pose proof (Hnb (-1) (0) ltac:(lia) ltac:(lia)) as G.
        replace (x + -1) with (x - 1) in G by lia.
        replace (y + 0) with y in G by lia.
        rewrite G, <- E3. f_equal; lia. }
      assert (G5 : GrayAt gray (x + 1) y = Some p5).
      { pose proof (Hnb (1) (0) ltac:(lia) ltac:(lia)) as G.
        replace (x + 1) with (x + 1) in G by lia.
        replace (y + 0) with y in G by lia.
        rewrite G, <- E5. f_equal; lia. }
      assert (G6 : GrayAt gray (x - 1) (y + 1) = Some p6).
      { pose proof (Hnb (-1) (1) ltac:(lia) ltac:(lia)) as G.
        replace (x + -1) with (x - 1) in G by lia.
        replace (y + 1) with (y + 1) in G by lia.
        rewrite G, <- E6. f_equal; lia. }
      assert (G7 : GrayAt gray x (y + 1) = Some p7).
      { pose proof (Hnb (0) (1) ltac:(lia) ltac:(lia)) as G.
        replace (x + 0) with x in G by lia.
        replace (y + 1) with (y + 1) in G by lia.
        rewrite G, <- E7. f_equal; lia. }
      assert (G8 : GrayAt gray (x + 1) (y + 1) = Some p8).
      { pose proof (Hnb (1) (1) ltac:(lia) ltac:(lia)) as G.
        replace (x + 1) with (x + 1) in G by lia.
        replace (y + 1) with (y + 1) in G by lia.
        rewrite G, <- E8. f_equal; lia. }
      exists p0, p1, p2, p3, p5, p6, p7, p8, m.
      repeat (split; [assumption |]).
      rewrite index_repeat by nia.
      destruct (F64.gtb m thr); reflexivity.
    + apply index_repeat. nia.
Qed.

Lemma MaskFromEdges_packed (p : Packed) (threshold : spec_float) :
  packed_ok p ->
  exists gray mask,
    convertToGray (pPix p) (pStride p) (pBounds p) = Some gray
    /\ gray_wf gray /\ Bounds gray = pBounds p
    /\ MaskFromEdges (ImgRGBA p) threshold = Some mask
    /\ MaskFromEdges (ImgNRGBA p) threshold = Some mask
    /\ edgesOf gray (pBounds p) threshold = Some mask.
Proof.
  intros Hp. destruct (convertToGray_spec p Hp) as (gray & E & B & W & _).
  destruct (edgesOf_spec gray (pBounds p) threshold W B) as (mask & Em & _).
  exists gray, mask. unfold MaskFromEdges.
  cbn [convertToGrayscale Bounds_of]. rewrite E.
  split; [reflexivity |]. repeat (split; [assumption |]). exact Em.
Qed.

(** The edge mask of a packed image holding all its rows exists for
    every threshold; each of its pixels is 0 or 255, and the pixels of
    the outermost rows and columns are always 0 (so an image less than
    three pixels wide or high has an all-zero mask). *)
Theorem edges_border_unmarked (p : Packed) (threshold : spec_float) :
  packed_ok p ->
  exists mask,
    MaskFromEdges (ImgRGBA p) threshold = Some mask
    /\ MaskFromEdges (ImgNRGBA p) threshold = Some mask
    /\ Bounds mask = pBounds p
    /\ forall x y, PtIn x y (pBounds p) = true ->
         (GrayAt mask x y = Some 0 \/ GrayAt mask x y = Some 255)
         /\ (x = X (Min (pBounds p)) \/ x = X (Max (pBounds p)) - 1
             \/ y = Y (Min (pBounds p)) \/ y = Y (Max (pBounds p)) - 1 ->
             GrayAt mask x y = Some 0).
Proof.
  intros Hp.
  destruct (MaskFromEdges_packed p threshold Hp)
    as (gray & mask & _ & W & B & E1 & E2 & E).
  destruct (edgesOf_spec gray (pBounds p) threshold W B)
    as (mask' & E' & Bm & _ & G).
  rewrite E in E'. injection E' as <-.
  exists mask. split; [exact E1 |]. split; [exact E2 |]. split; [exact Bm |].
  intros x y Hin. specialize (G x y Hin). cbv zeta in G.
  set (c := (1 <=? x - X (Min (pBounds p)))
            && (x - X (Min (pBounds p))
                <? X (Max (pBounds p)) - X (Min (pBounds p)) - 1)
            && (1 <=? y - Y (Min (pBounds p)))
            && (y - Y (Min (pBounds p))
                <? Y (Max (pBounds p)) - Y (Min (pBounds p)) - 1)) in *.
  destruct c eqn:Hc.
  - destruct G as (p0 & p1 & p2 & p3 & p5 & p6 & p7 & p8 & m & _ & _ & _ & _
                   & _ & _ & _ & _ & _ & Gm).
    unfold c in Hc. rewrite !andb_true_iff, !Z.leb_le, !Z.ltb_lt in Hc.
    split; [| intros Hb; lia].
    rewrite Gm. destruct (F64.gtb m (F64.mul threshold threshold)); auto.
  - split; [left; exact G | intros _; exact G].
Qed.

Lemma edges_border_unmarked_witness :
  exists mask,
    MaskFromEdges (ImgRGBA Examples.light2) (F64.of_Z 200) = Some mask
    /\ GrayAt mask 0 0 = Some 0.
Proof.
  destruct (edges_border_unmarked Examples.light2 (F64.of_Z 200))
    as (mask & E & _ & _ & G).
  - unfold packed_ok, small. cbn. repeat split; lia.
  - exists mask. split; [exact E |].
    apply (G 0 0 eq_refl). left. reflexivity.
Defined.

(** The edge mask of a packed image ([*image.RGBA] or [*image.NRGBA])
    of a single colour is all zero, whatever the threshold (negative,
    infinite or NaN included). *)
Theorem edges_flat_image (p : Packed) (threshold : spec_float) (r g b : Z) :
  packed_ok p ->
  (forall x y, PtIn x y (pBounds p) = true ->
               exists a, bytesAt p x y = Some (r, g, b, a)) ->
  exists mask,
    MaskFromEdges (ImgRGBA p) threshold = Some mask
    /\ MaskFromEdges (ImgNRGBA p) threshold = Some mask
    /\ forall x y, PtIn x y (pBounds p) = true -> GrayAt mask x y = Some 0.
Proof.
  intros Hp Hflat.
  destruct (MaskFromEdges_packed p threshold Hp)
    as (gray & mask & Eg & W & B & E1 & E2 & E).
  destruct (convertToGray_spec p Hp) as (gray' & Eg' & _ & _ & Gg).
  rewrite Eg in Eg'. injection Eg' as <-.
  destruct (edgesOf_spec gray (pBounds p) threshold W B)
    as (mask' & E' & Bm & _ & G).
  rewrite E in E'. injection E' as <-.
  exists mask. split; [exact E1 |]. split; [exact E2 |].
  set (v := Background.uint8 (luma r g b)).
  assert (Hv : 0 <= v < 256) by (apply Z.mod_pos_bound; lia).
  assert (Hgray : forall x y pv, PtIn x y (pBounds p) = true ->
            GrayAt gray x y = Some pv -> pv = v).
  { intros x y pv Hin Hpv.
    destruct (Gg x y Hin) as (r' & g' & b' & a' & Hb & Hg').
    destruct (Hflat x y Hin) as (a & Ha). rewrite Ha in Hb.
    injection Hb as <- <- <- <-. rewrite Hg' in Hpv. injection Hpv as <-.
    reflexivity. }
  intros x y Hin. specialize (G x y Hin). cbv zeta in G.
  set (c := (1 <=? x - X (Min (pBounds p)))
            && (x - X (Min (pBounds p))
                <? X (Max (pBounds p)) - X (Min (pBounds p)) - 1)
            && (1 <=? y - Y (Min (pBounds p)))
            && (y - Y (Min (pBounds p))
                <? Y (Max (pBounds p)) - Y (Min (pBounds p)) - 1)) in *.
  destruct c eqn:Hc; [| exact G].
  destruct G as (p0 & p1 & p2 & p3 & p5 & p6 & p7 & p8 & m & G0 & G1 & G2 & G3
                 & G5 & G6 & G7 & G8 & Em & Gm).
  unfold c in Hc. rewrite !andb_true_iff, !Z.leb_le, !Z.ltb_lt in Hc.
  apply PtIn_spec in Hin.
  assert (Hnb : forall dx dy, -1 <= dx <= 1 -> -1 <= dy <= 1 ->
            PtIn (x + dx) (y + dy) (pBounds p) = true)
    by (intros; apply PtIn_spec; lia).
  apply (Hgray (x - 1) (y - 1)) in G0; [| apply (Hnb (-1) (-1)); lia].
  apply (Hgray x (y - 1)) in G1;
    [| replace x with (x + 0) by lia; apply (Hnb 0 (-1)); lia].
  apply (Hgray (x + 1) (y - 1)) in G2; [| apply (Hnb 1 (-1)); lia].
  apply (Hgray (x - 1) y) in G3;
    [| replace y with (y + 0) by lia; apply (Hnb (-1) 0); lia].
  apply (Hgray (x + 1) y) in G5;
    [| replace y with (y + 0) by lia; apply (Hnb 1 0); lia].
  apply (Hgray (x - 1) (y + 1)) in G6; [| apply (Hnb (-1) 1); lia].
  apply (Hgray x (y + 1)) in G7;
    [| replace x with (x + 0) by lia; apply (Hnb 0 1); lia].
  apply (Hgray (x + 1) (y + 1)) in G8; [| apply (Hnb 1 1); lia].
  subst p0 p1 p2 p3 p5 p6 p7 p8.
  pose proof flat_table as T. rewrite forallb_forall in T.
  specialize (T v ltac:(apply in_range_iff; lia)). rewrite Em in T.
  destruct m as [[|] | | |]; try discriminate.
  rewrite Gm.
  change (S754_zero false) with F64.zero.
  rewrite (zero_not_above_unsigned _ (square_unsigned threshold)).
  reflexivity.
Qed.

Lemma edges_flat_image_witness :
  exists mask,
    MaskFromEdges (ImgRGBA Examples.flat3) (F64.neg (F64.of_Z 1)) = Some mask
    /\ GrayAt mask 1 1 = Some 0.
Proof.
  destruct (edges_flat_image Examples.flat3 (F64.neg (F64.of_Z 1)) 100 150 200)
    as (mask & E & _ & G).
  - unfold packed_ok, small. cbn. repeat split; lia.
  - intros x y Hin. apply PtIn_spec in Hin. cbn in Hin.
    assert (Hx : x = 0 \/ x = 1 \/ x = 2) by lia.
    assert (Hy : y = 0 \/ y = 1 \/ y = 2) by lia.
    exists 255.
    destruct Hx as [-> | [-> | ->]]; destruct Hy as [-> | [-> | ->]];
      vm_compute; reflexivity.
  - exists mask. split; [exact E |]. apply G. reflexivity.
Defined.

End EdgesFacts.

(** ** The box blur of [resizeGrayBlur5O] *)

Section BlurFacts.
Import Image Rmbg Resize Shape.

Ltac unwrap :=
  repeat match goal with
         | |- context [GoInt.wrap64 ?z] =>
             lazymatch z with
             | context [GoInt.wrap64 _] => fail
             | _ => rewrite (wrap64_small z)
                      by (unfold GoInt.min_int, GoInt.max_int; nia)
             end
         end.

Lemma clamp_spec (v n : Z) :
  1 <= n -> 0 <= clamp v 0 (n - 1) < n
            /\ (0 <= v < n -> clamp v 0 (n - 1) = v)
            /\ (v < 0 -> clamp v 0 (n - 1) = 0)
            /\ (n <= v -> clamp v 0 (n - 1) = n - 1).
Proof.
  intros Hn. unfold clamp.
  destruct (Z.ltb_spec v 0); destruct (Z.ltb_spec (n - 1) v); lia.
Qed.

(** Moving the window one step to the right adds the element that
    enters on the right and drops the one that leaves on the left. *)
Lemma window5_slide (line : Z -> Z) (n x : Z) :
  1 <= x < n ->
  window5 line n x
  = window5 line n (x - 1)
    + (line (Z.min (x + 2) (n - 1)) - line (Z.max (x - 2 - 1) 0)).
Proof.
  intros Hx. unfold window5.
  replace (x - 1 - 2) with (x - 3) by lia.
  replace (x - 1 - 1) with (x - 2) by lia.
  replace (x - 1 + 1) with x by lia.
  replace (x - 1 + 2) with (x + 1) by lia.
  replace (x - 2 - 1) with (x - 3) by lia.
  assert (E1 : clamp (x + 2) 0 (n - 1) = Z.min (x + 2) (n - 1))
    by (unfold clamp; destruct (Z.ltb_spec (x + 2) 0);
        destruct (Z.ltb_spec (n - 1) (x + 2)); lia).
  assert (E2 : clamp (x - 3) 0 (n - 1) = Z.max (x - 3) 0)
    by (unfold clamp; destruct (Z.ltb_spec (x - 3) 0);
        destruct (Z.ltb_spec (n - 1) (x - 3)); lia).
  rewrite E1, E2. lia.
Qed.

Lemma window5_bytes (line : Z -> Z) (n x : Z) :
  1 <= n -> (forall i, 0 <= i < n -> 0 <= line i <= 255) ->
  0 <= window5 line n x <= 1275.
Proof.
  intros Hn Hb. unfold window5.
  pose proof (Hb _ (proj1 (clamp_spec (x - 2) n Hn))).
  pose proof (Hb _ (proj1 (clamp_spec (x - 1) n Hn))).
  pose proof (Hb _ (proj1 (clamp_spec x n Hn))).
  pose proof (Hb _ (proj1 (clamp_spec (x + 1) n Hn))).
  pose proof (Hb _ (proj1 (clamp_spec (x + 2) n Hn))).
  lia.
Qed.

Lemma mean5_byte (s : Z) :
  0 <= s <= 1275 ->
  Background.uint8 (Background.quot64 s window) = s / 5
  /\ 0 <= s / 5 <= 255.
Proof.
  intros Hs. unfold Background.uint8, Background.quot64, window.
  rewrite Z.quot_div_nonneg by lia.
  pose proof (Z.div_pos s 5 ltac:(lia) ltac:(lia)).
  assert (s / 5 <= 255) by (apply Z.div_le_upper_bound; lia).
  rewrite wrap64_small by (unfold GoInt.min_int, GoInt.max_int; lia).
  rewrite Z.mod_small by lia. lia.
Qed.

(** The first window of a line. *)
Lemma firstSum_spec (read : Z -> option Z) (line : Z -> Z) (n : Z) :
  1 <= n <= 2 ^ 29 ->
  (forall i, 0 <= i < n -> read i = Some (line i) /\ 0 <= line i <= 255) ->
  firstSum read n = Some (window5 line n 0).
Proof.
  intros Hn Hread. unfold firstSum, radius.
  replace (range (- (2)) (2 + 1)) with [-2; -1; 0; 1; 2] by reflexivity.
  assert (En : GoInt.sub n 1 = n - 1)
    by (unfold GoInt.sub; apply wrap64_small;
        unfold GoInt.min_int, GoInt.max_int; lia).
  rewrite En. cbn [fold_left].
  assert (Hn1 : 1 <= n) by lia.
  destruct (Hread _ (proj1 (clamp_spec (-2) n Hn1))) as [-> B1].
  destruct (Hread _ (proj1 (clamp_spec (-1) n Hn1))) as [-> B2].
  destruct (Hread _ (proj1 (clamp_spec 0 n Hn1))) as [-> B3].
  destruct (Hread _ (proj1 (clamp_spec 1 n Hn1))) as [-> B4].
  destruct (Hread _ (proj1 (clamp_spec 2 n Hn1))) as [-> B5].
  unfold GoInt.add. unwrap.
  unfold window5. f_equal.
Qed.

Lemma index_at (l : list Z) (j : Z) :
  0 <= j < Z.of_nat (length l) -> index l j = Some (at_ l j).
Proof.
  intros Hj. unfold index, at_. destruct (Z.ltb_spec j 0); [lia |].
  destruct (nth_error l (Z.to_nat j)) as [v |] eqn:E.
  - apply (nth_error_nth _ _ 0) in E. congruence.
  - apply nth_error_None in E. lia.
Qed.

Lemma bytes_at (l : list Z) (j : Z) :
  bytes l -> 0 <= j < Z.of_nat (length l) -> 0 <= at_ l j <= 255.
Proof.
  intros Hb Hj. pose proof (index_at l j Hj) as E.
  apply (bytes_index l j _ Hb E).
Qed.

(** The sliding loop of the horizontal pass keeps [sum] equal to the
    window sum at the column just written. *)
Lemma hBlur_slide (tmp : list Z) (w off : Z) (line : Z -> Z) (hp0 : list Z)
    (n : nat) :
  1 <= w <= 2 ^ 29 -> 0 <= off <= 2 ^ 60 ->
  off + w <= Z.of_nat (length hp0) ->
  (forall i, 0 <= i < w ->
     index tmp (off + i) = Some (line i) /\ 0 <= line i <= 255) ->
  1 + Z.of_nat n <= w ->
  exists hp,
    fold_left
      (fun acc x =>
         match acc with
         | None => None
         | Some (sum, hp) =>
             let out := Z.min (GoInt.add x radius) (GoInt.sub w 1) in
             let in_ := Z.max (GoInt.sub (GoInt.sub x radius) 1) 0 in
             match index tmp (GoInt.add off out),
                   index tmp (GoInt.add off in_) with
             | Some a, Some b =>
                 let sum' := GoInt.add sum (GoInt.sub a b) in
                 match store hp (GoInt.add off x)
                         (Background.uint8
                            (Background.quot64 sum' window)) with
                 | Some hp' => Some (sum', hp')
                 | None => None
                 end
             | _, _ => None
             end
         end)
      (range 1 (1 + Z.of_nat n)) (Some (window5 line w 0, hp0))
    = Some (window5 line w (Z.of_nat n), hp)
    /\ length hp = length hp0
    /\ forall i, index hp i
                 = if (off + 1 <=? i) && (i <=? off + Z.of_nat n)
                   then Some (window5 line w (i - off) / 5)
                   else index hp0 i.
Proof.
  intros Hw Hoff Hlen Hline.
  assert (Hb : forall i, 0 <= i < w -> 0 <= line i <= 255)
    by (intros i Hi; apply Hline; exact Hi).
  cbv zeta. induction n as [| n IH]; intros Hn.
  - exists hp0. replace (1 + Z.of_nat 0) with 1 by lia.
    split; [reflexivity |]. split; [reflexivity |].
    intros i. destruct (Z.leb_spec (off + 1) i);
      destruct (Z.leb_spec i (off + Z.of_nat 0)); cbn; try reflexivity; lia.
  - destruct (IH ltac:(lia)) as (hp & E & L & I).
    rewrite Nat2Z.inj_succ. unfold Z.succ.
    replace (1 + (Z.of_nat n + 1)) with (1 + Z.of_nat n + 1) by lia.
    rewrite range_snoc by lia. rewrite fold_left_app, E. cbn [fold_left].
    set (x := 1 + Z.of_nat n) in *. unfold radius.
    assert (Hx : 1 <= x < w) by lia.
    unfold GoInt.add, GoInt.sub.
    rewrite (wrap64_small (x + 2)), (wrap64_small (w - 1)),
            (wrap64_small (x - 2))
      by (unfold GoInt.min_int, GoInt.max_int; lia).
    rewrite (wrap64_small (x - 2 - 1))
      by (unfold GoInt.min_int, GoInt.max_int; lia).
    rewrite (wrap64_small (off + Z.min (x + 2) (w - 1))),
            (wrap64_small (off + Z.max (x - 2 - 1) 0)),
            (wrap64_small (off + x))
      by (unfold GoInt.min_int, GoInt.max_int; lia).
    destruct (Hline (Z.min (x + 2) (w - 1)) ltac:(lia)) as [-> Ba].
    destruct (Hline (Z.max (x - 2 - 1) 0) ltac:(lia)) as [-> Bb].
    pose proof (window5_bytes line w (x - 1) ltac:(lia) Hb) as Bprev.
    pose proof (window5_bytes line w x ltac:(lia) Hb) as Bcur.
    pose proof (window5_slide line w x Hx) as Eslide.
    replace (Z.of_nat n) with (x - 1) by lia.
    rewrite (wrap64_small (line _ - line _))
      by (unfold GoInt.min_int, GoInt.max_int; lia).
    rewrite (wrap64_small (window5 line w (x - 1) + _))
      by (unfold GoInt.min_int, GoInt.max_int; lia).
    rewrite <- Eslide.
    destruct (mean5_byte _ Bcur) as [Em Bm]. rewrite Em.
    destruct (store_spec hp (off + x) (window5 line w x / 5) ltac:(lia))
      as (hp' & Es & Ls & Is).
    rewrite Es. exists hp'.
    replace (x - 1 + 1) with x by lia.
    split; [reflexivity |]. split; [lia |].
    intros i. rewrite Is, I.
    destruct (Z.eqb_spec i (off + x)) as [-> | Hne].
    + replace (off + x - off) with x by lia.
      destruct (Z.leb_spec (off + 1) (off + x));
        destruct (Z.leb_spec (off + x) (off + x)); cbn; try reflexivity; lia.
    + destruct (Z.leb_spec (off + 1) i);
        destruct (Z.leb_spec i (off + Z.of_nat n));
        destruct (Z.leb_spec i (off + x)); cbn; try reflexivity; lia.
Qed.

Lemma hBlurRow_spec (tmp hp : list Z) (w y : Z) :
  1 <= w <= 2 ^ 29 -> 0 <= y <= 2 ^ 29 ->
  y * w + w <= Z.of_nat (length tmp) -> bytes tmp ->
  y * w + w <= Z.of_nat (length hp) ->
  exists hp',
    hBlurRow tmp w y hp = Some hp' /\ length hp' = length hp
    /\ forall i, index hp' i
                 = if (y * w <=? i) && (i <? y * w + w)
                   then Some (window5 (fun k => at_ tmp (y * w + k)) w
                                      (i - y * w) / 5)
                   else index hp i.
Proof.
  intros Hw Hy Htmp Hb Hhp.
  assert (Hoff : 0 <= y * w <= 2 ^ 60) by nia.
  set (off := y * w) in *.
  set (line := fun k => at_ tmp (off + k)).
  assert (Hline : forall i, 0 <= i < w ->
            index tmp (off + i) = Some (line i) /\ 0 <= line i <= 255).
  { intros i Hi. unfold line. split; [apply index_at; lia |].
    apply bytes_at; [exact Hb | lia]. }
  assert (Hbl : forall i, 0 <= i < w -> 0 <= line i <= 255)
    by (intros i Hi; apply Hline; exact Hi).
  unfold hBlurRow. cbv zeta.
  assert (Emul : GoInt.mul y w = off)
    by (unfold GoInt.mul; apply wrap64_small;
        unfold GoInt.min_int, GoInt.max_int; lia).
  rewrite Emul.
  rewrite (firstSum_spec (fun xi => index tmp (GoInt.add off xi)) line w Hw).
  2:{ intros i Hi. unfold GoInt.add.
      rewrite wrap64_small by (unfold GoInt.min_int, GoInt.max_int; lia).
      apply Hline. exact Hi. }
  pose proof (window5_bytes line w 0 ltac:(lia) Hbl) as B0.
  destruct (mean5_byte _ B0) as [Em0 _]. rewrite Em0.
  destruct (store_spec hp off (window5 line w 0 / 5) ltac:(lia))
    as (hp0 & E0 & L0 & I0).
  rewrite E0.
  destruct (hBlur_slide tmp w off line hp0 (Z.to_nat (w - 1)) Hw Hoff
              ltac:(lia) Hline ltac:(lia)) as (hpF & EF & LF & IF).
  cbv zeta in EF. replace (1 + Z.of_nat (Z.to_nat (w - 1))) with w in EF by lia.
  rewrite EF. cbn [option_map snd].
  exists hpF. split; [reflexivity |]. split; [lia |].
  intros i. rewrite IF, I0. rewrite Z2Nat.id by lia.
  destruct (Z.eqb_spec i off) as [-> | Hne].
  - replace (off - off) with 0 by lia.
    destruct (Z.leb_spec (off + 1) off); destruct (Z.leb_spec off (off + (w - 1)));
      destruct (Z.leb_spec off off); destruct (Z.ltb_spec off (off + w));
      cbn; try reflexivity; lia.
  - destruct (Z.leb_spec (off + 1) i); destruct (Z.leb_spec i (off + (w - 1)));
      destruct (Z.leb_spec off i); destruct (Z.ltb_spec i (off + w));
      cbn; try reflexivity; lia.
Qed.

Lemma hBlur_spec (tmp hp : list Z) (w h : Z) :
  1 <= w <= 2 ^ 29 -> 0 <= h <= 2 ^ 29 ->
  Z.of_nat (length tmp) = w * h -> bytes tmp ->
  Z.of_nat (length hp) = w * h ->
  exists hp',
    hBlur tmp hp w h = Some hp' /\ length hp' = length hp
    /\ forall y x, 0 <= y < h -> 0 <= x < w ->
         index hp' (y * w + x)
         = Some (window5 (fun k => at_ tmp (y * w + k)) w x / 5).
Proof.
  intros Hw Hh Htmp Hb Hhp.
  destruct (rows_fill (hBlurRow tmp w)
              (fun y x _ =>
                 Some (window5 (fun k => at_ tmp (y * w + k)) w x / 5))
              w h (length hp) ltac:(lia) ltac:(lia) ltac:(lia))
    with (d := hp) as (hp' & E & L & P & _).
  - intros y d Hy Hd.
    destruct (hBlurRow_spec tmp d w y Hw ltac:(lia) ltac:(nia) Hb ltac:(nia))
      as (d' & Ed & Ld & Id).
    exists d'. split; [exact Ed |]. split; [lia |]. exact Id.
  - reflexivity.
  - exists hp'. split; [exact E |]. split; [exact L |]. exact P.
Qed.

(** The sliding loop of the vertical pass. *)
Lemma vBlur_slide (hPass : list Z) (w h x : Z) (col : Z -> Z) (d0 : Gray)
    (n : nat) :
  1 <= w <= 2 ^ 28 -> 1 <= h <= 2 ^ 28 -> 0 <= x < w ->
  gray_wf d0 -> Bounds d0 = mkRect (Pt 0 0) (Pt w h) ->
  (forall j, 0 <= j < h ->
     index hPass (j * w + x) = Some (col j) /\ 0 <= col j <= 255) ->
  1 + Z.of_nat n <= h ->
  exists d,
    fold_left
      (fun acc y =>
         match acc with
         | None => None
         | Some (sum, d) =>
             let out := Z.min (GoInt.add y radius) (GoInt.sub h 1) in
             let in_ := Z.max (GoInt.sub (GoInt.sub y radius) 1) 0 in
             match index hPass (GoInt.add (GoInt.mul out w) x),
                   index hPass (GoInt.add (GoInt.mul in_ w) x) with
             | Some a, Some b =>
                 let sum' := GoInt.add sum (GoInt.sub a b) in
                 match SetGray d x y
                         (Background.uint8
                            (Background.quot64 sum' window)) with
                 | Some d' => Some (sum', d')
                 | None => None
                 end
             | _, _ => None
             end
         end)
      (range 1 (1 + Z.of_nat n)) (Some (window5 col h 0, d0))
    = Some (window5 col h (Z.of_nat n), d)
    /\ gray_wf d /\ Bounds d = Bounds d0
    /\ forall x' y', PtIn x' y' (Bounds d0) = true ->
         GrayAt d x' y'
         = if (x' =? x) && (1 <=? y') && (y' <=? Z.of_nat n)
           then Some (window5 col h y' / 5)
           else GrayAt d0 x' y'.
Proof.
  intros Hw Hh Hx W0 B0 Hcol.
  assert (Hb : forall i, 0 <= i < h -> 0 <= col i <= 255)
    by (intros i Hi; apply Hcol; exact Hi).
  cbv zeta. induction n as [| n IH]; intros Hn.
  - exists d0. replace (1 + Z.of_nat 0) with 1 by lia.
    split; [reflexivity |]. split; [exact W0 |]. split; [reflexivity |].
    intros x' y' _. destruct (x' =? x); destruct (Z.leb_spec 1 y');
      destruct (Z.leb_spec y' (Z.of_nat 0)); cbn; try reflexivity; lia.
  - destruct (IH ltac:(lia)) as (d & E & W & B & G).
    rewrite Nat2Z.inj_succ. unfold Z.succ.
    replace (1 + (Z.of_nat n + 1)) with (1 + Z.of_nat n + 1) by lia.
    rewrite range_snoc by lia. rewrite fold_left_app, E. cbn [fold_left].
    set (y := 1 + Z.of_nat n) in *. unfold radius.
    assert (Hy : 1 <= y < h) by lia.
    unfold GoInt.add, GoInt.sub, GoInt.mul.
    rewrite (wrap64_small (y + 2)), (wrap64_small (h - 1)),
            (wrap64_small (y - 2))
      by (unfold GoInt.min_int, GoInt.max_int; lia).
    rewrite (wrap64_small (y - 2 - 1))
      by (unfold GoInt.min_int, GoInt.max_int; lia).
    rewrite (wrap64_small (Z.min (y + 2) (h - 1) * w)),
            (wrap64_small (Z.max (y - 2 - 1) 0 * w))
      by (unfold GoInt.min_int, GoInt.max_int; nia).
    rewrite (wrap64_small (Z.min (y + 2) (h - 1) * w + x)),
            (wrap64_small (Z.max (y - 2 - 1) 0 * w + x))
      by (unfold GoInt.min_int, GoInt.max_int; nia).
    destruct (Hcol (Z.min (y + 2) (h - 1)) ltac:(lia)) as [-> Ba].
    destruct (Hcol (Z.max (y - 2 - 1) 0) ltac:(lia)) as [-> Bb].
    pose proof (window5_bytes col h (y - 1) ltac:(lia) Hb) as Bprev.
    pose proof (window5_bytes col h y ltac:(lia) Hb) as Bcur.
    pose proof (window5_slide col h y Hy) as Eslide.
    replace (Z.of_nat n) with (y - 1) by lia.
    rewrite (wrap64_small (col _ - col _))
      by (unfold GoInt.min_int, GoInt.max_int; lia).
    rewrite (wrap64_small (window5 col h (y - 1) + _))
      by (unfold GoInt.min_int, GoInt.max_int; lia).
    rewrite <- Eslide.
    destruct (mean5_byte _ Bcur) as [Em Bm]. rewrite Em.
    destruct (SetGray_spec d x y (window5 col h y / 5) W)
      as (d' & Es & Bs & Ws & Gs).
    rewrite Es. exists d'.
    replace (y - 1 + 1) with y by lia.
    split; [reflexivity |]. split; [exact Ws |]. split; [congruence |].
    intros x' y' Hin. rewrite B in Gs. rewrite (Gs x' y' Hin), (G x' y' Hin).
    assert (Hxy : PtIn x y (Bounds d0) = true)
      by (rewrite B0; apply PtIn_spec; cbn [X Y Min Max]; lia).
    rewrite Hxy. cbn [andb].
    destruct (Z.eqb_spec x' x) as [-> | Hnx]; cbn [andb]; [| reflexivity].
    destruct (Z.eqb_spec y' y) as [-> | Hny].
    + destruct (Z.leb_spec 1 y); destruct (Z.leb_spec y y); cbn;
        try reflexivity; lia.
    + destruct (Z.leb_spec 1 y'); destruct (Z.leb_spec y' (Z.of_nat n));
        destruct (Z.leb_spec y' y); cbn; try reflexivity; lia.
Qed.

Lemma vBlurCol_spec (hPass : list Z) (w h x : Z) (d : Gray) :
  1 <= w <= 2 ^ 28 -> 1 <= h <= 2 ^ 28 -> 0 <= x < w ->
  gray_wf d -> Bounds d = mkRect (Pt 0 0) (Pt w h) ->
  Z.of_nat (length hPass) = w * h -> bytes hPass ->
  exists d',
    vBlurCol hPass w h x d = Some d'
    /\ gray_wf d' /\ Bounds d' = Bounds d
    /\ forall x' y', PtIn x' y' (Bounds d) = true ->
         GrayAt d' x' y'
         = if x' =? x
           then Some (window5 (fun j => at_ hPass (j * w + x)) h y' / 5)
           else GrayAt d x' y'.
Proof.
  intros Hw Hh Hx W B HL Hb.
  set (col := fun j => at_ hPass (j * w + x)).
  assert (Hcol : forall j, 0 <= j < h ->
            index hPass (j * w + x) = Some (col j) /\ 0 <= col j <= 255).
  { intros j Hj. unfold col. split; [apply index_at; nia |].
    apply bytes_at; [exact Hb | nia]. }
  assert (Hbl : forall i, 0 <= i < h -> 0 <= col i <= 255)
    by (intros i Hi; apply Hcol; exact Hi).
  unfold vBlurCol.
  rewrite (firstSum_spec (fun yi => index hPass (GoInt.add (GoInt.mul yi w) x))
             col h ltac:(lia)).
  2:{ intros i Hi. unfold GoInt.add, GoInt.mul.
      rewrite (wrap64_small (i * w))
        by (unfold GoInt.min_int, GoInt.max_int; nia).
      rewrite wrap64_small by (unfold GoInt.min_int, GoInt.max_int; nia).
      apply Hcol. exact Hi. }
  pose proof (window5_bytes col h 0 ltac:(lia) Hbl) as B0.
  destruct (mean5_byte _ B0) as [Em0 _]. rewrite Em0.
  destruct (SetGray_spec d x 0 (window5 col h 0 / 5) W)
    as (d0 & E0 & Bd0 & W0 & G0).
  rewrite E0.
  destruct (vBlur_slide hPass w h x col d0 (Z.to_nat (h - 1)) Hw Hh Hx W0
              ltac:(congruence) Hcol ltac:(lia)) as (dF & EF & WF & BF & GF).
  cbv zeta in EF. replace (1 + Z.of_nat (Z.to_nat (h - 1))) with h in EF by lia.
  rewrite EF. cbn [option_map snd].
  exists dF. split; [reflexivity |]. split; [exact WF |].
  split; [congruence |].
  intros x' y' Hin. rewrite Bd0 in GF.
  rewrite (GF x' y' Hin), (G0 x' y' Hin). rewrite Z2Nat.id by lia.
  assert (Hx0 : PtIn x 0 (Bounds d) = true)
    by (rewrite B; apply PtIn_spec; cbn [X Y Min Max]; lia).
  rewrite Hx0. cbn [andb].
  rewrite B in Hin. apply PtIn_spec in Hin. cbn [X Y Min Max] in Hin.
  destruct (Z.eqb_spec x' x) as [-> | Hnx]; cbn [andb]; [| reflexivity].
  destruct (Z.eqb_spec y' 0) as [-> | Hny].
  - destruct (Z.leb_spec 1 0); [lia |]. reflexivity.
  - destruct (Z.leb_spec 1 y'); destruct (Z.leb_spec y' (h - 1)); cbn;
      try reflexivity; lia.
Qed.

Lemma vBlur_prefix (hPass : list Z) (w h : Z) (dst : Gray) (n : nat) :
  1 <= w <= 2 ^ 28 -> 1 <= h <= 2 ^ 28 ->
  gray_wf dst -> Bounds dst = mkRect (Pt 0 0) (Pt w h) ->
  Z.of_nat (length hPass) = w * h -> bytes hPass ->
  Z.of_nat n <= w ->
  exists d',
    fold_left (fun acc x =>
                 match acc with
                 | None => None
                 | Some d => vBlurCol hPass w h x d
                 end) (range 0 (Z.of_nat n)) (Some dst) = Some d'
    /\ gray_wf d' /\ Bounds d' = Bounds dst
    /\ forall x y, PtIn x y (Bounds dst) = true ->
         GrayAt d' x y
         = if x <? Z.of_nat n
           then Some (window5 (fun j => at_ hPass (j * w + x)) h y / 5)
           else GrayAt dst x y.
Proof.
  intros Hw Hh W B HL Hb.
  induction n as [| n IH]; intros Hn.
  - exists dst. split; [reflexivity |]. split; [exact W |].
    split; [reflexivity |].
    intros x y Hin. rewrite B in Hin. apply PtIn_spec in Hin. cbn [X Y Min Max] in Hin.
    destruct (Z.ltb_spec x (Z.of_nat 0)); [lia | reflexivity].
  - destruct (IH ltac:(lia)) as (d & E & Wd & Bd & G).
    rewrite Nat2Z.inj_succ. unfold Z.succ.
    rewrite range_snoc by lia. rewrite fold_left_app, E. cbn [fold_left].
    destruct (vBlurCol_spec hPass w h (Z.of_nat n) d Hw Hh ltac:(lia) Wd
                ltac:(congruence) HL Hb) as (d' & E' & W' & B' & G').
    exists d'. split; [exact E' |]. split; [exact W' |].
    split; [congruence |].
    intros x y Hin. rewrite Bd in G'. rewrite (G' x y Hin), (G x y Hin).
    destruct (Z.eqb_spec x (Z.of_nat n)) as [-> | Hne].
    + destruct (Z.ltb_spec (Z.of_nat n) (Z.of_nat n + 1)); [reflexivity | lia].
    + destruct (Z.ltb_spec x (Z.of_nat n));
        destruct (Z.ltb_spec x (Z.of_nat n + 1)); try reflexivity; lia.
Qed.

Lemma vBlur_spec (hPass : list Z) (w h : Z) (dst : Gray) :
  1 <= w <= 2 ^ 28 -> 1 <= h <= 2 ^ 28 ->
  gray_wf dst -> Bounds dst = mkRect (Pt 0 0) (Pt w h) ->
  Z.of_nat (length hPass) = w * h -> bytes hPass ->
  exists d',
    vBlur hPass dst w h = Some d'
    /\ gray_wf d' /\ Bounds d' = Bounds dst
    /\ forall x y, 0 <= x < w -> 0 <= y < h ->
         GrayAt d' x y
         = Some (window5 (fun j => at_ hPass (j * w + x)) h y / 5).
Proof.
  intros Hw Hh W B HL Hb.
  destruct (vBlur_prefix hPass w h dst (Z.to_nat w) Hw Hh W B HL Hb
              ltac:(lia)) as (d' & E & W' & B' & G).
  rewrite Z2Nat.id in E, G by lia.
  exists d'. split; [exact E |]. split; [exact W' |]. split; [exact B' |].
  intros x y Hx Hy.
  assert (Hin : PtIn x y (Bounds dst) = true)
    by (rewrite B; apply PtIn_spec; cbn [X Y Min Max]; lia).
  rewrite (G x y Hin). destruct (Z.ltb_spec x w); [reflexivity | lia].
Qed.

Lemma window5_ext (f g : Z -> Z) (n x : Z) :
  1 <= n -> (forall i, 0 <= i < n -> f i = g i) ->
  window5 f n x = window5 g n x.
Proof.
  intros Hn H. unfold window5.
  rewrite !H by (apply clamp_spec; exact Hn). reflexivity.
Qed.

Lemma Rect_origin (w h : Z) :
  0 <= w -> 0 <= h -> Rect 0 0 w h = mkRect (Pt 0 0) (Pt w h).
Proof.
  intros Hw Hh. unfold Rect.
  destruct (Z.ltb_spec w 0); [lia |]. destruct (Z.ltb_spec h 0); [lia |].
  reflexivity.
Qed.

(** A list of [w * h] elements is determined by its elements at the
    positions [y * w + x]. *)
Lemma grid_ext (l1 l2 : list Z) (w h : Z) :
  1 <= w -> 0 <= h ->
  Z.of_nat (length l1) = w * h -> Z.of_nat (length l2) = w * h ->
  (forall y x, 0 <= y < h -> 0 <= x < w ->
     index l1 (y * w + x) = index l2 (y * w + x)) ->
  l1 = l2.
Proof.
  intros Hw Hh L1 L2 H. apply nth_error_ext. intros n.
  destruct (Nat.lt_ge_cases n (length l1)) as [Hlt | Hge].
  - set (i := Z.of_nat n).
    pose proof (Z.div_mod i w ltac:(lia)) as Hdm.
    pose proof (Z.mod_pos_bound i w ltac:(lia)) as Hmod.
    assert (Hdiv : 0 <= i / w < h).
    { split; [apply Z.div_pos; lia |]. apply Z.div_lt_upper_bound; lia. }
    specialize (H (i / w) (i mod w) Hdiv Hmod).
    replace (i / w * w + i mod w) with i in H by lia.
    unfold index in H. destruct (Z.ltb_spec i 0); [lia |].
    unfold i in H. rewrite Nat2Z.id in H. exact H.
  - assert (Hge2 : (length l2 <= n)%nat) by lia.
    apply nth_error_None in Hge, Hge2. congruence.
Qed.

Lemma grid_bytes (l : list Z) (w h : Z) (val : Z -> Z -> Z) :
  1 <= w -> 0 <= h -> Z.of_nat (length l) = w * h ->
  (forall y x, 0 <= y < h -> 0 <= x < w ->
     index l (y * w + x) = Some (val y x) /\ 0 <= val y x <= 255) ->
  bytes l.
Proof.
  intros Hw Hh L H. unfold bytes. apply Forall_forall. intros v Hv.
  apply In_nth_error in Hv as [n Hn].
  assert (Hlt : (n < length l)%nat)
    by (apply nth_error_Some; congruence).
  set (i := Z.of_nat n).
  pose proof (Z.div_mod i w ltac:(lia)) as Hdm.
  pose proof (Z.mod_pos_bound i w ltac:(lia)) as Hmod.
  assert (Hdiv : 0 <= i / w < h).
  { split; [apply Z.div_pos; lia |]. apply Z.div_lt_upper_bound; lia. }
  destruct (H (i / w) (i mod w) Hdiv Hmod) as [E B].
  replace (i / w * w + i mod w) with i in E by lia.
  unfold index in E. destruct (Z.ltb_spec i 0); [lia |].
  replace (Z.to_nat i) with n in E by (unfold i; lia).
  rewrite Hn in E. injection E as ->. exact B.
Qed.

Lemma blur_spec (tmp hp0 : list Z) (w h : Z) :
  1 <= w <= 2 ^ 28 -> 1 <= h <= 2 ^ 28 ->
  Z.of_nat (length tmp) = w * h -> bytes tmp ->
  Z.of_nat (length hp0) = w * h ->
  exists hp dst,
    hBlur tmp hp0 w h = Some hp
    /\ vBlur hp (NewGray (Rect 0 0 w h)) w h = Some dst
    /\ Bounds dst = Rect 0 0 w h
    /\ (forall y x, 0 <= y < h -> 0 <= x < w ->
          index hp (y * w + x)
          = Some (window5 (fun k => at_ tmp (y * w + k)) w x / 5))
    /\ forall x y, 0 <= x < w -> 0 <= y < h ->
         GrayAt dst x y
         = Some (window5
                   (fun j => window5 (fun i => at_ tmp (j * w + i)) w x / 5)
                   h y / 5).
Proof.
  intros Hw Hh Ltmp Hb Lhp.
  destruct (hBlur_spec tmp hp0 w h ltac:(lia) ltac:(lia) Ltmp Hb Lhp)
    as (hp & E & L & P).
  assert (Hrow : forall y x, 0 <= y < h -> 0 <= x < w ->
            0 <= window5 (fun k => at_ tmp (y * w + k)) w x / 5 <= 255).
  { intros y x Hy Hx. apply mean5_byte. apply window5_bytes; [lia |].
    intros i Hi. apply bytes_at; [exact Hb | nia]. }
  assert (Hbhp : bytes hp).
  { apply (grid_bytes hp w h
             (fun y x => window5 (fun k => at_ tmp (y * w + k)) w x / 5));
      try lia.
    intros y x Hy Hx. split; [apply P; assumption | apply Hrow; assumption]. }
  assert (Hs : small (Rect 0 0 w h))
    by (rewrite Rect_origin by lia; unfold small; cbn [X Y Min Max]; lia).
  destruct (vBlur_spec hp w h (NewGray (Rect 0 0 w h)) Hw Hh
              (NewGray_wf _ Hs)) as (dst & Ev & Wd & Bd & G).
  { apply Rect_origin; lia. }
  { lia. }
  { exact Hbhp. }
  exists hp, dst. split; [exact E |]. split; [exact Ev |].
  split; [exact Bd |]. split; [exact P |].
  intros x y Hx Hy. rewrite (G x y Hx Hy). f_equal. f_equal.
  apply window5_ext; [lia |]. intros j Hj.
  pose proof (P j x Hj Hx) as Ej.
  rewrite index_at in Ej by nia. congruence.
Qed.

(** The two blur passes together replace every pixel by the mean,
    rounded down, of the five row means around it in its column, each
    row mean being the mean, rounded down, of the five pixels around
    that position in its row; positions beyond an edge stand for the
    edge pixel.  The sliding sums never leave the range of a byte times
    five, and nothing depends on what [hPass] held before. *)
Theorem blur_is_box_mean (tmp hp0 : list Z) (w h : Z) :
  1 <= w <= 2 ^ 28 -> 1 <= h <= 2 ^ 28 ->
  Z.of_nat (length tmp) = w * h -> bytes tmp ->
  Z.of_nat (length hp0) = w * h ->
  exists hp dst,
    hBlur tmp hp0 w h = Some hp
    /\ vBlur hp (NewGray (Rect 0 0 w h)) w h = Some dst
    /\ forall x y, 0 <= x < w -> 0 <= y < h ->
         GrayAt dst x y
         = Some (window5
                   (fun j => window5 (fun i => at_ tmp (j * w + i)) w x / 5)
                   h y / 5).
Proof.
  intros Hw Hh Ltmp Hb Lhp.
  destruct (blur_spec tmp hp0 w h Hw Hh Ltmp Hb Lhp)
    as (hp & dst & E & Ev & _ & _ & G).
  exists hp, dst. auto.
Qed.

Lemma blur_is_box_mean_witness :
  exists hp dst,
    hBlur [10; 20; 30; 40; 50; 60] [7; 7; 7; 7; 7; 7] 3 2 = Some hp
    /\ vBlur hp (NewGray (Rect 0 0 3 2)) 3 2 = Some dst
    /\ GrayAt dst 1 0 = Some 32.
Proof.
  destruct (blur_is_box_mean [10; 20; 30; 40; 50; 60] [7; 7; 7; 7; 7; 7] 3 2)
    as (hp & dst & E & Ev & G); try (cbn; lia).
  - unfold bytes. repeat constructor; lia.
  - exists hp, dst. split; [exact E |]. split; [exact Ev |].
    rewrite (G 1 0) by lia. reflexivity.
Defined.

(** A flat buffer stays flat: when every pixel of [tmp] is [v], every
    pixel of the blurred image is [v]. *)
Theorem blur_keeps_flat (tmp hp0 : list Z) (w h v : Z) :
  1 <= w <= 2 ^ 28 -> 1 <= h <= 2 ^ 28 ->
  Z.of_nat (length tmp) = w * h -> 0 <= v <= 255 ->
  (forall i, 0 <= i < w * h -> at_ tmp i = v) ->
  Z.of_nat (length hp0) = w * h ->
  exists hp dst,
    hBlur tmp hp0 w h = Some hp
    /\ vBlur hp (NewGray (Rect 0 0 w h)) w h = Some dst
    /\ forall x y, 0 <= x < w -> 0 <= y < h -> GrayAt dst x y = Some v.
Proof.
  intros Hw Hh Ltmp Hv Hflat Lhp.
  assert (Hb : bytes tmp).
  { apply (grid_bytes tmp w h (fun _ _ => v)); try lia.
    intros y x Hy Hx. split; [| exact Hv].
    rewrite index_at by nia. f_equal. apply Hflat. nia. }
  destruct (blur_spec tmp hp0 w h Hw Hh Ltmp Hb Lhp)
    as (hp & dst & E & Ev & _ & _ & G).
  exists hp, dst. split; [exact E |]. split; [exact Ev |].
  intros x y Hx Hy. rewrite (G x y Hx Hy). f_equal.
  assert (Hmean : forall n z, 1 <= n -> window5 (fun _ => v) n z / 5 = v).
  { intros n z Hn. unfold window5.
    replace (v + v + v + v + v) with (v * 5) by lia. apply Z.div_mul. lia. }
  rewrite (window5_ext _ (fun _ => v) h y ltac:(lia)); [apply Hmean; lia |].
  intros j Hj.
  rewrite (window5_ext _ (fun _ => v) w x ltac:(lia)); [apply Hmean; lia |].
  intros i Hi. apply Hflat. nia.
Qed.

Lemma blur_keeps_flat_witness :
  exists hp dst,
    hBlur [9; 9; 9; 9; 9; 9] [0; 0; 0; 0; 0; 0] 3 2 = Some hp
    /\ vBlur hp (NewGray (Rect 0 0 3 2)) 3 2 = Some dst
    /\ GrayAt dst 2 1 = Some 9.
Proof.
  destruct (blur_keeps_flat [9; 9; 9; 9; 9; 9] [0; 0; 0; 0; 0; 0] 3 2 9)
    as (hp & dst & E & Ev & G); try (cbn; lia).
  - intros i Hi. assert (Hc : i = 0 \/ i = 1 \/ i = 2 \/ i = 3 \/ i = 4 \/ i = 5)
      by lia.
    destruct Hc as [-> | [-> | [-> | [-> | [-> | ->]]]]]; reflexivity.
  - exists hp, dst. split; [exact E |]. split; [exact Ev |].
    apply G; lia.
Defined.

End BlurFacts.

(** ** [resizeGrayBlur5O] and the pooled buffer *)

Section ResizeFacts.
Import Image Rmbg Resize Shape.

Lemma GrayAt_total (m : Gray) (x y : Z) :
  gray_wf m -> exists v, GrayAt m x y = Some v.
Proof.
  intros W. destruct (PtIn x y (Bounds m)) eqn:Hin.
  - apply GrayAt_wf; assumption.
  - exists 0. unfold GrayAt. rewrite Hin. reflexivity.
Qed.

(** The first stage writes every element of [tmp]; what it writes
    depends on [src] and the new size only. *)
Lemma bilinear_spec (src : Gray) (w h : Z) :
  gray_wf src -> 1 <= w <= 2 ^ 28 -> 0 <= h <= 2 ^ 28 ->
  exists val : Z -> Z -> Z,
    (forall y x, 0 <= val y x <= 255)
    /\ forall tmp0, Z.of_nat (length tmp0) = w * h ->
         exists t, bilinear src w h tmp0 = Some t
           /\ Z.of_nat (length t) = w * h
           /\ forall y x, 0 <= y < h -> 0 <= x < w ->
                index t (y * w + x) = Some (val y x).
Proof.
  intros W Hw Hh.
  set (srcB := Bounds src).
  set (xRatio := F64.div (F64.of_Z (Dx srcB)) (F64.of_Z w)).
  set (yRatio := F64.div (F64.of_Z (Dy srcB)) (F64.of_Z h)).
  set (y0 := fun y : Z => F64.to_int (F64.mul yRatio (F64.of_Z y))).
  set (y1 := fun y : Z => Z.min (GoInt.add (y0 y) 1) (GoInt.sub (Dy srcB) 1)).
  set (x0 := fun x : Z => F64.to_int (F64.mul xRatio (F64.of_Z x))).
  set (x1 := fun x : Z => Z.min (GoInt.add (x0 x) 1) (GoInt.sub (Dx srcB) 1)).
  set (mix := fun (y x v00 v10 v01 v11 : Z) =>
    Background.uint8
      (F64.to_int
         (F64.add
            (F64.add (F64.of_Z v00)
               (F64.mul (F64.sub (F64.of_Z v10) (F64.of_Z v00))
                  (F64.sub (F64.mul xRatio (F64.of_Z x)) (F64.of_Z (x0 x)))))
            (F64.mul
               (F64.sub
                  (F64.add (F64.of_Z v01)
                     (F64.mul (F64.sub (F64.of_Z v11) (F64.of_Z v01))
                        (F64.sub (F64.mul xRatio (F64.of_Z x))
                                 (F64.of_Z (x0 x)))))
                  (F64.add (F64.of_Z v00)
                     (F64.mul (F64.sub (F64.of_Z v10) (F64.of_Z v00))
                        (F64.sub (F64.mul xRatio (F64.of_Z x))
                                 (F64.of_Z (x0 x))))))
               (F64.sub (F64.mul yRatio (F64.of_Z y)) (F64.of_Z (y0 y))))))).
  set (val := fun y x : Z =>
    match GrayAt src (x0 x) (y0 y), GrayAt src (x1 x) (y0 y),
          GrayAt src (x0 x) (y1 y), GrayAt src (x1 x) (y1 y) with
    | Some v00, Some v10, Some v01, Some v11 => mix y x v00 v10 v01 v11
    | _, _, _, _ => 0
    end).
  exists val. split.
  { intros y x. unfold val.
    destruct (GrayAt src (x0 x) (y0 y)); [| lia].
    destruct (GrayAt src (x1 x) (y0 y)); [| lia].
    destruct (GrayAt src (x0 x) (y1 y)); [| lia].
    destruct (GrayAt src (x1 x) (y1 y)); [| lia].
    unfold mix, Background.uint8.
    match goal with |- 0 <= ?a mod 256 <= 255 =>
      pose proof (Z.mod_pos_bound a 256 ltac:(lia)); lia end. }
  intros tmp0 L0.
  set (pixel := fun (y : Z) (acc : option (list Z)) (x : Z) =>
    match acc with
    | None => None
    | Some tmp =>
        match GrayAt src (x0 x) (y0 y), GrayAt src (x1 x) (y0 y),
              GrayAt src (x0 x) (y1 y), GrayAt src (x1 x) (y1 y) with
        | Some v00, Some v10, Some v01, Some v11 =>
            store tmp (GoInt.add (GoInt.mul y w) x) (mix y x v00 v10 v01 v11)
        | _, _, _, _ => None
        end
    end).
  assert (Ebil : bilinear src w h tmp0
                 = fold_left (fun acc y => fold_left (pixel y) (range 0 w) acc)
                             (range 0 h) (Some tmp0)) by reflexivity.
  rewrite Ebil.
  destruct (rows_fill (fun y dp => fold_left (pixel y) (range 0 w) (Some dp))
              (fun y x _ => Some (val y x)) w h (length tmp0)
              ltac:(lia) ltac:(lia) ltac:(lia)) with (d := tmp0)
    as (t & E & L & P & _).
  - intros y d Hy Hd.
    destruct (row_fill (fun x => Some (Some (val y x))) (y * w) w d)
      as (d' & Ed & Ld & Id); try nia; [intros; discriminate |].
    exists d'. split; [| split; [lia | exact Id]].
    rewrite <- Ed. apply fold_left_ext_in.
    intros [dp |] x Hx; [| reflexivity]. apply in_range_iff in Hx.
    unfold pixel, val.
    destruct (GrayAt_total src (x0 x) (y0 y) W) as [v00 ->].
    destruct (GrayAt_total src (x1 x) (y0 y) W) as [v10 ->].
    destruct (GrayAt_total src (x0 x) (y1 y) W) as [v01 ->].
    destruct (GrayAt_total src (x1 x) (y1 y) W) as [v11 ->].
    unfold GoInt.add, GoInt.mul.
    rewrite (wrap64_small (y * w))
      by (unfold GoInt.min_int, GoInt.max_int; nia).
    rewrite (wrap64_small (y * w + x))
      by (unfold GoInt.min_int, GoInt.max_int; nia).
    reflexivity.
  - reflexivity.
  - exists t. split; [| split; [lia | exact P]].
    rewrite <- E. apply fold_left_ext_in.
    intros [dp |] y _; [reflexivity |].
    apply fold_left_none. reflexivity.
Qed.

Lemma fold_left_keep {A B : Type} (l : list B) (a : A) :
  fold_left (fun acc _ => acc) l a = a.
Proof. induction l as [| x l IH]; [reflexivity | exact IH]. Qed.

Lemma fold_first_none {A B : Type} (f : option A -> B -> option A)
    (x : B) (l : list B) (a : option A) :
  f a x = None -> (forall y, f None y = None) -> fold_left f (x :: l) a = None.
Proof.
  intros H Hn. cbn [fold_left]. rewrite H. apply fold_left_none. exact Hn.
Qed.

Lemma index_nil (i : Z) : index (@nil Z) i = None.
Proof.
  unfold index. destruct (i <? 0); [reflexivity |].
  destruct (Z.to_nat i); reflexivity.
Qed.

Lemma firstSum_none (read : Z -> option Z) (n : Z) :
  (forall i, read i = None) -> firstSum read n = None.
Proof.
  intros H. unfold firstSum.
  replace (range (- radius) (radius + 1)) with [-2; -1; 0; 1; 2]
    by reflexivity.
  cbn [fold_left]. rewrite H. reflexivity.
Qed.

Lemma visible_length (s : Buffer.slice) :
  0 <= Buffer.len s <= Buffer.cap s ->
  Z.of_nat (length (visible s)) = Buffer.len s.
Proof.
  intros H. unfold visible, Buffer.cap in *. rewrite length_firstn. lia.
Qed.

Lemma resize_spec (buf : Buffer.blurBuffer) (src : Gray) (newW newH : Z) :
  Buffer.balanced buf -> gray_wf src ->
  1 <= newW <= 2 ^ 28 -> 1 <= newH <= 2 ^ 28 ->
  exists tmp hp0 hp dst,
    Z.of_nat (length tmp) = newW * newH /\ bytes tmp
    /\ Z.of_nat (length hp0) = newW * newH
    /\ (forall tmp0, Z.of_nat (length tmp0) = newW * newH ->
          bilinear src newW newH tmp0 = Some tmp)
    /\ hBlur tmp hp0 newW newH = Some hp
    /\ vBlur hp (NewGray (Rect 0 0 newW newH)) newW newH = Some dst
    /\ resizeGrayBlur5O buf src newW newH = Some dst.
Proof.
  intros Hbal W Hw Hh.
  assert (Hsize : GoInt.mul newW newH = newW * newH)
    by (unfold GoInt.mul; apply wrap64_small;
        unfold GoInt.min_int, GoInt.max_int; nia).
  destruct (get_balanced buf (newW * newH) Hbal ltac:(nia))
    as (b & Eg & Lt & Lh & Ct & Ch).
  pose proof (cap_nonneg (Buffer.tmp buf)).
  pose proof (cap_nonneg (Buffer.hPass buf)).
  assert (Lvt : Z.of_nat (length (visible (Buffer.tmp b))) = newW * newH)
    by (rewrite visible_length; lia).
  assert (Lvh : Z.of_nat (length (visible (Buffer.hPass b))) = newW * newH)
    by (rewrite visible_length; lia).
  destruct (bilinear_spec src newW newH W Hw ltac:(lia)) as (val & Hval & Hbil).
  destruct (Hbil _ Lvt) as (tmp & Eb & Ltmp & Ptmp).
  assert (Hb : bytes tmp).
  { apply (grid_bytes tmp newW newH val); try lia.
    intros y x Hy Hx. split; [apply Ptmp; assumption | apply Hval]. }
  destruct (blur_spec tmp (visible (Buffer.hPass b)) newW newH Hw Hh Ltmp Hb Lvh)
    as (hp & dst & Eh & Ev & _ & _ & _).
  exists tmp, (visible (Buffer.hPass b)), hp, dst.
  split; [exact Ltmp |]. split; [exact Hb |]. split; [exact Lvh |].
  split.
  - intros tmp0 L0. destruct (Hbil _ L0) as (t' & Eb' & Lt' & Pt').
    rewrite Eb'. f_equal.
    apply (grid_ext t' tmp newW newH); try lia.
    intros y x Hy Hx. rewrite Pt', Ptmp by assumption. reflexivity.
  - split; [exact Eh |]. split; [exact Ev |].
    unfold resizeGrayBlur5O. cbv zeta. rewrite Hsize, Eg, Eb, Eh. exact Ev.
Qed.

(** The result of [resizeGrayBlur5O] does not depend on the buffer the
    pool hands out, be it fresh, too small, or left full of the bytes
    of an earlier call: every element of [tmp] and of [hPass] is
    written before it is read.  For positive sizes the function
    returns. *)
Theorem resize_ignores_buffer_contents
    (buf1 buf2 : Buffer.blurBuffer) (src : Gray) (newW newH : Z) :
  Buffer.balanced buf1 -> Buffer.balanced buf2 -> gray_wf src ->
  1 <= newW <= 2 ^ 28 -> 1 <= newH <= 2 ^ 28 ->
  resizeGrayBlur5O buf1 src newW newH = resizeGrayBlur5O buf2 src newW newH
  /\ resizeGrayBlur5O buf1 src newW newH <> None.
Proof.
  intros B1 B2 W Hw Hh.
  destruct (resize_spec buf1 src newW newH B1 W Hw Hh)
    as (t1 & h1 & hp1 & d1 & L1 & Hb1 & Lh1 & Bil1 & Eh1 & Ev1 & E1).
  destruct (resize_spec buf2 src newW newH B2 W Hw Hh)
    as (t2 & h2 & hp2 & d2 & L2 & Hb2 & Lh2 & Bil2 & Eh2 & Ev2 & E2).
  rewrite E1, E2. split; [| discriminate].
  assert (Et : t1 = t2).
  { pose proof (Bil1 t1 L1) as A. pose proof (Bil2 t1 L1) as B. congruence. }
  subst t2.
  destruct (hBlur_spec t1 h1 newW newH ltac:(lia) ltac:(lia) L1 Hb1 Lh1)
    as (hp1' & Eh1' & Lhp1 & P1).
  destruct (hBlur_spec t1 h2 newW newH ltac:(lia) ltac:(lia) L1 Hb1 Lh2)
    as (hp2' & Eh2' & Lhp2 & P2).
  rewrite Eh1 in Eh1'. injection Eh1' as <-.
  rewrite Eh2 in Eh2'. injection Eh2' as <-.
  assert (Ehp : hp1 = hp2).
  { apply (grid_ext hp1 hp2 newW newH); try lia.
    intros y x Hy Hx. rewrite P1, P2 by assumption. reflexivity. }
  subst hp2. congruence.
Qed.

Lemma resize_ignores_buffer_contents_witness :
  resizeGrayBlur5O Buffer.newBuffer Fixture.testMask 4 3
  = resizeGrayBlur5O Fixture.buf200 Fixture.testMask 4 3.
Proof.
  apply (resize_ignores_buffer_contents Buffer.newBuffer Fixture.buf200
           Fixture.testMask 4 3); try lia; try reflexivity.
  unfold gray_wf, small.
  repeat split; try (vm_compute; discriminate); vm_compute; reflexivity.
Defined.

(** With a width of zero and a positive height, or a height of zero
    and a positive width, [resizeGrayBlur5O] panics: the buffer it
    borrows has no element, and the first window sum reads element 0
    (or a negative index).  With both zero it returns an empty
    image. *)
Theorem resize_zero_dimension
    (buf : Buffer.blurBuffer) (src : Gray) (n : Z) :
  Buffer.balanced buf -> 1 <= n <= 2 ^ 28 ->
  resizeGrayBlur5O buf src 0 n = None
  /\ resizeGrayBlur5O buf src n 0 = None
  /\ resizeGrayBlur5O buf src 0 0 = Some (NewGray (Rect 0 0 0 0)).
Proof.
  intros Hbal Hn.
  destruct (get_balanced buf 0 Hbal ltac:(lia)) as (b & Eg & Lt & Lh & _ & _).
  assert (Vt : visible (Buffer.tmp b) = [])
    by (unfold visible; rewrite Lt; reflexivity).
  assert (Vh : visible (Buffer.hPass b) = [])
    by (unfold visible; rewrite Lh; reflexivity).
  assert (Hrange : range 0 n = 0 :: range 1 n).
  { unfold range. rewrite !Z.sub_0_r.
    replace (Z.to_nat n) with (S (Z.to_nat (n - 1))) by lia.
    cbn [seq map]. f_equal. rewrite <- seq_shift, map_map.
    apply map_ext. intros a. lia. }
  split; [| split].
  - unfold resizeGrayBlur5O. cbv zeta.
    replace (GoInt.mul 0 n) with 0
      by (unfold GoInt.mul; rewrite Z.mul_0_l; reflexivity).
    rewrite Eg, Vt, Vh.
    assert (Eb : bilinear src 0 n [] = Some []).
    { unfold bilinear. cbv zeta. change (range 0 0) with (@nil Z).
      cbn [fold_left]. apply fold_left_keep. }
    rewrite Eb.
    assert (Eh : hBlur [] [] 0 n = None).
    { unfold hBlur. rewrite Hrange.
      apply fold_first_none; [| reflexivity].
      unfold hBlurRow. cbv zeta.
      rewrite firstSum_none; [reflexivity |]. intros i. apply index_nil. }
    rewrite Eh. reflexivity.
  - unfold resizeGrayBlur5O. cbv zeta.
    replace (GoInt.mul n 0) with 0
      by (unfold GoInt.mul; rewrite Z.mul_0_r; reflexivity).
    rewrite Eg, Vt, Vh.
    assert (Eb : bilinear src n 0 [] = Some []) by reflexivity.
    rewrite Eb.
    assert (Eh : hBlur [] [] n 0 = Some []) by reflexivity.
    rewrite Eh. unfold vBlur. rewrite Hrange.
    apply fold_first_none; [| reflexivity].
    unfold vBlurCol.
    rewrite firstSum_none; [reflexivity |]. intros i. apply index_nil.
  - unfold resizeGrayBlur5O. cbv zeta. change (GoInt.mul 0 0) with 0.
    rewrite Eg, Vt, Vh. reflexivity.
Qed.

Lemma resize_zero_dimension_witness :
  resizeGrayBlur5O Buffer.newBuffer Fixture.testMask 0 3 = None.
Proof.
  apply (resize_zero_dimension Buffer.newBuffer Fixture.testMask 3);
    [reflexivity | lia].
Defined.

End ResizeFacts.

(** ** The search of [otsuThreshold] *)

Section OtsuSearch.
Import GoSlice Rmbg Shape.

Variable math_Exp : spec_float -> spec_float.




(** *** Sums of histogram counts *)








(** *** The histogram loop counts every value once *)





(** *** The running sums of the search *)





(** *** The search keeps the first largest between-class variance *)



End OtsuSearch.

Section OtsuSearchWitness.
Import GoSlice Rmbg Fixture Shape.


End OtsuSearchWitness.
